(** * Authoritative FPS room server: map generator, physics kernel, player
    entity, hit validator, tick driver and wire decoding.

    Shallow embedding of the TypeScript sources under [server/src] and
    [shared/src].  Conventions used throughout:

    - a JavaScript [number] that holds a coordinate, an angle or a time is a
      real ([R]); rounding of IEEE-754 arithmetic is not part of the model.
      NaN and the infinities, which the yaw, the pitch and the timestamp of
      a decoded input can be, are followed in the last part ("Values that
      are not numbers") through the functions they reach, and are left out
      everywhere else;
    - a [number] that only ever holds an integer (sequence numbers, ids,
      health, damage, scores, the generator state) is a [Z], with every
      wrap-around or rounding the source performs on it written out;
    - [Date.now()] and [Math.random()] are read from two oracles, indexed by
      the number of reads made so far, which the state threads explicitly;
    - a [Map] iterated in insertion order is an association list. *)

From Stdlib Require Import Reals Lra Lia ZArith List Bool Psatz.
From Stdlib Require Floats Uint63 Strings.Byte.
Import ListNotations.
Open Scope R_scope.

(** ** Boolean comparisons on reals, as the source's [<], [<=], [>=], [>]. *)

Definition Rltb (a b : R) : bool := if Rlt_dec a b then true else false.
Definition Rleb (a b : R) : bool := if Rle_dec a b then true else false.
Notation "a <? b" := (Rltb a b) (at level 70, no associativity) : R_scope.
Notation "a <=? b" := (Rleb a b) (at level 70, no associativity) : R_scope.
Notation "a >? b" := (Rltb b a) (at level 70, no associativity) : R_scope.
Notation "a >=? b" := (Rleb b a) (at level 70, no associativity) : R_scope.

(** [Math.ceil]. *)
Definition ceil (r : R) : Z := (1 - up (- r))%Z.

(** ** [GAME_CONSTANTS] (shared/src/types.ts) *)

Module Weapon.
Record t := mk {
  damage : Z;
  fireRate : R;
  range : R;
  spread : R;
  automatic : bool;
  bulletCount : nat
}.
End Weapon.

Module GAME_CONSTANTS.
Definition TICK_RATE : Z := 60.
Definition MOVE_SPEED : R := 5.
Definition SPRINT_MULTIPLIER : R := 1.6.
Definition SNEAK_MULTIPLIER : R := 0.5.
Definition JUMP_FORCE : R := 8.
Definition GRAVITY : R := 20.
Definition PLAYER_HEIGHT : R := 1.8.
Definition PLAYER_RADIUS : R := 0.4.
Definition HEAD_HEIGHT : R := 0.3.
Definition MAX_HEALTH : Z := 100.
Definition RESPAWN_TIME : R := 2000.
Definition MAP_SIZE : R := 50.
Definition OBSTACLE_COUNT : nat := 40.
Definition Pistol := Weapon.mk 25 400 100 0.02 false 1.
Definition SMG := Weapon.mk 15 100 50 0.08 true 1.
Definition Rifle := Weapon.mk 35 150 150 0.01 true 1.
Definition Shotgun := Weapon.mk 15 800 20 0.15 false 8.
Definition WEAPONS : list Weapon.t := [Pistol; SMG; Rifle; Shotgun].
(** [WEAPONS[i]]: [undefined] outside the table. *)
Definition WEAPONS_at (i : Z) : option Weapon.t :=
  if (i <? 0)%Z then None else nth_error WEAPONS (Z.to_nat i).
End GAME_CONSTANTS.

(** ** [CONFIG] (server/src/config.ts): read from the environment. *)

Module CONFIG.
Record t := mk {
  TICK_RATE : Z;
  MAX_PLAYERS_PER_ROOM : Z;
  MAX_ROOMS : Z;
  MAP_SEED : Z
}.
Definition MAX_LAG_COMPENSATION : R := 400.
Definition default : t := mk 60 16 10 12345.
End CONFIG.

(** ** The two oracles: the [k]-th reading of [Date.now()] and the [k]-th
    draw of [Math.random()]; [fround] is the rounding a [Float32Array]
    applies to what is stored in it; [float32_of] and [float64_of] give the
    number a little-endian IEEE-754 bit pattern stands for. *)

Record Env := mkEnv {
  now_at : nat -> R;
  rnd_at : nat -> R;
  fround : R -> R;
  float32_of : list Byte.byte -> R;
  float64_of : list Byte.byte -> R
}.

Module Vec3.
Record t := mk { x : R; y : R; z : R }.
End Vec3.

Module Obstacle.
Record t := mk { x : R; z : R; width : R; height : R; depth : R }.
End Obstacle.

(** ** Server-side physics (server/src/physics.ts) *)

Module Physics.
Import GAME_CONSTANTS.

(** The double nearest to the integer [n] (round to nearest, ties to even):
    integers below [2^53] in magnitude are doubles, above that only 53
    significant bits are kept. *)
Definition round_binary64 (n : Z) : Z :=
  let a := Z.abs n in
  if (a <? 2 ^ 53)%Z then n else
  let k := (Z.log2 a - 52)%Z in
  let q := Z.shiftr a k in
  let r := Z.land a (Z.ones k) in
  let half := (2 ^ (k - 1))%Z in
  let q' := if orb (half <? r)%Z (andb (r =? half)%Z (Z.odd q)) then (q + 1)%Z else q in
  (Z.sgn n * Z.shiftl q' k)%Z.

(** [ToInt32], applied by [&] to its operands. *)
Definition toInt32 (v : Z) : Z :=
  let m := (v mod 2 ^ 32)%Z in
  if (2 ^ 31 <=? m)%Z then (m - 2 ^ 32)%Z else m.

(** One call of the closure [random]: the new value of [s].  The product
    and the sum are double operations on integer values. *)
Definition random_step (s : Z) : Z :=
  Z.land (toInt32 (round_binary64 (round_binary64 (s * 1103515245) + 12345)))
         2147483647.

(** What [random] returns for the new [s]. *)
Definition random_value (s : Z) : R := IZR s / 2147483647.

(** The body of the box loop, [n] iterations from state [s]; returns the
    boxes pushed and the final [s]. *)
Fixpoint boxes (n : nat) (s : Z) : list Obstacle.t * Z :=
  match n with
  | O => ([], s)
  | S n' =>
      let s1 := random_step s in
      let width := 1 + random_value s1 * 4 in
      let s2 := random_step s1 in
      let height := 2 + random_value s2 * 6 in
      let s3 := random_step s2 in
      let depth := 1 + random_value s3 * 4 in
      let s4 := random_step s3 in
      let x := (random_value s4 - 0.5) * (MAP_SIZE - width) in
      let s5 := random_step s4 in
      let z := (random_value s5 - 0.5) * (MAP_SIZE - depth) in
      let (rest, s') := boxes n' s5 in
      (Obstacle.mk x z width height depth :: rest, s')
  end.

Definition wallThickness : R := 1.
Definition halfSize : R := MAP_SIZE / 2.
Definition northWall := Obstacle.mk 0 halfSize MAP_SIZE 5 wallThickness.
Definition southWall := Obstacle.mk 0 (- halfSize) MAP_SIZE 5 wallThickness.
Definition eastWall := Obstacle.mk halfSize 0 wallThickness 5 MAP_SIZE.
Definition westWall := Obstacle.mk (- halfSize) 0 wallThickness 5 MAP_SIZE.

Definition generateObstacles (seed : Z) : list Obstacle.t :=
  fst (boxes OBSTACLE_COUNT seed) ++ [northWall; southWall; eastWall; westWall].

Definition checkObstacleCollision (x y z radius height : R) (obstacle : Obstacle.t) : bool :=
  let halfW := Obstacle.width obstacle / 2 in
  let halfD := Obstacle.depth obstacle / 2 in
  let closestX := Rmax (Obstacle.x obstacle - halfW) (Rmin x (Obstacle.x obstacle + halfW)) in
  let closestZ := Rmax (Obstacle.z obstacle - halfD) (Rmin z (Obstacle.z obstacle + halfD)) in
  let distX := x - closestX in
  let distZ := z - closestZ in
  let distSq := distX * distX + distZ * distZ in
  if distSq <? radius * radius then
    if (y <? Obstacle.height obstacle) && (y + height >? 0) then true else false
  else false.

Definition checkCollision (x y z radius height : R) (obstacles : list Obstacle.t) : bool :=
  existsb (checkObstacleCollision x y z radius height) obstacles.

Definition getGroundHeight (x z : R) (obstacles : list Obstacle.t) : R := 0.

Record PhysicsResult := mkPhysicsResult {
  position : Vec3.t;
  velocity : Vec3.t;
  grounded : bool
}.

Definition applyPhysics (position velocity : Vec3.t) (deltaTime : R)
    (obstacles : list Obstacle.t) : PhysicsResult :=
  let radius := PLAYER_RADIUS in
  let height := PLAYER_HEIGHT in
  let vy := Vec3.y velocity - GRAVITY * deltaTime in
  let newX := Vec3.x position + Vec3.x velocity * deltaTime in
  let newY := Vec3.y position + vy * deltaTime in
  let newZ := Vec3.z position + Vec3.z velocity * deltaTime in
  let '(newX, vx) :=
    if checkCollision newX (Vec3.y position) (Vec3.z position) radius height obstacles
    then (Vec3.x position, 0) else (newX, Vec3.x velocity) in
  let '(newZ, vz) :=
    if checkCollision newX (Vec3.y position) newZ radius height obstacles
    then (Vec3.z position, 0) else (newZ, Vec3.z velocity) in
  let groundY := getGroundHeight newX newZ obstacles in
  let '(newY, vy, grounded) :=
    if newY <=? groundY then (groundY, 0, true)
    else if checkCollision newX newY newZ radius height obstacles
         then (Vec3.y position, 0, false)
         else (newY, vy, false) in
  let halfMap := MAP_SIZE / 2 - radius in
  let newX := Rmax (- halfMap) (Rmin halfMap newX) in
  let newZ := Rmax (- halfMap) (Rmin halfMap newZ) in
  mkPhysicsResult (Vec3.mk newX newY newZ) (Vec3.mk vx vy vz) grounded.

(** [RaycastHit]. *)
Record RaycastHit := mkRaycastHit {
  hit : bool;
  point : Vec3.t;
  distance : R;
  obstacleHit : bool
}.

Definition step : R := 0.5.

Definition insideObstacle (x y z : R) (obs : Obstacle.t) : bool :=
  let halfW := Obstacle.width obs / 2 in
  let halfD := Obstacle.depth obs / 2 in
  (x >=? Obstacle.x obs - halfW) && (x <=? Obstacle.x obs + halfW) &&
  (z >=? Obstacle.z obs - halfD) && (z <=? Obstacle.z obs + halfD) &&
  (y >=? 0) && (y <=? Obstacle.height obs).

(** The marching loop with [n] iterations left; [i] is the loop counter and
    [(x, y, z)] the point reached before this iteration. *)
Fixpoint march (n : nat) (i : nat) (x y z dx dy dz maxDistance : R)
    (obstacles : list Obstacle.t) : RaycastHit :=
  match n with
  | O => mkRaycastHit false (Vec3.mk x y z) maxDistance false
  | S n' =>
      let x := x + dx in
      let y := y + dy in
      let z := z + dz in
      if y <? 0 then mkRaycastHit true (Vec3.mk x 0 z) (INR i * step) false
      else if existsb (insideObstacle x y z) obstacles
           then mkRaycastHit true (Vec3.mk x y z) (INR i * step) true
           else march n' (S i) x y z dx dy dz maxDistance obstacles
  end.

Definition raycast (origin direction : Vec3.t) (maxDistance : R)
    (obstacles : list Obstacle.t) : RaycastHit :=
  let steps := ceil (maxDistance / step) in
  march (Z.to_nat steps) 0 (Vec3.x origin) (Vec3.y origin) (Vec3.z origin)
        (Vec3.x direction * step) (Vec3.y direction * step) (Vec3.z direction * step)
        maxDistance obstacles.

End Physics.

(** ** Shared records (shared/src/types.ts) *)

Module InputData.
Record t := mk {
  seq : Z;
  forward : bool; backward : bool; left : bool; right : bool;
  jump : bool; sprint : bool; sneak : bool; shoot : bool;
  weapon : Z;
  yaw : R; pitch : R;
  timestamp : R
}.
End InputData.

Module PlayerState.
Record t := mk {
  id : Z;
  x : R; y : R; z : R;
  vx : R; vy : R; vz : R;
  yaw : R; pitch : R;
  health : Z; weapon : Z;
  isShooting : bool; isDead : bool;
  score : Z
}.
End PlayerState.

Module HitEvent.
Record t := mk { shooterId : Z; targetId : Z; damage : Z; headshot : bool }.
End HitEvent.

(** ** The player entity (server/src/Player.ts) *)

Module Player.
Import GAME_CONSTANTS.

Definition HISTORY_CAPACITY : Z := 300.

Record t := mk {
  id : Z;
  name : list Byte.byte;
  ws : option nat;
  x : R; y : R; z : R;
  vx : R; vy : R; vz : R;
  yaw : R; pitch : R;
  health : Z;
  isDead : bool;
  respawnTime : R;
  score : Z; kills : Z; deaths : Z;
  weapon : Z;
  isShooting : bool;
  lastShootTime : R;
  pendingInputs : list InputData.t;
  lastProcessedInput : Z;
  grounded : bool;
  historyX : list R; historyY : list R; historyZ : list R;
  historyTime : list R;
  historyHead : Z;
  historySize : Z
}.

(** A typed array of [HISTORY_CAPACITY] zeros. *)
Definition zeros : list R := repeat 0 (Z.to_nat HISTORY_CAPACITY).

(** [arr[i]] and [arr[i] = v] on a typed array: a write outside the array
    is ignored. *)
Definition get (arr : list R) (i : Z) : R := nth (Z.to_nat i) arr 0.
Fixpoint set_nth (n : nat) (v : R) (arr : list R) : list R :=
  match arr, n with
  | [], _ => []
  | _ :: tl, O => v :: tl
  | hd :: tl, S n' => hd :: set_nth n' v tl
  end.
Definition set (arr : list R) (i : Z) (v : R) : list R :=
  if (i <? 0)%Z then arr else set_nth (Z.to_nat i) v arr.

(** The constructor together with the field initialisers. *)
Definition new (id : Z) (name : list Byte.byte) (ws : nat) : t :=
  {| id := id; name := name; ws := Some ws;
     x := 0; y := 0; z := 0; vx := 0; vy := 0; vz := 0; yaw := 0; pitch := 0;
     health := MAX_HEALTH; isDead := false; respawnTime := 0;
     score := 0; kills := 0; deaths := 0;
     weapon := 0; isShooting := false; lastShootTime := 0;
     pendingInputs := []; lastProcessedInput := 0; grounded := false;
     historyX := zeros; historyY := zeros; historyZ := zeros; historyTime := zeros;
     historyHead := 0; historySize := 0 |}.

(** [spawn]; [r1] and [r2] are its two draws of [Math.random()]. *)
Definition spawn (p : t) (r1 r2 : R) : t :=
  let mapSize := MAP_SIZE in
  let halfMap := mapSize / 2 - 2 in
  {| id := id p; name := name p; ws := ws p;
     x := (r1 - 0.5) * halfMap * 2; y := 5; z := (r2 - 0.5) * halfMap * 2;
     vx := 0; vy := 0; vz := 0; yaw := yaw p; pitch := pitch p;
     health := MAX_HEALTH; isDead := false; respawnTime := 0;
     score := score p; kills := kills p; deaths := deaths p;
     weapon := weapon p; isShooting := false; lastShootTime := lastShootTime p;
     pendingInputs := pendingInputs p; lastProcessedInput := lastProcessedInput p;
     grounded := grounded p;
     historyX := historyX p; historyY := historyY p; historyZ := historyZ p;
     historyTime := historyTime p;
     historyHead := 0; historySize := 0 |}.

Definition Rneqb (a b : R) : bool := if Req_dec_T a b then false else true.

Definition processInput (p : t) (input : InputData.t) (deltaTime : R)
    (obstacles : list Obstacle.t) : t :=
  if isDead p then p else
  let yaw' := InputData.yaw input in
  let pitch' := InputData.pitch input in
  let weapon' := InputData.weapon input in
  let isShooting' := InputData.shoot input in
  let speed :=
    if InputData.sprint input then MOVE_SPEED * SPRINT_MULTIPLIER
    else if InputData.sneak input then MOVE_SPEED * SNEAK_MULTIPLIER
    else MOVE_SPEED in
  let dx := 0 in
  let dz := 0 in
  let dz := if InputData.forward input then dz + 1 else dz in
  let dz := if InputData.backward input then dz - 1 else dz in
  let dx := if InputData.left input then dx - 1 else dx in
  let dx := if InputData.right input then dx + 1 else dx in
  let moving := Rneqb dx 0 || Rneqb dz 0 in
  let len := sqrt (dx * dx + dz * dz) in
  let dx := if moving then dx / len else dx in
  let dz := if moving then dz / len else dz in
  let sin := sin yaw' in
  let cos := cos yaw' in
  let moveX := (dx * cos + dz * sin) * speed in
  let moveZ := (- dx * sin + dz * cos) * speed in
  let jumping := InputData.jump input && grounded p in
  let vy' := if jumping then JUMP_FORCE else vy p in
  let currentPos := Vec3.mk (x p) (y p) (z p) in
  let currentVel := Vec3.mk moveX vy' moveZ in
  let result := Physics.applyPhysics currentPos currentVel deltaTime obstacles in
  {| id := id p; name := name p; ws := ws p;
     x := Vec3.x (Physics.position result);
     y := Vec3.y (Physics.position result);
     z := Vec3.z (Physics.position result);
     vx := Vec3.x (Physics.velocity result);
     vy := Vec3.y (Physics.velocity result);
     vz := Vec3.z (Physics.velocity result);
     yaw := yaw'; pitch := pitch';
     health := health p; isDead := isDead p; respawnTime := respawnTime p;
     score := score p; kills := kills p; deaths := deaths p;
     weapon := weapon'; isShooting := isShooting'; lastShootTime := lastShootTime p;
     pendingInputs := pendingInputs p;
     lastProcessedInput := InputData.seq input;
     grounded := Physics.grounded result;
     historyX := historyX p; historyY := historyY p; historyZ := historyZ p;
     historyTime := historyTime p;
     historyHead := historyHead p; historySize := historySize p |}.

Definition set_lastShootTime (p : t) (v : R) : t :=
  {| id := id p; name := name p; ws := ws p;
     x := x p; y := y p; z := z p; vx := vx p; vy := vy p; vz := vz p;
     yaw := yaw p; pitch := pitch p;
     health := health p; isDead := isDead p; respawnTime := respawnTime p;
     score := score p; kills := kills p; deaths := deaths p;
     weapon := weapon p; isShooting := isShooting p; lastShootTime := v;
     pendingInputs := pendingInputs p; lastProcessedInput := lastProcessedInput p;
     grounded := grounded p;
     historyX := historyX p; historyY := historyY p; historyZ := historyZ p;
     historyTime := historyTime p;
     historyHead := historyHead p; historySize := historySize p |}.

(** [canShoot]: the answer and the player after the call. *)
Definition canShoot (p : t) (currentTime : R) : bool * t :=
  if isDead p then (false, p) else
  if negb (isShooting p) then (false, p) else
  match WEAPONS_at (weapon p) with
  | None => (false, p)
  | Some weaponConfig =>
      if currentTime - lastShootTime p >=? Weapon.fireRate weaponConfig
      then (true, set_lastShootTime p currentTime)
      else (false, p)
  end.

Definition set_combat (p : t) (health' : Z) (isDead' : bool) (deaths' : Z) : t :=
  {| id := id p; name := name p; ws := ws p;
     x := x p; y := y p; z := z p; vx := vx p; vy := vy p; vz := vz p;
     yaw := yaw p; pitch := pitch p;
     health := health'; isDead := isDead'; respawnTime := respawnTime p;
     score := score p; kills := kills p; deaths := deaths';
     weapon := weapon p; isShooting := isShooting p; lastShootTime := lastShootTime p;
     pendingInputs := pendingInputs p; lastProcessedInput := lastProcessedInput p;
     grounded := grounded p;
     historyX := historyX p; historyY := historyY p; historyZ := historyZ p;
     historyTime := historyTime p;
     historyHead := historyHead p; historySize := historySize p |}.

(** [takeDamage]: whether the player was killed, and the player after. *)
Definition takeDamage (p : t) (damage : Z) (attackerId : Z) : bool * t :=
  if isDead p then (false, p) else
  let health' := (health p - damage)%Z in
  if (health' <=? 0)%Z
  then (true, set_combat p 0 true (deaths p + 1))
  else (false, set_combat p health' (isDead p) (deaths p)).

Definition getEyePosition (p : t) : Vec3.t :=
  Vec3.mk (x p) (y p + PLAYER_HEIGHT - 0.2) (z p).

Definition saveHistory (E : Env) (p : t) (timestamp : R) : t :=
  let idx := historyHead p in
  {| id := id p; name := name p; ws := ws p;
     x := x p; y := y p; z := z p; vx := vx p; vy := vy p; vz := vz p;
     yaw := yaw p; pitch := pitch p;
     health := health p; isDead := isDead p; respawnTime := respawnTime p;
     score := score p; kills := kills p; deaths := deaths p;
     weapon := weapon p; isShooting := isShooting p; lastShootTime := lastShootTime p;
     pendingInputs := pendingInputs p; lastProcessedInput := lastProcessedInput p;
     grounded := grounded p;
     historyX := set (historyX p) idx (fround E (x p));
     historyY := set (historyY p) idx (fround E (y p));
     historyZ := set (historyZ p) idx (fround E (z p));
     historyTime := set (historyTime p) idx timestamp;
     historyHead := ((historyHead p + 1) mod HISTORY_CAPACITY)%Z;
     historySize := if (historySize p <? HISTORY_CAPACITY)%Z
                    then (historySize p + 1)%Z else historySize p |}.

(** The stored sample in slot [idx]. *)
Definition sample (p : t) (idx : Z) : Vec3.t :=
  Vec3.mk (get (historyX p) idx) (get (historyY p) idx) (get (historyZ p) idx).

(** The body of the search loop of [getPositionAt] with [n] iterations
    left, and what follows the loop. *)
Fixpoint search (p : t) (timestamp : R) (n : nat) (idx : Z) : Vec3.t :=
  match n with
  | O => sample p idx
  | S n' =>
      let currIdx := idx in
      let prevIdx := ((idx - 1 + HISTORY_CAPACITY) mod HISTORY_CAPACITY)%Z in
      let currTime := get (historyTime p) currIdx in
      let prevTime := get (historyTime p) prevIdx in
      if (timestamp <=? currTime) && (timestamp >=? prevTime) then
        let t := (timestamp - prevTime) / (currTime - prevTime) in
        Vec3.mk
          (get (historyX p) prevIdx + (get (historyX p) currIdx - get (historyX p) prevIdx) * t)
          (get (historyY p) prevIdx + (get (historyY p) currIdx - get (historyY p) prevIdx) * t)
          (get (historyZ p) prevIdx + (get (historyZ p) currIdx - get (historyZ p) prevIdx) * t)
      else if currTime <? timestamp - 1000 then sample p prevIdx
      else search p timestamp n' prevIdx
  end.

Definition getPositionAt (p : t) (timestamp : R) : option Vec3.t :=
  if (historySize p =? 0)%Z then None else
  let idx := ((historyHead p - 1 + HISTORY_CAPACITY) mod HISTORY_CAPACITY)%Z in
  if timestamp >=? get (historyTime p) idx then Some (sample p idx)
  else Some (search p timestamp (Z.to_nat (historySize p - 1)) idx).

Definition getLookDirection (p : t) : Vec3.t :=
  Vec3.mk (sin (yaw p) * cos (pitch p)) (- sin (pitch p)) (cos (yaw p) * cos (pitch p)).

Definition getState (p : t) : PlayerState.t :=
  PlayerState.mk (id p) (x p) (y p) (z p) (vx p) (vy p) (vz p) (yaw p) (pitch p)
    (health p) (weapon p) (isShooting p) (isDead p) (score p).

(** Field writes made from outside the class (Room, FreeForAllMode). *)
Definition set_respawnTime (p : t) (v : R) : t :=
  {| id := id p; name := name p; ws := ws p;
     x := x p; y := y p; z := z p; vx := vx p; vy := vy p; vz := vz p;
     yaw := yaw p; pitch := pitch p;
     health := health p; isDead := isDead p; respawnTime := v;
     score := score p; kills := kills p; deaths := deaths p;
     weapon := weapon p; isShooting := isShooting p; lastShootTime := lastShootTime p;
     pendingInputs := pendingInputs p; lastProcessedInput := lastProcessedInput p;
     grounded := grounded p;
     historyX := historyX p; historyY := historyY p; historyZ := historyZ p;
     historyTime := historyTime p;
     historyHead := historyHead p; historySize := historySize p |}.

Definition set_pendingInputs (p : t) (v : list InputData.t) : t :=
  {| id := id p; name := name p; ws := ws p;
     x := x p; y := y p; z := z p; vx := vx p; vy := vy p; vz := vz p;
     yaw := yaw p; pitch := pitch p;
     health := health p; isDead := isDead p; respawnTime := respawnTime p;
     score := score p; kills := kills p; deaths := deaths p;
     weapon := weapon p; isShooting := isShooting p; lastShootTime := lastShootTime p;
     pendingInputs := v; lastProcessedInput := lastProcessedInput p;
     grounded := grounded p;
     historyX := historyX p; historyY := historyY p; historyZ := historyZ p;
     historyTime := historyTime p;
     historyHead := historyHead p; historySize := historySize p |}.

Definition set_stats (p : t) (score' kills' deaths' : Z) : t :=
  {| id := id p; name := name p; ws := ws p;
     x := x p; y := y p; z := z p; vx := vx p; vy := vy p; vz := vz p;
     yaw := yaw p; pitch := pitch p;
     health := health p; isDead := isDead p; respawnTime := respawnTime p;
     score := score'; kills := kills'; deaths := deaths';
     weapon := weapon p; isShooting := isShooting p; lastShootTime := lastShootTime p;
     pendingInputs := pendingInputs p; lastProcessedInput := lastProcessedInput p;
     grounded := grounded p;
     historyX := historyX p; historyY := historyY p; historyZ := historyZ p;
     historyTime := historyTime p;
     historyHead := historyHead p; historySize := historySize p |}.

Definition set_position (p : t) (pos : Vec3.t) : t :=
  {| id := id p; name := name p; ws := ws p;
     x := Vec3.x pos; y := Vec3.y pos; z := Vec3.z pos;
     vx := vx p; vy := vy p; vz := vz p;
     yaw := yaw p; pitch := pitch p;
     health := health p; isDead := isDead p; respawnTime := respawnTime p;
     score := score p; kills := kills p; deaths := deaths p;
     weapon := weapon p; isShooting := isShooting p; lastShootTime := lastShootTime p;
     pendingInputs := pendingInputs p; lastProcessedInput := lastProcessedInput p;
     grounded := grounded p;
     historyX := historyX p; historyY := historyY p; historyZ := historyZ p;
     historyTime := historyTime p;
     historyHead := historyHead p; historySize := historySize p |}.

(** The writes of [Room.processRespawns] on a respawning player. *)
Definition set_respawned (p : t) (pos : Vec3.t) : t :=
  {| id := id p; name := name p; ws := ws p;
     x := Vec3.x pos; y := Vec3.y pos; z := Vec3.z pos;
     vx := vx p; vy := vy p; vz := vz p;
     yaw := yaw p; pitch := pitch p;
     health := MAX_HEALTH; isDead := false; respawnTime := 0;
     score := score p; kills := kills p; deaths := deaths p;
     weapon := weapon p; isShooting := isShooting p; lastShootTime := lastShootTime p;
     pendingInputs := pendingInputs p; lastProcessedInput := lastProcessedInput p;
     grounded := grounded p;
     historyX := historyX p; historyY := historyY p; historyZ := historyZ p;
     historyTime := historyTime p;
     historyHead := historyHead p; historySize := historySize p |}.

End Player.

(** ** Effects: oracle positions, what was sent on the sockets, and the
    calls made to the game-mode policy. *)

Module Snapshot.
Record t := mk {
  tick : Z;
  timestamp : R;
  playerCount : Z;
  hitCount : Z;
  lastProcessedInput : Z;
  players : list PlayerState.t;
  hits : list HitEvent.t
}.
End Snapshot.

Inductive Msg :=
| WELCOME (playerId tickRate mapSeed : Z)
| SNAPSHOT (s : Snapshot.t)
| ECHO (frame : list Byte.byte).

Inductive Action :=
| Send (ws : nat) (m : Msg)
| Close (ws : nat).

Inductive ModeCall :=
| OnPlayerJoin (player : Z)
| OnPlayerLeave (player : Z)
| OnPlayerKill (killer victim : Z) (headshot : bool)
| OnPlayerDeath (player killerId : Z).

Record Eff := mkEff {
  clk : nat;
  rng : nat;
  out : list Action;
  calls : list ModeCall
}.

Definition dateNow (E : Env) (e : Eff) : R * Eff :=
  (now_at E (clk e), mkEff (S (clk e)) (rng e) (out e) (calls e)).
Definition random (E : Env) (e : Eff) : R * Eff :=
  (rnd_at E (rng e), mkEff (clk e) (S (rng e)) (out e) (calls e)).
Definition emit (a : Action) (e : Eff) : Eff :=
  mkEff (clk e) (rng e) (out e ++ [a]) (calls e).
Definition call (c : ModeCall) (e : Eff) : Eff :=
  mkEff (clk e) (rng e) (out e) (calls e ++ [c]).

(** ** Binary protocol (server/src/protocol.ts) *)

Module Protocol.

Definition MAX_PLAYERS : Z := 32.
Definition MAX_HITS : Z := 16.
Definition PLAYER_STATE_SIZE : Z := 40.
Definition HIT_EVENT_SIZE : Z := 6.
Definition SNAPSHOT_HEADER_SIZE : Z := 19.
Definition SNAPSHOT_BUFFER_SIZE : Z :=
  (SNAPSHOT_HEADER_SIZE + MAX_PLAYERS * PLAYER_STATE_SIZE + MAX_HITS * HIT_EVENT_SIZE)%Z.

(** A [DataView] access either yields a value or throws [RangeError]. *)
Inductive result (A : Type) :=
| Ok (a : A)
| RangeError.
Arguments Ok {A} a.
Arguments RangeError {A}.

Definition bind {A B : Type} (m : result A) (k : A -> result B) : result B :=
  match m with Ok a => k a | RangeError => RangeError end.
Notation "x <- m ;; k" := (bind m (fun x => k))
  (at level 61, m at next level, right associativity).

Definition u8 (b : Byte.byte) : Z := Z.of_N (Strings.Byte.to_N b).

(** The [n] bytes at [offset], when the buffer holds them. *)
Definition bytesAt (buffer : list Byte.byte) (offset n : nat) : result (list Byte.byte) :=
  if (offset + n <=? length buffer)%nat
  then Ok (firstn n (skipn offset buffer))
  else RangeError.

Fixpoint le_value (bs : list Byte.byte) : Z :=
  match bs with
  | [] => 0
  | b :: tl => u8 b + 256 * le_value tl
  end%Z.

Definition getUint8 (buffer : list Byte.byte) (offset : nat) : result Z :=
  bs <- bytesAt buffer offset 1 ;; Ok (le_value bs).
Definition getUint32 (buffer : list Byte.byte) (offset : nat) : result Z :=
  bs <- bytesAt buffer offset 4 ;; Ok (le_value bs).
Definition getFloat32 (E : Env) (buffer : list Byte.byte) (offset : nat) : result R :=
  bs <- bytesAt buffer offset 4 ;; Ok (float32_of E bs).
Definition getFloat64 (E : Env) (buffer : list Byte.byte) (offset : nat) : result R :=
  bs <- bytesAt buffer offset 8 ;; Ok (float64_of E bs).

(** [(flags & m) !== 0]. *)
Definition flag (flags m : Z) : bool := negb (Z.land flags m =? 0)%Z.

Definition decodeInput (E : Env) (buffer : list Byte.byte) : result InputData.t :=
  let offset := 1%nat in
  seq <- getUint32 buffer offset ;;
  let offset := (offset + 4)%nat in
  flags <- getUint8 buffer offset ;;
  let offset := (offset + 1)%nat in
  weapon <- getUint8 buffer offset ;;
  let offset := (offset + 1)%nat in
  yaw <- getFloat32 E buffer offset ;;
  let offset := (offset + 4)%nat in
  pitch <- getFloat32 E buffer offset ;;
  let offset := (offset + 4)%nat in
  timestamp <- getFloat64 E buffer offset ;;
  Ok (InputData.mk seq
        (flag flags 1) (flag flags 2) (flag flags 4) (flag flags 8)
        (flag flags 16) (flag flags 32) (flag flags 64) (flag flags 128)
        weapon yaw pitch timestamp).

(** [decodeJoinRequest]: the name is kept as the bytes handed to
    [TextDecoder]; [slice] clamps to the bytes present, and a missing
    length byte gives the empty slice. *)
Definition decodeJoinRequest (buffer : list Byte.byte) : list Byte.byte :=
  match nth_error buffer 1 with
  | Some nameLength => firstn (Z.to_nat (u8 nameLength)) (skipn 2 buffer)
  | None => []
  end.

(** [getMessageType]: [undefined] on an empty buffer. *)
Definition getMessageType (buffer : list Byte.byte) : option Z :=
  match buffer with
  | [] => None
  | b :: _ => Some (u8 b)
  end.

(** [encodeSnapshot]: the fields written to the scratch buffer, with the
    wrap-around of [setUint8] and [setUint32] on the header; a write past
    the end of the scratch buffer throws ([None]). *)
Definition encodeSnapshot (tick : Z) (timestamp : R) (players : list PlayerState.t)
    (hits : list HitEvent.t) (lastProcessedInput : Z) : option Snapshot.t :=
  if (SNAPSHOT_HEADER_SIZE + PLAYER_STATE_SIZE * Z.of_nat (length players)
      + HIT_EVENT_SIZE * Z.of_nat (length hits) <=? SNAPSHOT_BUFFER_SIZE)%Z
  then Some (Snapshot.mk (tick mod 2 ^ 32) timestamp
               (Z.of_nat (length players) mod 2 ^ 8)
               (Z.of_nat (length hits) mod 2 ^ 8)
               (lastProcessedInput mod 2 ^ 32)
               players hits)
  else None.

End Protocol.

(** ** Free-for-all game mode (server/src/FreeForAllMode.ts) *)

Module FreeForAllMode.
Import GAME_CONSTANTS.

Record t := mk {
  scoreLimit : Z;
  timeLimit : R;
  startTime : R
}.

(** [new FreeForAllMode()] with no options. *)
Definition new (E : Env) (e : Eff) : t * Eff :=
  let (now, e) := dateNow E e in (mk 0 0 now, e).

Definition onPlayerJoin (E : Env) (player : Player.t) (e : Eff) : Player.t * Eff :=
  let (r1, e) := random E e in
  let (r2, e) := random E e in
  (Player.spawn player r1 r2, call (OnPlayerJoin (Player.id player)) e).

Definition onPlayerLeave (player : Player.t) (e : Eff) : Eff :=
  call (OnPlayerLeave (Player.id player)) e.

(** The killer after [onPlayerKill]. *)
Definition onPlayerKill (killer : Player.t) (victim : Player.t) (headshot : bool)
    (e : Eff) : Player.t * Eff :=
  (Player.set_stats killer
     (Player.score killer + (if headshot then 2 else 1))%Z
     (Player.kills killer + 1)%Z
     (Player.deaths killer),
   call (OnPlayerKill (Player.id killer) (Player.id victim) headshot) e).

(** The victim after [onPlayerDeath]. *)
Definition onPlayerDeath (E : Env) (player : Player.t) (killerId : Z) (e : Eff)
    : Player.t * Eff :=
  let (now, e) := dateNow E e in
  (Player.set_respawnTime player (now + RESPAWN_TIME),
   call (OnPlayerDeath (Player.id player) killerId) e).

Definition shouldEndGame (E : Env) (m : t) (players : list Player.t) (e : Eff)
    : bool * Eff :=
  if (scoreLimit m >? 0)%Z &&
     existsb (fun player => (Player.score player >=? scoreLimit m)%Z) players
  then (true, e)
  else if timeLimit m >? 0 then
    let (now, e) := dateNow E e in
    if now - startTime m >=? timeLimit m then (true, e) else (false, e)
  else (false, e).

(** The loop of [getWinners]: the running maximum and the winners so far. *)
Definition getWinners (players : list Player.t) : list Player.t :=
  snd (fold_left
         (fun '(maxScore, winners) player =>
            if (Player.score player >? maxScore)%Z then (Player.score player, [player])
            else if (Player.score player =? maxScore)%Z then (maxScore, winners ++ [player])
            else (maxScore, winners))
         players ((-1)%Z, [])).

Definition getSpawnPosition (E : Env) (player : Player.t) (obstacles : list Obstacle.t)
    (e : Eff) : Vec3.t * Eff :=
  let mapSize := MAP_SIZE in
  let halfMap := mapSize / 2 - 2 in
  let (r1, e) := random E e in
  let (r2, e) := random E e in
  (Vec3.mk ((r1 - 0.5) * halfMap * 2) 0 ((r2 - 0.5) * halfMap * 2), e).

Definition tick (E : Env) (players : list Player.t) (deltaTime : R) (e : Eff)
    : list Player.t * Eff :=
  let (now, e) := dateNow E e in
  (map (fun player =>
          if Player.isDead player && (Player.respawnTime player >? 0)
             && (now >=? Player.respawnTime player)
          then Player.set_respawnTime player 0
          else player) players, e).

End FreeForAllMode.

(** ** One game instance (server/src/Room.ts) *)

Inductive RoomId :=
| lobby
| room_ (n : nat).

Definition RoomId_eqb (a b : RoomId) : bool :=
  match a, b with
  | lobby, lobby => true
  | room_ n, room_ m => Nat.eqb n m
  | _, _ => false
  end.

(** The user data of a socket; the empty [roomId] string is [None]. *)
Record SocketData := mkSocketData {
  playerId : Z;
  roomId : option RoomId
}.

(** What [raySphereIntersect] returns: [{hit: true, distance}] or
    [{hit: false, distance: Infinity}]. *)
Inductive Intersection :=
| Hit (distance : R)
| Miss.

(** What [checkPlayerHit] returns, likewise. *)
Inductive PlayerHit :=
| HitPlayer (distance : R) (headshot : bool)
| MissPlayer.

Module Room.
Import GAME_CONSTANTS.

Record t := mk {
  id : RoomId;
  maxPlayers : Z;
  players : list Player.t;
  gameMode : FreeForAllMode.t;
  obstacles : list Obstacle.t;
  tick : Z;
  tickInterval : bool;
  snapshotHits : list HitEvent.t;
  tickRate : Z;
  nextPlayerId : Z
}.

Definition set_players (r : t) (v : list Player.t) : t :=
  mk (id r) (maxPlayers r) v (gameMode r) (obstacles r) (tick r) (tickInterval r)
     (snapshotHits r) (tickRate r) (nextPlayerId r).
Definition set_tick (r : t) (v : Z) : t :=
  mk (id r) (maxPlayers r) (players r) (gameMode r) (obstacles r) v (tickInterval r)
     (snapshotHits r) (tickRate r) (nextPlayerId r).
Definition set_tickInterval (r : t) (v : bool) : t :=
  mk (id r) (maxPlayers r) (players r) (gameMode r) (obstacles r) (tick r) v
     (snapshotHits r) (tickRate r) (nextPlayerId r).
Definition set_snapshotHits (r : t) (v : list HitEvent.t) : t :=
  mk (id r) (maxPlayers r) (players r) (gameMode r) (obstacles r) (tick r) (tickInterval r)
     v (tickRate r) (nextPlayerId r).
Definition set_nextPlayerId (r : t) (v : Z) : t :=
  mk (id r) (maxPlayers r) (players r) (gameMode r) (obstacles r) (tick r) (tickInterval r)
     (snapshotHits r) (tickRate r) v.

(** [players.get(id)], and the write through a reference to a player held
    in the map: the entry under the player's id is replaced. *)
Definition get (ps : list Player.t) (pid : Z) : option Player.t :=
  find (fun p => (Player.id p =? pid)%Z) ps.
Fixpoint put (ps : list Player.t) (p : Player.t) : list Player.t :=
  match ps with
  | [] => []
  | q :: tl => if (Player.id q =? Player.id p)%Z then p :: tl else q :: put tl p
  end.

(** [players.set(id, player)]: replaces the entry of that id, or appends. *)
Fixpoint insert (ps : list Player.t) (p : Player.t) : list Player.t :=
  match ps with
  | [] => [p]
  | q :: tl => if (Player.id q =? Player.id p)%Z then p :: tl else q :: insert tl p
  end.

(** The constructor. *)
Definition new (E : Env) (cfg : CONFIG.t) (rid : RoomId) (e : Eff) : t * Eff :=
  let obstacles := Physics.generateObstacles (CONFIG.MAP_SEED cfg) in
  let (gameMode, e) := FreeForAllMode.new E e in
  (mk rid (CONFIG.MAX_PLAYERS_PER_ROOM cfg) [] gameMode obstacles 0 false []
      (CONFIG.TICK_RATE cfg) 1, e).

Definition start (r : t) : t := if tickInterval r then r else set_tickInterval r true.
Definition stop (r : t) : t := if tickInterval r then set_tickInterval r false else r.

(** [addPlayer]: the room, the new player if any, and the socket data. *)
Definition addPlayer (E : Env) (r : t) (name : list Byte.byte) (ws : nat)
    (data : SocketData) (e : Eff) : t * option Player.t * SocketData * Eff :=
  if (Z.of_nat (length (players r)) >=? maxPlayers r)%Z then (r, None, data, e) else
  let pid := nextPlayerId r in
  let r := set_nextPlayerId r (pid + 1)%Z in
  let player := Player.new pid name ws in
  let data := mkSocketData pid (Some (id r)) in
  let (player, e) := FreeForAllMode.onPlayerJoin E player e in
  let r := set_players r (insert (players r) player) in
  let r := if (length (players r) =? 1)%nat then start r else r in
  (r, Some player, data, e).

Definition removePlayer (r : t) (pid : Z) (e : Eff) : t * Eff :=
  match get (players r) pid with
  | Some player =>
      let e := FreeForAllMode.onPlayerLeave player e in
      let r := set_players r
                 (filter (fun q => negb (Player.id q =? pid)%Z) (players r)) in
      (if (length (players r) =? 0)%nat then stop r else r, e)
  | None => (r, e)
  end.

(** [Room.processInput]: queue the input for the next tick. *)
Definition processInput (r : t) (pid : Z) (input : InputData.t) : t :=
  match get (players r) pid with
  | None => r
  | Some player =>
      set_players r
        (put (players r)
           (Player.set_pendingInputs player (Player.pendingInputs player ++ [input])))
  end.

Definition raySphereIntersect (origin direction center : Vec3.t)
    (radius maxDistance : R) : Intersection :=
  let dx := Vec3.x origin - Vec3.x center in
  let dy := Vec3.y origin - Vec3.y center in
  let dz := Vec3.z origin - Vec3.z center in
  let a := Vec3.x direction * Vec3.x direction + Vec3.y direction * Vec3.y direction
           + Vec3.z direction * Vec3.z direction in
  let b := 2 * (dx * Vec3.x direction + dy * Vec3.y direction + dz * Vec3.z direction) in
  let c := dx * dx + dy * dy + dz * dz - radius * radius in
  let discriminant := b * b - 4 * a * c in
  if discriminant <? 0 then Miss else
  let t := (- b - sqrt discriminant) / (2 * a) in
  if (t >? 0) && (t <? maxDistance) then Hit t else Miss.

Definition checkPlayerHit (origin direction : Vec3.t) (target : Player.t)
    (maxDistance : R) : PlayerHit :=
  let bodyRadius := PLAYER_RADIUS in
  let bodyCenter :=
    Vec3.mk (Player.x target) (Player.y target + PLAYER_HEIGHT / 2) (Player.z target) in
  let headRadius := HEAD_HEIGHT in
  let headCenter :=
    Vec3.mk (Player.x target) (Player.y target + PLAYER_HEIGHT - headRadius)
            (Player.z target) in
  match raySphereIntersect origin direction headCenter headRadius maxDistance with
  | Hit d => HitPlayer d true
  | Miss =>
      match raySphereIntersect origin direction bodyCenter (bodyRadius * 1.5) maxDistance with
      | Hit d => HitPlayer d false
      | Miss => MissPlayer
      end
  end.

(** The spread applied to the look direction of one bullet. *)
Definition applySpread (E : Env) (weapon : Weapon.t) (direction : Vec3.t) (e : Eff)
    : Vec3.t * Eff :=
  if Weapon.spread weapon >? 0 then
    let (r1, e) := random E e in
    let dx := Vec3.x direction + (r1 - 0.5) * Weapon.spread weapon in
    let (r2, e) := random E e in
    let dy := Vec3.y direction + (r2 - 0.5) * Weapon.spread weapon in
    let (r3, e) := random E e in
    let dz := Vec3.z direction + (r3 - 0.5) * Weapon.spread weapon in
    let len := sqrt (dx * dx + dy * dy + dz * dz) in
    (Vec3.mk (dx / len) (dy / len) (dz / len), e)
  else (direction, e).

(** The body of the loop over the targets of one bullet, on the id of
    [hitPlayer], [hitDistance] and [isHeadshot]; and the loop. *)
Definition tryTarget (shooter : Player.t) (origin direction : Vec3.t)
    (weapon : Weapon.t) (rewindTime : R) (acc : option Z * R * bool)
    (target : Player.t) : option Z * R * bool :=
  let '(hitPlayer, hitDistance, isHeadshot) := acc in
  if (Player.id target =? Player.id shooter)%Z || Player.isDead target
  then (hitPlayer, hitDistance, isHeadshot)
  else
    match Player.getPositionAt target rewindTime with
    | None => (hitPlayer, hitDistance, isHeadshot)
    | Some pastPos =>
        let ghostTarget := Player.set_position target pastPos in
        match checkPlayerHit origin direction ghostTarget (Weapon.range weapon) with
        | HitPlayer d headshot =>
            if d <? hitDistance then (Some (Player.id target), d, headshot)
            else (hitPlayer, hitDistance, isHeadshot)
        | MissPlayer => (hitPlayer, hitDistance, isHeadshot)
        end
    end.

Definition nearestTarget (ps : list Player.t) (shooter : Player.t)
    (origin direction : Vec3.t) (weapon : Weapon.t) (rewindTime : R)
    : option Z * R * bool :=
  fold_left (tryTarget shooter origin direction weapon rewindTime)
    ps (None, Weapon.range weapon, false).

(** "Apply damage": the last block of the bullet loop. *)
Definition applyDamage (E : Env) (r : t) (e : Eff) (shooterId targetId : Z)
    (weapon : Weapon.t) (isHeadshot : bool) : t * Eff :=
  match get (players r) targetId with
  | None => (r, e)
  | Some hitPlayer =>
      let damage := if isHeadshot then (Weapon.damage weapon * 2)%Z
                    else Weapon.damage weapon in
      let (killed, hitPlayer) := Player.takeDamage hitPlayer damage shooterId in
      let r := set_players r (put (players r) hitPlayer) in
      let r := set_snapshotHits r
                 (snapshotHits r ++ [HitEvent.mk shooterId targetId damage isHeadshot]) in
      if killed then
        match get (players r) shooterId with
        | None => (r, e)
        | Some shooter =>
            let (shooter, e) := FreeForAllMode.onPlayerKill shooter hitPlayer isHeadshot e in
            let r := set_players r (put (players r) shooter) in
            let (hitPlayer, e) := FreeForAllMode.onPlayerDeath E hitPlayer shooterId e in
            (set_players r (put (players r) hitPlayer), e)
        end
      else (r, e)
  end.

(** One iteration of the bullet loop of [handleShoot]. *)
Definition fireBullet (E : Env) (r : t) (e : Eff) (shooterId : Z) (weapon : Weapon.t)
    (rewindTime : R) : t * Eff :=
  match get (players r) shooterId with
  | None => (r, e)
  | Some shooter =>
      let origin := Player.getEyePosition shooter in
      let direction := Player.getLookDirection shooter in
      let (direction, e) := applySpread E weapon direction e in
      let '(hitPlayer, hitDistance, isHeadshot) :=
        nearestTarget (players r) shooter origin direction weapon rewindTime in
      let obstacleHit := Physics.raycast origin direction hitDistance (obstacles r) in
      let hitPlayer :=
        if Physics.hit obstacleHit && (Physics.distance obstacleHit <? hitDistance)
        then None else hitPlayer in
      match hitPlayer with
      | Some targetId => applyDamage E r e shooterId targetId weapon isHeadshot
      | None => (r, e)
      end
  end.

Fixpoint bullets (E : Env) (n : nat) (r : t) (e : Eff) (shooterId : Z)
    (weapon : Weapon.t) (rewindTime : R) : t * Eff :=
  match n with
  | O => (r, e)
  | S n' =>
      let (r, e) := fireBullet E r e shooterId weapon rewindTime in
      bullets E n' r e shooterId weapon rewindTime
  end.

Definition handleShoot (E : Env) (r : t) (e : Eff) (shooterId : Z) (shootTime : R)
    : t * Eff :=
  match get (players r) shooterId with
  | None => (r, e)
  | Some shooter =>
      let (now, e) := dateNow E e in
      let (ok, shooter) := Player.canShoot shooter now in
      let r := set_players r (put (players r) shooter) in
      if negb ok then (r, e) else
      let rewindTime := shootTime in
      match WEAPONS_at (Player.weapon shooter) with
      | None => (r, e)
      | Some weapon =>
          let bulletCount :=
            match Weapon.bulletCount weapon with O => 1%nat | n => n end in
          bullets E bulletCount r e shooterId weapon rewindTime
      end
  end.

(** The body of the loop over [player.pendingInputs] in [gameTick]. *)
Definition applyInput (E : Env) (fixedDeltaTime : R) (pid : Z) (st : t * Eff)
    (input : InputData.t) : t * Eff :=
  let (r, e) := st in
  match get (players r) pid with
  | None => (r, e)
  | Some player =>
      let player := Player.processInput player input fixedDeltaTime (obstacles r) in
      let r := set_players r (put (players r) player) in
      if InputData.shoot input then
        let (now, e) := dateNow E e in
        let maxLag := CONFIG.MAX_LAG_COMPENSATION in
        let shootTime := InputData.timestamp input in
        let shootTime := if shootTime <? now - maxLag then now - maxLag else shootTime in
        let shootTime := if shootTime >? now then now else shootTime in
        handleShoot E r e pid shootTime
      else (r, e)
  end.

(** The body of the loop over the players in [gameTick]. *)
Definition drainPlayer (E : Env) (fixedDeltaTime : R) (st : t * Eff) (pid : Z)
    : t * Eff :=
  match get (players (fst st)) pid with
  | None => st
  | Some player =>
      let (r, e) :=
        fold_left (applyInput E fixedDeltaTime pid) (Player.pendingInputs player) st in
      match get (players r) pid with
      | None => (r, e)
      | Some player =>
          let player := Player.set_pendingInputs player [] in
          let (now, e) := dateNow E e in
          (set_players r (put (players r) (Player.saveHistory E player now)), e)
      end
  end.

Definition drainAll (E : Env) (fixedDeltaTime : R) (ids : list Z) (st : t * Eff)
    : t * Eff :=
  fold_left (drainPlayer E fixedDeltaTime) ids st.

(** The body of the loop of [processRespawns], and the loop; [now] is read
    before it. *)
Definition respawnOne (E : Env) (now : R) (obstacles : list Obstacle.t)
    (player : Player.t) (e : Eff) : Player.t * Eff :=
  if Player.isDead player && (Player.respawnTime player >? 0)
     && (now >=? Player.respawnTime player)
  then
    let (pos, e) := FreeForAllMode.getSpawnPosition E player obstacles e in
    (Player.set_respawned player pos, e)
  else (player, e).

Fixpoint respawnAll (E : Env) (now : R) (obstacles : list Obstacle.t)
    (ps : list Player.t) (e : Eff) : list Player.t * Eff :=
  match ps with
  | [] => ([], e)
  | player :: tl =>
      let (player, e) := respawnOne E now obstacles player e in
      let (tl, e) := respawnAll E now obstacles tl e in
      (player :: tl, e)
  end.

Definition processRespawns (E : Env) (r : t) (e : Eff) : t * Eff :=
  let (now, e) := dateNow E e in
  let (ps, e) := respawnAll E now (obstacles r) (players r) e in
  (set_players r ps, e).

(** The loop of [handleGameEnd]. *)
Fixpoint resetAll (E : Env) (ps : list Player.t) (e : Eff) : list Player.t * Eff :=
  match ps with
  | [] => ([], e)
  | player :: tl =>
      let player := Player.set_stats player 0 0 0 in
      let (r1, e) := random E e in
      let (r2, e) := random E e in
      let player := Player.spawn player r1 r2 in
      let (tl, e) := resetAll E tl e in
      (player :: tl, e)
  end.

Definition handleGameEnd (E : Env) (r : t) (e : Eff) : t * Eff :=
  let winners := FreeForAllMode.getWinners (players r) in
  let r := set_tick r 0 in
  let (ps, e) := resetAll E (players r) e in
  (set_players r ps, e).

(** The body of the loop of [broadcastSnapshot] for one player: a throw of
    [encodeSnapshot] is caught and nothing is sent. *)
Definition sendSnapshot (E : Env) (r : t) (e : Eff) (player : Player.t) : Eff :=
  match Player.ws player with
  | None => e
  | Some ws =>
      let playerStates := map Player.getState (players r) in
      let (now, e) := dateNow E e in
      match Protocol.encodeSnapshot (tick r) now playerStates (snapshotHits r)
              (Player.lastProcessedInput player) with
      | Some buffer => emit (Send ws (SNAPSHOT buffer)) e
      | None => e
      end
  end.

Definition broadcastSnapshot (E : Env) (r : t) (e : Eff) : Eff :=
  fold_left (sendSnapshot E r) (players r) e.

(** [gameTick]; the write to [lastTickTime], which nothing reads, is left
    out. *)
Definition gameTick (E : Env) (r : t) (e : Eff) : t * Eff :=
  let r := set_tick r (tick r + 1)%Z in
  let fixedDeltaTime := 1 / IZR (tickRate r) in
  let r := set_snapshotHits r [] in
  let (r, e) := drainAll E fixedDeltaTime (map Player.id (players r)) (r, e) in
  let (r, e) := processRespawns E r e in
  let (ps, e) := FreeForAllMode.tick E (players r) fixedDeltaTime e in
  let r := set_players r ps in
  let (ended, e) := FreeForAllMode.shouldEndGame E (gameMode r) (players r) e in
  let (r, e) := if ended then handleGameEnd E r e else (r, e) in
  (r, broadcastSnapshot E r e).

Definition playerCount (r : t) : nat := length (players r).
Definition isFull (r : t) : bool := (Z.of_nat (length (players r)) >=? maxPlayers r)%Z.

End Room.

(** ** The entry point (server/src/index.ts): room registry and the
    WebSocket [message] handler. *)

Module ClientMessageType.
Definition JOIN : Z := 1.
Definition INPUT : Z := 2.
Definition PING : Z := 3.
End ClientMessageType.

Module Server.

(** [rooms]: a [Map] from room id to room, in insertion order. *)
Definition t := list (RoomId * Room.t).

Definition DEFAULT_ROOM : RoomId := lobby.

Definition rooms_get (rooms : t) (rid : RoomId) : option Room.t :=
  option_map snd (find (fun kv => RoomId_eqb (fst kv) rid) rooms).

Fixpoint rooms_set (rooms : t) (rid : RoomId) (room : Room.t) : t :=
  match rooms with
  | [] => [(rid, room)]
  | kv :: tl =>
      if RoomId_eqb (fst kv) rid then (rid, room) :: tl
      else kv :: rooms_set tl rid room
  end.

Definition getOrCreateRoom (E : Env) (cfg : CONFIG.t) (rooms : t) (rid : RoomId)
    (e : Eff) : t * Room.t * Eff :=
  match rooms_get rooms rid with
  | Some room => (rooms, room, e)
  | None =>
      let (room, e) := Room.new E cfg rid e in
      (rooms_set rooms rid room, room, e)
  end.

Definition findAvailableRoom (E : Env) (cfg : CONFIG.t) (rooms : t) (e : Eff)
    : t * Room.t * Eff :=
  match find (fun kv => negb (Room.isFull (snd kv))) rooms with
  | Some kv => (rooms, snd kv, e)
  | None =>
      let newId := room_ (length rooms + 1) in
      getOrCreateRoom E cfg rooms newId e
  end.

(** How a run of the handler ends: it returns, or an exception leaves it. *)
Inductive Outcome :=
| Returned (rooms : t) (data : SocketData) (e : Eff)
| Thrown.

Definition message (E : Env) (cfg : CONFIG.t) (rooms : t) (ws : nat)
    (data : SocketData) (e : Eff) (message : list Byte.byte) (isBinary : bool)
    : Outcome :=
  if negb isBinary then Returned rooms data e else
  let arrayBuffer := message in
  match Protocol.getMessageType arrayBuffer with
  | None => Returned rooms data e
  | Some messageType =>
      if (messageType =? ClientMessageType.JOIN)%Z then
        let request := Protocol.decodeJoinRequest arrayBuffer in
        let '(rooms, room, e) := findAvailableRoom E cfg rooms e in
        let '(room, player, data, e) := Room.addPlayer E room request ws data e in
        let rooms := rooms_set rooms (Room.id room) room in
        match player with
        | Some player =>
            let welcome :=
              WELCOME (Player.id player) (CONFIG.TICK_RATE cfg) (CONFIG.MAP_SEED cfg) in
            Returned rooms data (emit (Send ws welcome) e)
        | None => Returned rooms data (emit (Close ws) e)
        end
      else if (messageType =? ClientMessageType.INPUT)%Z then
        if (playerId data =? 0)%Z then Returned rooms data e else
        match roomId data with
        | None => Returned rooms data e
        | Some rid =>
            match Protocol.decodeInput E arrayBuffer with
            | Protocol.RangeError => Thrown
            | Protocol.Ok input =>
                match rooms_get rooms rid with
                | Some room =>
                    Returned (rooms_set rooms rid (Room.processInput room (playerId data) input))
                             data e
                | None => Returned rooms data e
                end
            end
        end
      else if (messageType =? ClientMessageType.PING)%Z then
        Returned rooms data (emit (Send ws (ECHO message)) e)
      else Returned rooms data e
  end.

End Server.

(** * Properties *)

(** ** Comparisons *)

Lemma Rltb_true (a b : R) : (a <? b) = true <-> a < b.
Proof. unfold Rltb. destruct (Rlt_dec a b); split; intros; try discriminate; tauto. Qed.

Lemma Rltb_false (a b : R) : (a <? b) = false <-> b <= a.
Proof.
  unfold Rltb. destruct (Rlt_dec a b); split; intros; try discriminate; try lra;
    reflexivity.
Qed.

Lemma Rleb_true (a b : R) : (a <=? b) = true <-> a <= b.
Proof. unfold Rleb. destruct (Rle_dec a b); split; intros; try discriminate; tauto. Qed.

Lemma Rleb_false (a b : R) : (a <=? b) = false <-> b < a.
Proof.
  unfold Rleb. destruct (Rle_dec a b); split; intros; try discriminate; try lra;
    reflexivity.
Qed.

(** Settle the comparisons of a goal whose operands are known. *)
Ltac Rcompare :=
  repeat match goal with
  | |- context [Rltb ?a ?b] =>
      first [ replace (Rltb a b) with true by (symmetry; apply Rltb_true; lra)
            | replace (Rltb a b) with false by (symmetry; apply Rltb_false; lra) ]
  | |- context [Rleb ?a ?b] =>
      first [ replace (Rleb a b) with true by (symmetry; apply Rleb_true; lra)
            | replace (Rleb a b) with false by (symmetry; apply Rleb_false; lra) ]
  end.

(** ** The player map *)

Section PlayerMap.
Import Room.

Lemma get_id (ps : list Player.t) (pid : Z) (p : Player.t) :
  get ps pid = Some p -> Player.id p = pid.
Proof.
  unfold get. intros H. apply find_some in H. destruct H as [_ H].
  now apply Z.eqb_eq.
Qed.

Lemma get_In (ps : list Player.t) (pid : Z) (p : Player.t) :
  get ps pid = Some p -> In p ps.
Proof. unfold get. intros H. now apply find_some in H. Qed.

Lemma put_same (ps : list Player.t) (pid : Z) (p : Player.t) :
  get ps pid = Some p -> put ps p = ps.
Proof.
  intros H. pose proof (get_id _ _ _ H) as Hid. subst pid.
  induction ps as [|q tl IH]; simpl in *; [reflexivity|].
  destruct (Player.id q =? Player.id p)%Z eqn:Hq.
  - now inversion H.
  - f_equal. now apply IH.
Qed.

Lemma map_id_put (ps : list Player.t) (p : Player.t) :
  map Player.id (put ps p) = map Player.id ps.
Proof.
  induction ps as [|q tl IH]; simpl; [reflexivity|].
  destruct (Player.id q =? Player.id p)%Z eqn:Hq; simpl.
  - apply Z.eqb_eq in Hq. now rewrite Hq.
  - now rewrite IH.
Qed.

Lemma get_put_eq (ps : list Player.t) (p q : Player.t) :
  get ps (Player.id p) = Some q -> get (put ps p) (Player.id p) = Some p.
Proof.
  unfold get. induction ps as [|a tl IH]; simpl; [discriminate|].
  destruct (Player.id a =? Player.id p)%Z eqn:Ha; simpl.
  - now rewrite Z.eqb_refl.
  - rewrite Ha. exact IH.
Qed.

Lemma get_put_neq (ps : list Player.t) (p : Player.t) (pid : Z) :
  pid <> Player.id p -> get (put ps p) pid = get ps pid.
Proof.
  unfold get. intros Hne. induction ps as [|a tl IH]; simpl; [reflexivity|].
  destruct (Player.id a =? Player.id p)%Z eqn:Ha; simpl.
  - apply Z.eqb_eq in Ha.
    replace (Player.id p =? pid)%Z with false by (symmetry; apply Z.eqb_neq; congruence).
    replace (Player.id a =? pid)%Z with false by (symmetry; apply Z.eqb_neq; congruence).
    reflexivity.
  - destruct (Player.id a =? pid)%Z; [reflexivity | exact IH].
Qed.

Lemma set_players_same (r : t) : set_players r (players r) = r.
Proof. now destruct r. Qed.

Lemma get_None_put (ps : list Player.t) (p : Player.t) :
  get ps (Player.id p) = None -> put ps p = ps.
Proof.
  unfold get. induction ps as [|a tl IH]; simpl; [reflexivity|].
  destruct (Player.id a =? Player.id p)%Z; [discriminate|].
  intros H. f_equal. now apply IH.
Qed.

End PlayerMap.

(** ** Dead players *)

Lemma processInput_dead (p : Player.t) (input : InputData.t) (dt : R)
    (obstacles : list Obstacle.t) :
  Player.isDead p = true -> Player.processInput p input dt obstacles = p.
Proof. intros H. unfold Player.processInput. now rewrite H. Qed.

Lemma canShoot_dead (p : Player.t) (now : R) :
  Player.isDead p = true -> Player.canShoot p now = (false, p).
Proof. intros H. unfold Player.canShoot. now rewrite H. Qed.

(** A shot the gate refuses leaves the room as it was; one clock reading
    is consumed. *)
Lemma handleShoot_refused (E : Env) (r : Room.t) (e : Eff) (pid : Z) (p : Player.t)
    (shootTime : R) :
  Room.get (Room.players r) pid = Some p ->
  Player.canShoot p (now_at E (clk e)) = (false, p) ->
  Room.handleShoot E r e pid shootTime
  = (r, mkEff (S (clk e)) (rng e) (out e) (calls e)).
Proof.
  intros Hget Hcs. unfold Room.handleShoot. rewrite Hget.
  unfold dateNow. rewrite Hcs. simpl.
  rewrite (put_same _ _ _ Hget), set_players_same. reflexivity.
Qed.

Lemma applyInput_dead (E : Env) (dt : R) (pid : Z) (r : Room.t) (e : Eff)
    (p : Player.t) (input : InputData.t) :
  Room.get (Room.players r) pid = Some p ->
  Player.isDead p = true ->
  exists k, Room.applyInput E dt pid (r, e) input
            = (r, mkEff (clk e + k) (rng e) (out e) (calls e)).
Proof.
  intros Hget Hdead. unfold Room.applyInput. rewrite Hget.
  rewrite (processInput_dead _ _ _ _ Hdead).
  rewrite (put_same _ _ _ Hget), set_players_same.
  destruct (InputData.shoot input).
  - unfold dateNow at 1.
    rewrite (handleShoot_refused E r _ pid p); [| exact Hget | now apply canShoot_dead].
    simpl. exists 2%nat. do 2 f_equal. lia.
  - exists 0%nat. destruct e; simpl. do 2 f_equal. lia.
Qed.

Lemma drain_dead (E : Env) (dt : R) (pid : Z) (r : Room.t) (p : Player.t)
    (inputs : list InputData.t) :
  Room.get (Room.players r) pid = Some p ->
  Player.isDead p = true ->
  forall e, exists k,
    fold_left (Room.applyInput E dt pid) inputs (r, e)
    = (r, mkEff (clk e + k) (rng e) (out e) (calls e)).
Proof.
  intros Hget Hdead. induction inputs as [|i tl IH]; intros e; cbn [fold_left].
  - exists 0%nat. destruct e; simpl. do 2 f_equal. lia.
  - destruct (applyInput_dead E dt pid r e p i Hget Hdead) as [k1 ->].
    destruct (IH (mkEff (clk e + k1) (rng e) (out e) (calls e))) as [k2 ->].
    simpl. exists (k1 + k2)%nat. do 2 f_equal. lia.
Qed.

(** C9. For a dead player [processInput] returns at once and the player is
    unchanged, whatever the input; and draining any queue of inputs for a
    dead player leaves the whole room unchanged (every field of every
    player, the hit buffer), sends nothing and notifies nothing: only
    clock readings are consumed. *)
Theorem dead_player_inputs_have_no_effect :
  forall (E : Env) (dt : R) (r : Room.t) (e : Eff) (pid : Z) (p : Player.t)
         (inputs : list InputData.t),
    Room.get (Room.players r) pid = Some p ->
    Player.isDead p = true ->
    (forall input, Player.processInput p input dt (Room.obstacles r) = p) /\
    fst (fold_left (Room.applyInput E dt pid) inputs (r, e)) = r /\
    rng (snd (fold_left (Room.applyInput E dt pid) inputs (r, e))) = rng e /\
    out (snd (fold_left (Room.applyInput E dt pid) inputs (r, e))) = out e /\
    calls (snd (fold_left (Room.applyInput E dt pid) inputs (r, e))) = calls e.
Proof.
  intros E dt r e pid p inputs Hget Hdead. split.
  - intros input. now apply processInput_dead.
  - destruct (drain_dead E dt pid r p inputs Hget Hdead e) as [k ->].
    simpl. repeat split.
Qed.

(** ** Damage, death and the notifications of the game mode *)

(** How many [onPlayerKill] (resp. [onPlayerDeath]) calls in [cs] name [v]
    as the victim. *)
Definition killsOf (v : Z) (cs : list ModeCall) : nat :=
  length (filter (fun c => match c with
                           | OnPlayerKill _ w _ => (w =? v)%Z
                           | _ => false
                           end) cs).
Definition deathsOf (v : Z) (cs : list ModeCall) : nat :=
  length (filter (fun c => match c with
                           | OnPlayerDeath w _ => (w =? v)%Z
                           | _ => false
                           end) cs).

Definition health_ok (p : Player.t) : Prop :=
  (0 <= Player.health p <= GAME_CONSTANTS.MAX_HEALTH)%Z.

(** What a stretch of the simulation that made the calls [new] may have
    done to the player of id [v]. *)
Record accounted (v : Z) (new : list ModeCall) (p p' : Player.t) : Prop := {
  acc_id : Player.id p' = Player.id p;
  acc_deaths : Player.deaths p' = (Player.deaths p + Z.of_nat (killsOf v new))%Z;
  acc_notify : deathsOf v new = killsOf v new;
  acc_once : (killsOf v new <= 1)%nat;
  acc_dead : Player.isDead p = true ->
             killsOf v new = 0%nat /\ Player.isDead p' = true
             /\ Player.health p' = Player.health p;
  acc_killed : killsOf v new = 1%nat ->
               Player.isDead p = false /\ Player.isDead p' = true
               /\ Player.health p' = 0%Z;
  acc_spared : killsOf v new = 0%nat -> Player.isDead p' = Player.isDead p;
  acc_health : health_ok p -> health_ok p'
}.

Lemma killsOf_app (v : Z) (a b : list ModeCall) :
  killsOf v (a ++ b) = (killsOf v a + killsOf v b)%nat.
Proof. unfold killsOf. now rewrite filter_app, length_app. Qed.

Lemma deathsOf_app (v : Z) (a b : list ModeCall) :
  deathsOf v (a ++ b) = (deathsOf v a + deathsOf v b)%nat.
Proof. unfold deathsOf. now rewrite filter_app, length_app. Qed.

Lemma accounted_refl (v : Z) (p : Player.t) : accounted v [] p p.
Proof.
  constructor; unfold killsOf, deathsOf; simpl; try tauto; try lia; try discriminate.
Qed.

Lemma accounted_trans (v : Z) (n1 n2 : list ModeCall) (p p' p'' : Player.t) :
  accounted v n1 p p' -> accounted v n2 p' p'' -> accounted v (n1 ++ n2) p p''.
Proof.
  intros A B.
  assert (Hcases : killsOf v n1 = 1%nat -> killsOf v n2 = 0%nat).
  { intros H1. apply (acc_killed _ _ _ _ A) in H1. destruct H1 as (_ & Hd & _).
    now apply (acc_dead _ _ _ _ B) in Hd. }
  pose proof (acc_once _ _ _ _ A) as O1. pose proof (acc_once _ _ _ _ B) as O2.
  constructor; rewrite ?killsOf_app, ?deathsOf_app.
  - rewrite (acc_id _ _ _ _ B). apply (acc_id _ _ _ _ A).
  - rewrite (acc_deaths _ _ _ _ B), (acc_deaths _ _ _ _ A). lia.
  - rewrite (acc_notify _ _ _ _ A), (acc_notify _ _ _ _ B). reflexivity.
  - destruct (killsOf v n1) as [|[|k]]; [lia | rewrite Hcases by reflexivity; lia | lia].
  - intros Hd. destruct (acc_dead _ _ _ _ A Hd) as (K1 & Hd' & Hh).
    destruct (acc_dead _ _ _ _ B Hd') as (K2 & Hd'' & Hh').
    repeat split; [lia | exact Hd'' | congruence].
  - intros HK. destruct (killsOf v n1) as [|[|k]] eqn:K1.
    + simpl in HK. destruct (acc_killed _ _ _ _ B HK) as (Ha & Hb & Hc).
      rewrite (acc_spared _ _ _ _ A K1) in Ha. tauto.
    + rewrite Hcases in HK by reflexivity.
      destruct (acc_killed _ _ _ _ A K1) as (Ha & Hb & Hc).
      destruct (acc_dead _ _ _ _ B Hb) as (_ & Hd & Hh).
      repeat split; [exact Ha | exact Hd | congruence].
    + lia.
  - intros HK. assert (K1 : killsOf v n1 = 0%nat) by lia.
    assert (K2 : killsOf v n2 = 0%nat) by lia.
    rewrite (acc_spared _ _ _ _ B K2). apply (acc_spared _ _ _ _ A K1).
  - intros H. apply (acc_health _ _ _ _ B), (acc_health _ _ _ _ A), H.
Qed.

(** [takeDamage], case by case. *)
Lemma takeDamage_dead (p : Player.t) (damage attacker : Z) :
  Player.isDead p = true -> Player.takeDamage p damage attacker = (false, p).
Proof. intros H. unfold Player.takeDamage. now rewrite H. Qed.

Lemma takeDamage_alive (p : Player.t) (damage attacker : Z) :
  Player.isDead p = false ->
  let killed := (Player.health p - damage <=? 0)%Z in
  Player.takeDamage p damage attacker
  = (killed,
     Player.set_combat p (Z.max 0 (Player.health p - damage)) killed
       (Player.deaths p + (if killed then 1 else 0))%Z).
Proof.
  intros H. unfold Player.takeDamage. rewrite H. simpl.
  destruct (Player.health p - damage <=? 0)%Z eqn:Hk.
  - apply Z.leb_le in Hk. now rewrite Z.max_l by lia.
  - apply Z.leb_gt in Hk. rewrite Z.max_r by lia. rewrite Z.add_0_r. reflexivity.
Qed.

Lemma takeDamage_accounted (p : Player.t) (damage attacker killer : Z) (hs : bool) :
  (0 <= damage)%Z ->
  let (killed, p') := Player.takeDamage p damage attacker in
  accounted (Player.id p)
    (if killed then [OnPlayerKill killer (Player.id p) hs;
                     OnPlayerDeath (Player.id p) killer] else [])
    p p'.
Proof.
  intros Hd. destruct (Player.isDead p) eqn:Hdead.
  - rewrite takeDamage_dead by assumption. apply accounted_refl.
  - rewrite takeDamage_alive by assumption.
    destruct (Player.health p - damage <=? 0)%Z eqn:Hk.
    + apply Z.leb_le in Hk.
      constructor; unfold killsOf, deathsOf, health_ok, GAME_CONSTANTS.MAX_HEALTH;
        simpl; rewrite ?Z.eqb_refl; simpl;
        try reflexivity; try lia; try congruence.
      intros _. rewrite Z.max_l by lia. tauto.
    + apply Z.leb_gt in Hk.
      constructor; unfold killsOf, deathsOf, health_ok, GAME_CONSTANTS.MAX_HEALTH;
        simpl; try reflexivity; try lia; try congruence.
Qed.
Section Accounting.
Import Room.
Variable E : Env.

Lemma get_put (ps : list Player.t) (q : Player.t) (v : Z) :
  get (put ps q) v
  = match get ps (Player.id q) with
    | Some _ => if (v =? Player.id q)%Z then Some q else get ps v
    | None => get ps v
    end.
Proof.
  destruct (get ps (Player.id q)) as [q0|] eqn:Hq.
  - destruct (v =? Player.id q)%Z eqn:Hv.
    + apply Z.eqb_eq in Hv. subst v. eapply get_put_eq; eauto.
    + apply Z.eqb_neq in Hv. now apply get_put_neq.
  - now rewrite get_None_put.
Qed.

(** Same identity and combat fields. *)
Definition same_combat (p p' : Player.t) : Prop :=
  Player.id p' = Player.id p /\ Player.deaths p' = Player.deaths p /\
  Player.isDead p' = Player.isDead p /\ Player.health p' = Player.health p.

Lemma accounted_frame (v : Z) (new : list ModeCall) (p p' : Player.t) :
  killsOf v new = 0%nat -> deathsOf v new = 0%nat -> same_combat p p' ->
  accounted v new p p'.
Proof.
  intros K D (Hi & Hd & Hx & Hh).
  constructor; rewrite ?K, ?D; unfold health_ok; rewrite ?Hi, ?Hd, ?Hx, ?Hh;
    try tauto; try lia; try discriminate.
Qed.

Lemma accounted_post (v : Z) (new : list ModeCall) (p p' p'' : Player.t) :
  accounted v new p p' -> same_combat p' p'' -> accounted v new p p''.
Proof.
  intros A S. rewrite <- (app_nil_r new). eapply accounted_trans; [exact A|].
  now apply accounted_frame.
Qed.

(** The players before and after a stretch of the simulation, and the
    calls it added to the log. *)
Definition accounting (ps ps' : list Player.t) (cs cs' : list ModeCall) : Prop :=
  exists new, cs' = cs ++ new /\
    forall v p, get ps v = Some p ->
      exists p', get ps' v = Some p' /\ accounted v new p p'.

Lemma accounting_refl (ps : list Player.t) (cs : list ModeCall) : accounting ps ps cs cs.
Proof.
  exists []. split; [now rewrite app_nil_r|].
  intros v p H. exists p. split; [exact H | apply accounted_refl].
Qed.

Lemma accounting_trans (ps ps' ps'' : list Player.t) (cs cs' cs'' : list ModeCall) :
  accounting ps ps' cs cs' -> accounting ps' ps'' cs' cs'' -> accounting ps ps'' cs cs''.
Proof.
  intros (n1 & -> & A) (n2 & -> & B). exists (n1 ++ n2). split; [now rewrite app_assoc|].
  intros v p H. destruct (A v p H) as (p' & H' & A'). destruct (B v p' H') as (p'' & H'' & B').
  exists p''. split; [exact H''|]. eapply accounted_trans; eauto.
Qed.

(** Replacing a player by one with the same combat fields. *)
Lemma accounting_put (ps : list Player.t) (cs : list ModeCall) (p p' : Player.t) :
  get ps (Player.id p) = Some p -> same_combat p p' ->
  accounting ps (put ps p') cs cs.
Proof.
  intros Hget S. exists []. split; [now rewrite app_nil_r|].
  intros v q Hv. rewrite get_put.
  assert (Hid : Player.id p' = Player.id p) by apply S.
  rewrite Hid, Hget.
  destruct (v =? Player.id p)%Z eqn:Hvp.
  - apply Z.eqb_eq in Hvp. subst v. exists p'. split; [reflexivity|].
    assert (q = p) by congruence. subst q. now apply accounted_frame.
  - exists q. split; [exact Hv | apply accounted_refl].
Qed.

Lemma WEAPONS_at_damage (i : Z) (w : Weapon.t) :
  GAME_CONSTANTS.WEAPONS_at i = Some w -> (0 < Weapon.damage w)%Z.
Proof.
  unfold GAME_CONSTANTS.WEAPONS_at. destruct (i <? 0)%Z; [discriminate|].
  destruct (Z.to_nat i) as [|[|[|[|n]]]]; simpl; intros H; inversion H; subst; simpl;
    try lia.
  destruct n; discriminate.
Qed.

Lemma applyDamage_accounting (r : t) (e : Eff) (s tg : Z) (sp : Player.t)
    (w : Weapon.t) (hs : bool) :
  (0 <= Weapon.damage w)%Z ->
  get (players r) s = Some sp ->
  accounting (players r) (players (fst (applyDamage E r e s tg w hs)))
             (calls e) (calls (snd (applyDamage E r e s tg w hs))).
Proof.
  intros Hw Hs. unfold applyDamage.
  destruct (get (players r) tg) as [tp|] eqn:Ht; [|apply accounting_refl].
  set (damage := if hs then (Weapon.damage w * 2)%Z else Weapon.damage w).
  assert (Hdmg : (0 <= damage)%Z) by (unfold damage; destruct hs; lia).
  pose proof (takeDamage_accounted tp damage s s hs Hdmg) as HA.
  pose proof (get_id _ _ _ Ht) as Hidt. pose proof (get_id _ _ _ Hs) as Hids.
  destruct (Player.takeDamage tp damage s) as [killed tp'] eqn:Htd.
  rewrite Hidt in HA.
  assert (Hidt' : Player.id tp' = tg) by (rewrite (acc_id _ _ _ _ HA); exact Hidt).
  destruct killed.
  - cbn [players set_players set_snapshotHits].
    rewrite get_put, Hidt', Ht.
    destruct (Z.eqb_spec s tg) as [Heq|Hne].
    + (* the shooter is the target: cannot happen, and is harmless *)
      clear Hids. subst s.
      unfold FreeForAllMode.onPlayerKill, FreeForAllMode.onPlayerDeath, dateNow.
      cbn [fst snd players set_players calls call clk rng out].
      exists [OnPlayerKill tg tg hs; OnPlayerDeath tg tg].
      rewrite Hidt'. split; [now rewrite <- app_assoc|].
      intros v q Hv. rewrite !get_put.
      cbn [Player.id Player.set_respawnTime Player.set_stats].
      rewrite Hidt', Ht. rewrite Z.eqb_refl.
      destruct (Z.eqb_spec v tg) as [Hvt|Hvt].
      * subst v. rewrite ?Z.eqb_refl, ?Hst, ?Hts, ?Hs, ?Ht. eexists. split; [reflexivity|].
        assert (q = tp) by congruence. subst q.
        eapply accounted_post; [exact HA|].
        unfold same_combat; simpl; tauto.
      * rewrite ?Z.eqb_refl. exists q. split; [exact Hv|].
        assert (Htv : (tg =? v)%Z = false) by (apply Z.eqb_neq; congruence).
        apply accounted_frame; unfold killsOf, deathsOf; simpl; rewrite ?Htv;
          try reflexivity.
        unfold same_combat; tauto.
    + rewrite Hs.
      unfold FreeForAllMode.onPlayerKill, FreeForAllMode.onPlayerDeath, dateNow.
      cbn [fst snd players set_players calls call clk rng out].
      exists [OnPlayerKill s tg hs; OnPlayerDeath tg s].
      rewrite Hidt', Hids. split; [now rewrite <- app_assoc|].
      intros v q Hv. rewrite !get_put.
      cbn [Player.id Player.set_respawnTime Player.set_stats].
      rewrite ?Hidt', ?Hids, ?Ht.
      assert (Hst : (s =? tg)%Z = false) by (apply Z.eqb_neq; congruence).
      assert (Hts : (tg =? s)%Z = false) by (apply Z.eqb_neq; congruence).
      rewrite ?Hst, ?Hts, ?Hs, ?Ht.
      destruct (Z.eqb_spec v tg) as [Hvt|Hvt].
      * subst v. rewrite ?Z.eqb_refl, ?Hst, ?Hts, ?Hs, ?Ht. eexists. split; [reflexivity|].
        assert (q = tp) by congruence. subst q.
        eapply accounted_post; [exact HA|].
        unfold same_combat; simpl; tauto.
      * assert (Htv : (tg =? v)%Z = false) by (apply Z.eqb_neq; congruence).
        destruct (Z.eqb_spec v s) as [Hvs|Hvs].
        -- subst v. rewrite ?Z.eqb_refl, ?Hst, ?Hts, ?Hs, ?Ht. eexists. split; [reflexivity|].
           assert (q = sp) by congruence. subst q.
           apply accounted_frame; unfold killsOf, deathsOf; simpl; rewrite ?Htv;
             try reflexivity.
           unfold same_combat; simpl; tauto.
        -- rewrite ?Z.eqb_refl. exists q. split; [exact Hv|].
           apply accounted_frame; unfold killsOf, deathsOf; simpl; rewrite ?Htv;
             try reflexivity.
           unfold same_combat; tauto.
  - cbn [fst snd players set_players set_snapshotHits calls].
    exists []. split; [now rewrite app_nil_r|].
    intros v q Hv. rewrite get_put, Hidt', Ht.
    destruct (v =? tg)%Z eqn:Hvt.
    + apply Z.eqb_eq in Hvt. subst v. eexists. split; [reflexivity|].
      assert (q = tp) by congruence. subst q. exact HA.
    + exists q. split; [exact Hv | apply accounted_refl].
Qed.

Lemma applySpread_calls (w : Weapon.t) (d : Vec3.t) (e : Eff) :
  calls (snd (applySpread E w d e)) = calls e /\
  out (snd (applySpread E w d e)) = out e /\
  clk (snd (applySpread E w d e)) = clk e.
Proof.
  unfold applySpread. destruct (Weapon.spread w >? 0); simpl; auto.
Qed.

Lemma fireBullet_accounting (r : t) (e : Eff) (s : Z) (w : Weapon.t) (rewindTime : R) :
  (0 <= Weapon.damage w)%Z ->
  accounting (players r) (players (fst (fireBullet E r e s w rewindTime)))
             (calls e) (calls (snd (fireBullet E r e s w rewindTime))).
Proof.
  intros Hw. unfold fireBullet.
  destruct (get (players r) s) as [sp|] eqn:Hs; [|apply accounting_refl].
  destruct (applySpread_calls w (Player.getLookDirection sp) e) as (Hc & _ & _).
  destruct (applySpread E w (Player.getLookDirection sp) e) as [direction e1].
  simpl in Hc. rewrite <- Hc.
  destruct (nearestTarget (players r) sp (Player.getEyePosition sp) direction w rewindTime)
    as [[hitPlayer hitDistance] isHeadshot].
  destruct (Physics.hit _ && _); [apply accounting_refl|].
  destruct hitPlayer as [tg|]; [|apply accounting_refl].
  now apply applyDamage_accounting with (sp := sp).
Qed.

Lemma bullets_accounting (n : nat) (w : Weapon.t) (s : Z) (rewindTime : R) :
  (0 <= Weapon.damage w)%Z ->
  forall (r : t) (e : Eff),
    accounting (players r) (players (fst (bullets E n r e s w rewindTime)))
               (calls e) (calls (snd (bullets E n r e s w rewindTime))).
Proof.
  intros Hw. induction n as [|n IH]; intros r e; cbn [bullets].
  - apply accounting_refl.
  - pose proof (fireBullet_accounting r e s w rewindTime Hw) as H1.
    destruct (fireBullet E r e s w rewindTime) as [r1 e1].
    eapply accounting_trans; [exact H1 | apply IH].
Qed.

Lemma canShoot_same_combat (p : Player.t) (now : R) :
  same_combat p (snd (Player.canShoot p now)).
Proof.
  unfold Player.canShoot, same_combat.
  destruct (Player.isDead p) eqn:Hd; [simpl; auto|].
  destruct (negb (Player.isShooting p)); [simpl; auto|].
  destruct (GAME_CONSTANTS.WEAPONS_at (Player.weapon p)); [|simpl; auto].
  destruct (_ >=? _); simpl; auto.
Qed.

Lemma handleShoot_accounting (r : t) (e : Eff) (s : Z) (shootTime : R) :
  accounting (players r) (players (fst (handleShoot E r e s shootTime)))
             (calls e) (calls (snd (handleShoot E r e s shootTime))).
Proof.
  unfold handleShoot.
  destruct (get (players r) s) as [sp|] eqn:Hs; [|apply accounting_refl].
  unfold dateNow.
  pose proof (canShoot_same_combat sp (now_at E (clk e))) as Hsc.
  destruct (Player.canShoot sp (now_at E (clk e))) as [ok sp'].
  simpl in Hsc.
  pose proof (get_id _ _ _ Hs) as Hid. rewrite <- Hid in Hs.
  pose proof (accounting_put (players r) (calls e) sp sp' Hs Hsc) as H0.
  destruct ok; cbn [negb].
  - destruct (GAME_CONSTANTS.WEAPONS_at (Player.weapon sp')) as [w|] eqn:Hw; [|exact H0].
    apply WEAPONS_at_damage in Hw.
    eapply accounting_trans; [exact H0|].
    match goal with |- context [bullets E ?n ?r0 ?e0 s w shootTime] =>
      apply (bullets_accounting n w s shootTime ltac:(lia) r0 e0) end.
  - exact H0.
Qed.

End Accounting.

(** C10. [takeDamage] on a dead player returns [false] and changes nothing.
    On a living player it subtracts the damage, clamps health at 0, reports
    a kill and sets [isDead] exactly when health reaches 0, and then adds
    one to [deaths]; with non-negative damage health stays within
    [[0, MAX_HEALTH]].  Over a whole [handleShoot] (all bullets of a shot),
    for every player of the room: the [deaths] counter grows by the number
    of [onPlayerKill] calls that name the player as victim, which is also
    the number of [onPlayerDeath] calls for it and is at most one (zero for
    a player that was already dead), and health stays within
    [[0, MAX_HEALTH]]. *)
Theorem health_and_death_accounting :
  forall (E : Env) (r : Room.t) (e : Eff) (shooterId : Z) (shootTime : R)
         (p : Player.t) (damage attackerId : Z),
    (Player.isDead p = true ->
     Player.takeDamage p damage attackerId = (false, p)) /\
    (Player.isDead p = false ->
     let killed := fst (Player.takeDamage p damage attackerId) in
     let p' := snd (Player.takeDamage p damage attackerId) in
     Player.health p' = Z.max 0 (Player.health p - damage) /\
     killed = (Player.health p - damage <=? 0)%Z /\
     Player.isDead p' = killed /\
     (Player.isDead p' = true <-> Player.health p' = 0%Z) /\
     Player.deaths p' = (Player.deaths p + (if killed then 1 else 0))%Z /\
     ((0 <= damage)%Z -> health_ok p -> health_ok p')) /\
    (exists new : list ModeCall,
       calls (snd (Room.handleShoot E r e shooterId shootTime)) = calls e ++ new /\
       forall (v : Z) (q : Player.t),
         Room.get (Room.players r) v = Some q ->
         exists q' : Player.t,
           Room.get (Room.players (fst (Room.handleShoot E r e shooterId shootTime))) v
           = Some q' /\
           Player.deaths q' = (Player.deaths q + Z.of_nat (killsOf v new))%Z /\
           deathsOf v new = killsOf v new /\
           (killsOf v new <= 1)%nat /\
           (Player.isDead q = true -> killsOf v new = 0%nat) /\
           (health_ok q -> health_ok q')).
Proof.
  intros E r e shooterId shootTime p damage attackerId. split; [|split].
  - apply takeDamage_dead.
  - intros Halive. rewrite (takeDamage_alive p damage attackerId Halive).
    cbn [fst snd Player.health Player.isDead Player.deaths Player.set_combat].
    unfold health_ok, GAME_CONSTANTS.MAX_HEALTH.
    cbn [Player.health Player.set_combat].
    destruct (Player.health p - damage <=? 0)%Z eqn:Hk;
      [apply Z.leb_le in Hk | apply Z.leb_gt in Hk];
      (split; [lia | split; [reflexivity | split; [reflexivity | split; [| split; [reflexivity | lia]]]]]).
    + split; intros; [lia | reflexivity].
    + split; intros; [discriminate | lia].
  - destruct (handleShoot_accounting E r e shooterId shootTime) as (new & Hc & Hall).
    exists new. split; [exact Hc|].
    intros v q Hq. destruct (Hall v q Hq) as (q' & Hq' & A).
    exists q'. split; [exact Hq'|].
    split; [apply (acc_deaths _ _ _ _ A)|].
    split; [apply (acc_notify _ _ _ _ A)|].
    split; [apply (acc_once _ _ _ _ A)|].
    split; [|apply (acc_health _ _ _ _ A)].
    intros Hd. now apply (acc_dead _ _ _ _ A) in Hd.
Qed.

(** ** The fire-rate gate *)

(** Every way the room and the game mode act on a player object. *)
Inductive PlayerOp :=
| OpProcessInput (input : InputData.t) (deltaTime : R) (obstacles : list Obstacle.t)
| OpCanShoot (currentTime : R)
| OpTakeDamage (damage attackerId : Z)
| OpSaveHistory (timestamp : R)
| OpSpawn (r1 r2 : R)
| OpRespawn (pos : Vec3.t)
| OpSetStats (score kills deaths : Z)
| OpSetRespawnTime (v : R)
| OpSetPendingInputs (v : list InputData.t).

(** One call, and the shot it let through if any: the server time of the
    shot and the weapon index it was fired with. *)
Definition perform (E : Env) (op : PlayerOp) (p : Player.t) : Player.t * list (R * Z) :=
  match op with
  | OpProcessInput input dt obstacles => (Player.processInput p input dt obstacles, [])
  | OpCanShoot currentTime =>
      let (ok, p') := Player.canShoot p currentTime in
      (p', if ok then [(currentTime, Player.weapon p)] else [])
  | OpTakeDamage damage attackerId => (snd (Player.takeDamage p damage attackerId), [])
  | OpSaveHistory timestamp => (Player.saveHistory E p timestamp, [])
  | OpSpawn r1 r2 => (Player.spawn p r1 r2, [])
  | OpRespawn pos => (Player.set_respawned p pos, [])
  | OpSetStats score kills deaths => (Player.set_stats p score kills deaths, [])
  | OpSetRespawnTime v => (Player.set_respawnTime p v, [])
  | OpSetPendingInputs v => (Player.set_pendingInputs p v, [])
  end.

Fixpoint run (E : Env) (ops : list PlayerOp) (p : Player.t) : Player.t * list (R * Z) :=
  match ops with
  | [] => (p, [])
  | op :: tl =>
      let (p', shots) := perform E op p in
      let (p'', shots') := run E tl p' in
      (p'', shots ++ shots')
  end.

(** Each shot of the log comes at least the fire rate of its weapon after
    the one before it; [last] is the time of the shot before the log. *)
Fixpoint spaced (last : R) (shots : list (R * Z)) : Prop :=
  match shots with
  | [] => True
  | (t, w) :: tl =>
      (exists W, GAME_CONSTANTS.WEAPONS_at w = Some W /\ t - last >= Weapon.fireRate W)
      /\ spaced t tl
  end.

Lemma canShoot_true (p p' : Player.t) (now : R) :
  Player.canShoot p now = (true, p') ->
  (exists W, GAME_CONSTANTS.WEAPONS_at (Player.weapon p) = Some W
             /\ now - Player.lastShootTime p >= Weapon.fireRate W)
  /\ p' = Player.set_lastShootTime p now.
Proof.
  unfold Player.canShoot.
  destruct (Player.isDead p); [discriminate|].
  destruct (negb (Player.isShooting p)); [discriminate|].
  destruct (GAME_CONSTANTS.WEAPONS_at (Player.weapon p)) as [W|]; [|discriminate].
  destruct (now - Player.lastShootTime p >=? Weapon.fireRate W) eqn:Hc; [|discriminate].
  intros H. inversion H. split; [|reflexivity].
  exists W. split; [reflexivity|]. apply Rleb_true in Hc. lra.
Qed.

Lemma canShoot_false (p p' : Player.t) (now : R) :
  Player.canShoot p now = (false, p') -> p' = p.
Proof.
  unfold Player.canShoot.
  destruct (Player.isDead p); [congruence|].
  destruct (negb (Player.isShooting p)); [congruence|].
  destruct (GAME_CONSTANTS.WEAPONS_at (Player.weapon p)) as [W|]; [|congruence].
  destruct (now - Player.lastShootTime p >=? Weapon.fireRate W); congruence.
Qed.

Lemma canShoot_too_early (p : Player.t) (W : Weapon.t) (now : R) :
  GAME_CONSTANTS.WEAPONS_at (Player.weapon p) = Some W ->
  now - Player.lastShootTime p < Weapon.fireRate W ->
  Player.canShoot p now = (false, p).
Proof.
  intros HW Hlt. unfold Player.canShoot. rewrite HW.
  destruct (Player.isDead p); [reflexivity|].
  destruct (negb (Player.isShooting p)); [reflexivity|].
  replace (now - Player.lastShootTime p >=? Weapon.fireRate W) with false; [reflexivity|].
  symmetry. apply Rleb_false. exact Hlt.
Qed.

Lemma perform_spaced (E : Env) (op : PlayerOp) (p : Player.t) :
  (snd (perform E op p) = []
   /\ Player.lastShootTime (fst (perform E op p)) = Player.lastShootTime p)
  \/ (exists t W, snd (perform E op p) = [(t, Player.weapon p)]
        /\ GAME_CONSTANTS.WEAPONS_at (Player.weapon p) = Some W
        /\ t - Player.lastShootTime p >= Weapon.fireRate W
        /\ Player.lastShootTime (fst (perform E op p)) = t).
Proof.
  destruct op; cbn [perform fst snd]; try (left; split; reflexivity).
  - left. split; [reflexivity|]. unfold Player.processInput.
    destruct (Player.isDead p); reflexivity.
  - destruct (Player.canShoot p currentTime) as [[|] p'] eqn:Hc; cbn [fst snd].
    + apply canShoot_true in Hc. destruct Hc as ((W & HW & Hge) & ->).
      right. exists currentTime, W. repeat split; assumption.
    + apply canShoot_false in Hc. subst p'. left. split; reflexivity.
  - left. split; [reflexivity|]. unfold Player.takeDamage.
    destruct (Player.isDead p); [reflexivity|].
    destruct (_ <=? _)%Z; reflexivity.
Qed.

Lemma run_spaced (E : Env) (ops : list PlayerOp) :
  forall p, spaced (Player.lastShootTime p) (snd (run E ops p)).
Proof.
  induction ops as [|op tl IH]; intros p; cbn [run].
  - exact I.
  - pose proof (perform_spaced E op p) as Hp.
    destruct (perform E op p) as [p' shots]. cbn [fst snd] in Hp.
    specialize (IH p'). destruct (run E tl p') as [p'' shots']. cbn [fst snd] in *.
    destruct Hp as [(-> & Hl) | (t & W & -> & HW & Hge & Hl)].
    + rewrite Hl in IH. exact IH.
    + cbn [app spaced]. split; [exists W; split; assumption|].
      rewrite Hl in IH. exact IH.
Qed.

(** C6. In any sequence of calls on a player, each shot that passes the
    gate comes at least [fireRate] of the weapon it is fired with after the
    previous shot that passed (server clock readings); and a shot whose
    clock reading is less than [fireRate] after [lastShootTime] is dropped:
    [handleShoot] returns with the room as it was, [lastShootTime]
    included, having only read the clock. *)
Theorem fire_rate_gate :
  forall (E : Env) (ops : list PlayerOp) (p : Player.t)
         (r : Room.t) (e : Eff) (pid : Z) (q : Player.t) (W : Weapon.t) (shootTime : R),
    spaced (Player.lastShootTime p) (snd (run E ops p)) /\
    (Room.get (Room.players r) pid = Some q ->
     GAME_CONSTANTS.WEAPONS_at (Player.weapon q) = Some W ->
     now_at E (clk e) - Player.lastShootTime q < Weapon.fireRate W ->
     Player.canShoot q (now_at E (clk e)) = (false, q) /\
     Room.handleShoot E r e pid shootTime
     = (r, mkEff (S (clk e)) (rng e) (out e) (calls e))).
Proof.
  intros E ops p r e pid q W shootTime. split.
  - apply run_spaced.
  - intros Hget HW Hlt.
    pose proof (canShoot_too_early q W _ HW Hlt) as Hc.
    split; [exact Hc|]. now apply handleShoot_refused with (p := q).
Qed.

(** ** Line of sight *)

(** C5. For one bullet: when the march along the ray, run up to the
    distance [d_p] of the nearest candidate player hit, reports a hit at a
    distance [d_o < d_p], the bullet changes no player, appends no
    [HitEvent] and notifies nothing; the room is returned as it was. *)
Theorem obstacle_blocks_bullet :
  forall (E : Env) (r : Room.t) (e : Eff) (shooterId : Z) (shooter : Player.t)
         (weapon : Weapon.t) (rewindTime : R),
    Room.get (Room.players r) shooterId = Some shooter ->
    let origin := Player.getEyePosition shooter in
    let direction :=
      fst (Room.applySpread E weapon (Player.getLookDirection shooter) e) in
    let nearest :=
      Room.nearestTarget (Room.players r) shooter origin direction weapon rewindTime in
    let d_p := snd (fst nearest) in
    let obstacleHit := Physics.raycast origin direction d_p (Room.obstacles r) in
    Physics.hit obstacleHit = true ->
    Physics.distance obstacleHit < d_p ->
    fst (Room.fireBullet E r e shooterId weapon rewindTime) = r /\
    Room.snapshotHits (fst (Room.fireBullet E r e shooterId weapon rewindTime))
    = Room.snapshotHits r /\
    Room.players (fst (Room.fireBullet E r e shooterId weapon rewindTime))
    = Room.players r /\
    calls (snd (Room.fireBullet E r e shooterId weapon rewindTime)) = calls e /\
    out (snd (Room.fireBullet E r e shooterId weapon rewindTime)) = out e.
Proof.
  intros E r e shooterId shooter weapon rewindTime Hget origin direction nearest d_p
         obstacleHit Hhit Hlt.
  assert (Hr : fst (Room.fireBullet E r e shooterId weapon rewindTime) = r
               /\ snd (Room.fireBullet E r e shooterId weapon rewindTime)
                  = snd (Room.applySpread E weapon (Player.getLookDirection shooter) e)).
  { unfold Room.fireBullet. rewrite Hget.
    subst obstacleHit d_p nearest direction origin.
    destruct (Room.applySpread E weapon (Player.getLookDirection shooter) e)
      as [dir e1]. cbn [fst snd] in *.
    destruct (Room.nearestTarget (Room.players r) shooter
                (Player.getEyePosition shooter) dir weapon rewindTime)
      as [[hitPlayer hitDistance] isHeadshot]. cbn [fst snd] in *.
    rewrite Hhit. apply Rltb_true in Hlt. rewrite Hlt. cbn [andb]. split; reflexivity. }
  destruct Hr as [Hr He]. rewrite Hr, He.
  destruct (applySpread_calls E weapon (Player.getLookDirection shooter) e)
    as (Hc & Ho & _).
  repeat split; assumption.
Qed.

(** ** Ray against sphere *)

(** The point of the ray at parameter [t], and membership of the sphere's
    surface. *)
Definition pointAt (origin direction : Vec3.t) (t : R) : Vec3.t :=
  Vec3.mk (Vec3.x origin + t * Vec3.x direction)
          (Vec3.y origin + t * Vec3.y direction)
          (Vec3.z origin + t * Vec3.z direction).

Definition onSphere (center : Vec3.t) (radius : R) (p : Vec3.t) : Prop :=
  (Vec3.x p - Vec3.x center) * (Vec3.x p - Vec3.x center)
  + (Vec3.y p - Vec3.y center) * (Vec3.y p - Vec3.y center)
  + (Vec3.z p - Vec3.z center) * (Vec3.z p - Vec3.z center)
  = radius * radius.

Definition norm2 (v : Vec3.t) : R :=
  Vec3.x v * Vec3.x v + Vec3.y v * Vec3.y v + Vec3.z v * Vec3.z v.

(** [t] is the parameter at which the ray first meets the sphere's
    surface (the smaller root of the quadratic). *)
Definition firstCrossing (origin direction center : Vec3.t) (radius t : R) : Prop :=
  onSphere center radius (pointAt origin direction t) /\
  forall t', onSphere center radius (pointAt origin direction t') -> t <= t'.

Section Quadratic.
Variables a b c : R.
Hypothesis a_pos : 0 < a.

Lemma root_square (t : R) :
  a * t * t + b * t + c = 0 <-> (2 * a * t + b) * (2 * a * t + b) = b * b - 4 * a * c.
Proof. split; intros H; nra. Qed.

Lemma near_root_is_root :
  0 <= b * b - 4 * a * c ->
  let t := (- b - sqrt (b * b - 4 * a * c)) / (2 * a) in
  a * t * t + b * t + c = 0.
Proof.
  intros Hd t. apply root_square.
  assert (Ht : 2 * a * t + b = - sqrt (b * b - 4 * a * c)).
  { unfold t. field. lra. }
  rewrite Ht. pose proof (sqrt_sqrt _ Hd). nra.
Qed.

Lemma near_root_least (t' : R) :
  a * t' * t' + b * t' + c = 0 ->
  0 <= b * b - 4 * a * c /\
  (- b - sqrt (b * b - 4 * a * c)) / (2 * a) <= t'.
Proof.
  intros H. apply root_square in H.
  assert (Hd : 0 <= b * b - 4 * a * c).
  { rewrite <- H. apply Rle_0_sqr. }
  split; [exact Hd|].
  pose proof (sqrt_sqrt _ Hd) as Hs. pose proof (sqrt_pos (b * b - 4 * a * c)) as Hp.
  set (s := sqrt (b * b - 4 * a * c)) in *.
  assert (Hge : - s <= 2 * a * t' + b).
  { destruct (Rle_dec (- s) (2 * a * t' + b)) as [Hle|Hgt]; [exact Hle|].
    exfalso.
    assert (H1 : 0 < - (2 * a * t' + b) - s) by lra.
    assert (H2 : 0 < - (2 * a * t' + b) + s) by lra.
    pose proof (Rmult_lt_0_compat _ _ H1 H2). nra. }
  apply Rmult_le_reg_l with (r := 2 * a); [lra|].
  replace (2 * a * ((- b - s) / (2 * a))) with (- b - s) by (field; lra).
  lra.
Qed.
End Quadratic.

Section RaySphere.
Variables origin direction center : Vec3.t.
Variable radius : R.

Let dx := Vec3.x origin - Vec3.x center.
Let dy := Vec3.y origin - Vec3.y center.
Let dz := Vec3.z origin - Vec3.z center.
Let a := norm2 direction.
Let b := 2 * (dx * Vec3.x direction + dy * Vec3.y direction + dz * Vec3.z direction).
Let c := dx * dx + dy * dy + dz * dz - radius * radius.

Lemma onSphere_quadratic (t : R) :
  onSphere center radius (pointAt origin direction t) <-> a * t * t + b * t + c = 0.
Proof.
  unfold onSphere, pointAt, a, b, c, dx, dy, dz, norm2. cbn [Vec3.x Vec3.y Vec3.z].
  split; intros H; nra.
Qed.

Lemma raySphereIntersect_unfold (maxDistance : R) :
  Room.raySphereIntersect origin direction center radius maxDistance
  = if b * b - 4 * a * c <? 0 then Miss
    else if ((- b - sqrt (b * b - 4 * a * c)) / (2 * a) >? 0)
            && ((- b - sqrt (b * b - 4 * a * c)) / (2 * a) <? maxDistance)
         then Hit ((- b - sqrt (b * b - 4 * a * c)) / (2 * a))
         else Miss.
Proof. reflexivity. Qed.

Lemma firstCrossing_near_root (t : R) :
  0 < a ->
  firstCrossing origin direction center radius t <->
  0 <= b * b - 4 * a * c /\ t = (- b - sqrt (b * b - 4 * a * c)) / (2 * a).
Proof.
  intros Ha. unfold firstCrossing. split.
  - intros [Hon Hleast]. apply onSphere_quadratic in Hon.
    destruct (near_root_least a b c Ha t Hon) as [Hd Hle].
    split; [exact Hd|]. apply Rle_antisym; [|exact Hle].
    apply Hleast. apply onSphere_quadratic. now apply near_root_is_root.
  - intros [Hd ->]. split.
    + apply onSphere_quadratic. now apply near_root_is_root.
    + intros t' Hon. apply onSphere_quadratic in Hon.
      now apply (near_root_least a b c Ha t' Hon).
Qed.

Lemma raySphere_hit_iff (maxDistance t : R) :
  0 < a ->
  Room.raySphereIntersect origin direction center radius maxDistance = Hit t <->
  firstCrossing origin direction center radius t /\ 0 < t < maxDistance.
Proof.
  intros Ha. rewrite raySphereIntersect_unfold, (firstCrossing_near_root t Ha).
  set (disc := b * b - 4 * a * c). set (t1 := (- b - sqrt disc) / (2 * a)).
  destruct (disc <? 0) eqn:Hd.
  - apply Rltb_true in Hd. split; [discriminate|]. intros [[H _] _]. lra.
  - apply Rltb_false in Hd.
    destruct (t1 >? 0) eqn:H0; destruct (t1 <? maxDistance) eqn:H1; cbn [andb];
      rewrite ?Rltb_true, ?Rltb_false in *.
    + split.
      * intros H. inversion H. subst t. repeat split; lra.
      * intros [[_ ->] _]. reflexivity.
    + split; [discriminate|]. intros [[_ ->] ?]. lra.
    + split; [discriminate|]. intros [[_ ->] ?]. lra.
    + split; [discriminate|]. intros [[_ ->] ?]. lra.
Qed.

Lemma raySphere_miss_iff (maxDistance : R) :
  0 < a ->
  Room.raySphereIntersect origin direction center radius maxDistance = Miss <->
  ~ exists t, firstCrossing origin direction center radius t /\ 0 < t < maxDistance.
Proof.
  intros Ha. split.
  - intros Hm [t Ht]. apply (raySphere_hit_iff maxDistance t Ha) in Ht. congruence.
  - intros Hn.
    destruct (Room.raySphereIntersect origin direction center radius maxDistance)
      as [t|] eqn:Hr; [|reflexivity].
    exfalso. apply Hn. exists t. now apply (raySphere_hit_iff maxDistance t Ha).
Qed.

(** The origin inside the sphere or on it: the smaller root is not
    positive. *)
Lemma raySphere_from_inside (maxDistance : R) :
  0 < a -> c <= 0 ->
  Room.raySphereIntersect origin direction center radius maxDistance = Miss.
Proof.
  intros Ha Hc. rewrite raySphereIntersect_unfold.
  set (disc := b * b - 4 * a * c). set (t1 := (- b - sqrt disc) / (2 * a)).
  destruct (disc <? 0); [reflexivity|].
  assert (Hd : 0 <= disc) by (unfold disc; nra).
  assert (Ht1 : t1 <= 0).
  { pose proof (sqrt_sqrt _ Hd) as Hs. pose proof (sqrt_pos disc) as Hp.
    assert (Hb : - b <= sqrt disc).
    { destruct (Rle_dec (- b) (sqrt disc)) as [Hle|Hgt]; [exact Hle|].
      exfalso.
      assert (H1 : 0 < - b - sqrt disc) by lra.
      assert (H2 : 0 < - b + sqrt disc) by lra.
      pose proof (Rmult_lt_0_compat _ _ H1 H2). unfold disc in *. nra. }
    unfold t1. apply Rmult_le_reg_l with (r := 2 * a); [lra|].
    replace (2 * a * ((- b - sqrt disc) / (2 * a))) with (- b - sqrt disc) by (field; lra).
    lra. }
  replace (t1 >? 0) with false; [reflexivity|].
  symmetry. apply Rltb_false. exact Ht1.
Qed.

End RaySphere.

(** C4 (as amended). For a ray with a non-zero direction, the test returns
    a hit at distance [t] exactly when [t] is the smaller root of the
    quadratic (the first point of the ray's line on the sphere's surface)
    and [0 < t < maxDistance]; it returns a miss in every other case.  So
    a first crossing at distance exactly [maxDistance] is a miss, and so is
    every ray whose origin lies inside the sphere or on its surface (the
    smaller root is then not positive, and the larger root is never
    looked at). *)
Theorem raySphere_hits_at_near_root_only :
  forall (origin direction center : Vec3.t) (radius maxDistance : R),
    0 < norm2 direction ->
    (forall t,
       Room.raySphereIntersect origin direction center radius maxDistance = Hit t <->
       firstCrossing origin direction center radius t /\ 0 < t < maxDistance) /\
    (Room.raySphereIntersect origin direction center radius maxDistance = Miss <->
     ~ exists t, firstCrossing origin direction center radius t /\ 0 < t < maxDistance) /\
    (firstCrossing origin direction center radius maxDistance ->
     Room.raySphereIntersect origin direction center radius maxDistance = Miss) /\
    (norm2 (Vec3.mk (Vec3.x origin - Vec3.x center) (Vec3.y origin - Vec3.y center)
                    (Vec3.z origin - Vec3.z center)) <= radius * radius ->
     Room.raySphereIntersect origin direction center radius maxDistance = Miss).
Proof.
  intros origin direction center radius maxDistance Ha.
  split; [|split; [|split]].
  - intros t. now apply raySphere_hit_iff.
  - now apply raySphere_miss_iff.
  - intros Hfc. apply raySphere_miss_iff; [exact Ha|].
    intros [t [Ht Hr]].
    assert (t = maxDistance).
    { apply Rle_antisym; [apply Ht; apply Hfc | apply Hfc; apply Ht]. }
    lra.
  - intros Hin. apply raySphere_from_inside; [exact Ha|].
    unfold norm2 in Hin. cbn [Vec3.x Vec3.y Vec3.z] in Hin. lra.
Qed.

(** ** The history ring *)

Section History.
Import Player.
Variable p : Player.t.

(** The slot of the [k]-th newest sample ([k = 0]: the newest), its
    timestamp and its position. *)
Definition slot (k : Z) : Z := ((historyHead p - 1 - k) mod HISTORY_CAPACITY)%Z.
Definition timeOf (k : Z) : R := get (historyTime p) (slot k).
Definition posOf (k : Z) : Vec3.t := sample p (slot k).

(** Timestamps do not decrease from older to newer samples. *)
Definition non_decreasing : Prop :=
  forall k, (0 <= k)%Z -> (k + 1 < historySize p)%Z -> timeOf (k + 1) <= timeOf k.

(** Linear interpolation from [a] to [b]. *)
Definition lerp (a b : Vec3.t) (l : R) : Vec3.t :=
  Vec3.mk (Vec3.x a + (Vec3.x b - Vec3.x a) * l)
          (Vec3.y a + (Vec3.y b - Vec3.y a) * l)
          (Vec3.z a + (Vec3.z b - Vec3.z a) * l).

Lemma slot_newest :
  ((historyHead p - 1 + HISTORY_CAPACITY) mod HISTORY_CAPACITY)%Z = slot 0.
Proof.
  unfold slot, HISTORY_CAPACITY.
  replace (historyHead p - 1 + 300)%Z with (historyHead p - 1 - 0 + 1 * 300)%Z by lia.
  apply Z.mod_add. lia.
Qed.

Lemma slot_prev (k : Z) :
  ((slot k - 1 + HISTORY_CAPACITY) mod HISTORY_CAPACITY)%Z = slot (k + 1).
Proof.
  unfold slot, HISTORY_CAPACITY.
  replace ((historyHead p - 1 - k) mod 300 - 1 + 300)%Z
    with ((historyHead p - 1 - k) mod 300 + 299)%Z by lia.
  rewrite Zplus_mod_idemp_l.
  replace (historyHead p - 1 - k + 299)%Z with (historyHead p - 1 - (k + 1) + 1 * 300)%Z
    by lia.
  apply Z.mod_add. lia.
Qed.

Lemma non_decreasing_chain (k m : Z) :
  non_decreasing -> (0 <= k)%Z -> (0 <= m)%Z -> (k + m < historySize p)%Z ->
  timeOf (k + m) <= timeOf k.
Proof.
  intros Hs Hk Hm. revert m Hm.
  apply (natlike_ind (fun m => (k + m < historySize p)%Z -> timeOf (k + m) <= timeOf k)).
  - intros _. rewrite Z.add_0_r. lra.
  - intros m Hm IH Hlt.
    replace (k + Z.succ m)%Z with (k + m + 1)%Z by lia.
    apply Rle_trans with (timeOf (k + m)); [apply Hs; lia | apply IH; lia].
Qed.

(** The search loop started on the [k]-th newest sample with [m]
    iterations left, when the query time is before that sample. *)
Lemma search_spec (t : R) (m : nat) :
  non_decreasing ->
  forall k, (0 <= k)%Z -> (k + Z.of_nat m < historySize p)%Z -> t < timeOf k ->
    (t < timeOf (k + Z.of_nat m) ->
     search p t m (slot k) = posOf (k + Z.of_nat m)) /\
    (timeOf (k + Z.of_nat m) <= t ->
     exists j, (k <= j < k + Z.of_nat m)%Z /\
       timeOf (j + 1) <= t < timeOf j /\
       (forall i, (k <= i < j)%Z -> t < timeOf (i + 1)) /\
       search p t m (slot k)
       = lerp (posOf (j + 1)) (posOf j) ((t - timeOf (j + 1)) / (timeOf j - timeOf (j + 1)))).
Proof.
  intros Hs. induction m as [|m IH]; intros k Hk Hn Hlt.
  - cbn [search Z.of_nat]. rewrite Z.add_0_r. split; [reflexivity | lra].
  - cbn [search]. rewrite slot_prev. fold (timeOf k) (timeOf (k + 1)).
    replace (t <=? timeOf k) with true by (symmetry; apply Rleb_true; lra).
    cbn [andb].
    destruct (t >=? timeOf (k + 1)) eqn:Hb.
    + apply Rleb_true in Hb. split.
      * intros Hold. exfalso.
        assert (timeOf (k + 1 + Z.of_nat m) <= timeOf (k + 1))
          by (apply non_decreasing_chain; try assumption; lia).
        replace (k + Z.of_nat (S m))%Z with (k + 1 + Z.of_nat m)%Z in Hold by lia. lra.
      * intros _. exists k. split; [lia|]. split; [lra|]. split; [intros i Hi; lia|].
        reflexivity.
    + apply Rleb_false in Hb.
      replace (timeOf k <? t - 1000) with false by (symmetry; apply Rltb_false; lra).
      replace (k + Z.of_nat (S m))%Z with (k + 1 + Z.of_nat m)%Z by lia.
      destruct (IH (k + 1)%Z ltac:(lia) ltac:(lia) Hb) as [IH1 IH2]. split.
      * exact IH1.
      * intros Hle. destruct (IH2 Hle) as (j & Hj & Hbr & Hfirst & Heq).
        exists j. split; [lia|]. split; [exact Hbr|]. split; [|exact Heq].
        intros i Hi. destruct (Z.eq_dec i k) as [->|Hne]; [exact Hb|].
        apply Hfirst. lia.
Qed.

End History.

(** C7. For a player whose stored samples carry non-decreasing timestamps,
    [getPositionAt t]: fails on an empty ring; returns the newest sample
    when [t] is at or after its timestamp; returns the oldest stored sample
    when [t] is before its timestamp; and otherwise returns the linear
    interpolation over the first adjacent pair, walking back from the
    newest, whose timestamps bracket [t].  Every answer lies on the segment
    between two stored positions. *)
Theorem history_query :
  forall (p : Player.t) (t : R),
    non_decreasing p ->
    let n := Player.historySize p in
    (n = 0%Z -> Player.getPositionAt p t = None) /\
    ((0 < n)%Z -> timeOf p 0 <= t ->
     Player.getPositionAt p t = Some (posOf p 0)) /\
    ((0 < n)%Z -> t < timeOf p (n - 1) ->
     Player.getPositionAt p t = Some (posOf p (n - 1))) /\
    ((0 < n)%Z -> timeOf p (n - 1) <= t < timeOf p 0 ->
     exists k, (0 <= k)%Z /\ (k + 1 < n)%Z /\
       timeOf p (k + 1) <= t < timeOf p k /\
       (forall j, (0 <= j < k)%Z -> ~ (timeOf p (j + 1) <= t <= timeOf p j)) /\
       Player.getPositionAt p t
       = Some (lerp (posOf p (k + 1)) (posOf p k)
                 ((t - timeOf p (k + 1)) / (timeOf p k - timeOf p (k + 1))))) /\
    ((0 < n)%Z ->
     exists i j l, (0 <= i < n)%Z /\ (0 <= j < n)%Z /\ 0 <= l <= 1 /\
       Player.getPositionAt p t = Some (lerp (posOf p i) (posOf p j) l)).
Proof.
  intros p t Hs n.
  assert (Hnewest : (0 < n)%Z -> timeOf p 0 <= t ->
                    Player.getPositionAt p t = Some (posOf p 0)).
  { intros Hn Hge. unfold Player.getPositionAt. fold n.
    replace (n =? 0)%Z with false by (symmetry; apply Z.eqb_neq; lia).
    rewrite slot_newest. fold (timeOf p 0).
    replace (t >=? timeOf p 0) with true by (symmetry; apply Rleb_true; lra).
    reflexivity. }
  assert (Hwalk : (0 < n)%Z -> t < timeOf p 0 ->
                  Player.getPositionAt p t
                  = Some (Player.search p t (Z.to_nat (n - 1)) (slot p 0))).
  { intros Hn Hlt. unfold Player.getPositionAt. fold n.
    replace (n =? 0)%Z with false by (symmetry; apply Z.eqb_neq; lia).
    rewrite slot_newest. fold (timeOf p 0).
    replace (t >=? timeOf p 0) with false by (symmetry; apply Rleb_false; lra).
    reflexivity. }
  assert (Hspec : (0 < n)%Z -> t < timeOf p 0 ->
     (t < timeOf p (n - 1) ->
      Player.search p t (Z.to_nat (n - 1)) (slot p 0) = posOf p (n - 1)) /\
     (timeOf p (n - 1) <= t ->
      exists j, (0 <= j < n - 1)%Z /\
        timeOf p (j + 1) <= t < timeOf p j /\
        (forall i, (0 <= i < j)%Z -> t < timeOf p (i + 1)) /\
        Player.search p t (Z.to_nat (n - 1)) (slot p 0)
        = lerp (posOf p (j + 1)) (posOf p j)
            ((t - timeOf p (j + 1)) / (timeOf p j - timeOf p (j + 1))))).
  { intros Hn Hlt.
    pose proof (search_spec p t (Z.to_nat (n - 1)) Hs 0%Z ltac:(lia)) as H.
    rewrite Z2Nat.id in H by lia. rewrite Z.add_0_l in H.
    apply H; [unfold n in *; lia | exact Hlt]. }
  split; [|split; [exact Hnewest | split; [|split]]].
  - intros Hn. unfold Player.getPositionAt. fold n. now rewrite Hn.
  - intros Hn Hold.
    assert (Hlt : t < timeOf p 0).
    { pose proof (non_decreasing_chain p 0 (n - 1) Hs ltac:(lia) ltac:(lia)
                    ltac:(unfold n; lia)) as Hc.
      rewrite Z.add_0_l in Hc. lra. }
    rewrite (Hwalk Hn Hlt). f_equal. now apply Hspec.
  - intros Hn [Hge Hlt]. rewrite (Hwalk Hn Hlt).
    destruct (proj2 (Hspec Hn Hlt) Hge) as (j & Hj & Hbr & Hfirst & Heq).
    exists j. split; [lia|]. split; [lia|]. split; [exact Hbr|]. split.
    + intros i Hi [Hlo _]. specialize (Hfirst i Hi). lra.
    + now rewrite Heq.
  - intros Hn.
    destruct (Rle_dec (timeOf p 0) t) as [Hge|Hlt].
    + exists 0%Z, 0%Z, 0. split; [lia|]. split; [lia|]. split; [lra|].
      rewrite (Hnewest Hn Hge). f_equal. unfold lerp.
      destruct (posOf p 0) as [a b c]. cbn [Vec3.x Vec3.y Vec3.z]. f_equal; ring.
    + apply Rnot_le_lt in Hlt. rewrite (Hwalk Hn Hlt).
      destruct (Rlt_dec t (timeOf p (n - 1))) as [Hold|Hin].
      * exists (n - 1)%Z, (n - 1)%Z, 0. split; [lia|]. split; [lia|]. split; [lra|].
        rewrite (proj1 (Hspec Hn Hlt) Hold). f_equal. unfold lerp.
        destruct (posOf p (n - 1)) as [a b c]. cbn [Vec3.x Vec3.y Vec3.z]. f_equal; ring.
      * apply Rnot_lt_le in Hin.
        destruct (proj2 (Hspec Hn Hlt) Hin) as (j & Hj & Hbr & Hfirst & Heq).
        exists (j + 1)%Z, j, ((t - timeOf p (j + 1)) / (timeOf p j - timeOf p (j + 1))).
        split; [lia|]. split; [lia|]. split; [|now rewrite Heq].
        assert (Hpos : 0 < timeOf p j - timeOf p (j + 1)) by lra.
        split.
        -- apply Rmult_le_reg_r with (r := timeOf p j - timeOf p (j + 1)); [exact Hpos|].
           unfold Rdiv. rewrite Rmult_assoc, Rinv_l by lra. lra.
        -- apply Rmult_le_reg_r with (r := timeOf p j - timeOf p (j + 1)); [exact Hpos|].
           unfold Rdiv. rewrite Rmult_assoc, Rinv_l by lra. lra.
Qed.

(** ** The map generator *)

Section Generator.
Import Physics GAME_CONSTANTS.


(** The [k]-th draw ([k >= 1]) of the generator with step function [next],
    started on [seed], and the [i]-th box ([i >= 0]) built from draws
    [5i+1 .. 5i+5] in the order width, height, depth, x, z. *)
Definition draw (next : Z -> Z) (seed : Z) (k : nat) : R :=
  random_value (Nat.iter k next seed).

Definition box (next : Z -> Z) (seed : Z) (i : nat) : Obstacle.t :=
  let width := 1 + draw next seed (5 * i + 1) * 4 in
  let height := 2 + draw next seed (5 * i + 2) * 6 in
  let depth := 1 + draw next seed (5 * i + 3) * 4 in
  let x := (draw next seed (5 * i + 4) - 0.5) * (MAP_SIZE - width) in
  let z := (draw next seed (5 * i + 5) - 0.5) * (MAP_SIZE - depth) in
  Obstacle.mk x z width height depth.


Opaque Physics.random_step.

Lemma iter_shift (k : nat) (s : Z) :
  Nat.iter k random_step (Nat.iter 5 random_step s) = Nat.iter (k + 5) random_step s.
Proof. now rewrite Nat.iter_add. Qed.

Lemma box_shift (s : Z) (i : nat) :
  box random_step (Nat.iter 5 random_step s) i = box random_step s (S i).
Proof.
  unfold box, draw. rewrite !iter_shift.
  replace (5 * S i + 1)%nat with (5 * i + 1 + 5)%nat by lia.
  replace (5 * S i + 2)%nat with (5 * i + 2 + 5)%nat by lia.
  replace (5 * S i + 3)%nat with (5 * i + 3 + 5)%nat by lia.
  replace (5 * S i + 4)%nat with (5 * i + 4 + 5)%nat by lia.
  replace (5 * S i + 5)%nat with (5 * i + 5 + 5)%nat by lia.
  reflexivity.
Qed.

Lemma boxes_spec (n : nat) :
  forall s, boxes n s = (map (box random_step s) (seq 0 n), Nat.iter (5 * n) random_step s).
Proof.
  induction n as [|n IH]; intros s.
  - reflexivity.
  - cbn [boxes]. rewrite IH. cbn [seq map]. f_equal.
    + f_equal. rewrite <- seq_shift, map_map.
      apply map_ext. intros i. apply box_shift.
    + replace (5 * S n)%nat with (5 * n + 5)%nat by lia.
      now rewrite Nat.iter_add.
Qed.

Transparent Physics.random_step.




End Generator.

(** The double-precision product and sum computed by the hardware
    semantics of primitive floats, to compare [round_binary64] with. *)
Module Binary64.
Definition of_Z (v : Z) : PrimFloat.float := PrimFloat.of_uint63 (Uint63.of_Z v).
Definition to_Z (f : PrimFloat.float) : Z :=
  match FloatOps.Prim2SF f with
  | SpecFloat.S754_finite sign m e =>
      ((if sign then -1 else 1)
       * (if 0 <=? e then Z.pos m * 2 ^ e else Z.pos m / 2 ^ (- e)))%Z
  | _ => 0%Z
  end.
Definition random_step (s : Z) : Z :=
  Z.land (Physics.toInt32
            (to_Z (PrimFloat.add (PrimFloat.mul (of_Z s) (of_Z 1103515245)) (of_Z 12345))))
         2147483647.
(** Whether the two step functions agree on the first [n] states reached
    from [s]. *)
Fixpoint agree (n : nat) (s : Z) : bool :=
  match n with
  | O => true
  | S n' => (Physics.random_step s =? random_step s)%Z && agree n' (Physics.random_step s)
  end.
End Binary64.

Lemma random_step_matches_hardware :
  Binary64.agree 500 12345 = true /\ Binary64.agree 500 0 = true
  /\ Binary64.agree 500 4294967295 = true.
Proof. vm_compute. repeat split. Qed.




(** ** Respawns *)

Lemma respawnOne_id (E : Env) (now : R) (obstacles : list Obstacle.t)
    (p : Player.t) (e : Eff) :
  Player.id (fst (Room.respawnOne E now obstacles p e)) = Player.id p.
Proof.
  unfold Room.respawnOne.
  destruct (Player.isDead p && (Player.respawnTime p >? 0) && (now >=? Player.respawnTime p));
    reflexivity.
Qed.

Lemma respawnAll_get (E : Env) (now : R) (obstacles : list Obstacle.t)
    (ps : list Player.t) (pid : Z) (p : Player.t) :
  Room.get ps pid = Some p ->
  forall e, exists e1,
    Room.get (fst (Room.respawnAll E now obstacles ps e)) pid
    = Some (fst (Room.respawnOne E now obstacles p e1)).
Proof.
  unfold Room.get. induction ps as [|q tl IH]; intros Hget e; [discriminate|].
  cbn [Room.respawnAll].
  pose proof (respawnOne_id E now obstacles q e) as Hid.
  destruct (Room.respawnOne E now obstacles q e) as [q' e'] eqn:Hq.
  destruct (Room.respawnAll E now obstacles tl e') as [tl' e''] eqn:Htl.
  cbn [fst find] in *. rewrite Hid.
  destruct (Player.id q =? pid)%Z.
  - inversion Hget; subst q. exists e. now rewrite Hq.
  - destruct (IH Hget e') as [e1 H1]. exists e1. now rewrite Htl in H1.
Qed.

(** C2. What [processRespawns] does to a dead player whose respawn time
    has come: the position is the one [getSpawnPosition] returns, two draws
    [u], [v] scaled to [(u - 0.5) * (MAP_SIZE/2 - 2) * 2] at height
    [y = 0] (where [Player.spawn], used on joining, starts at [y = 5]);
    health is [MAX_HEALTH]; [isDead] and [respawnTime] are cleared.  With draws in [[0, 1)] the point is within the square of
    half-side [MAP_SIZE/2 - 2]. *)
Theorem respawn_restores_player :
  forall (E : Env) (r : Room.t) (e : Eff) (pid : Z) (p : Player.t),
    Room.get (Room.players r) pid = Some p ->
    Player.isDead p = true ->
    Player.respawnTime p > 0 ->
    now_at E (clk e) >= Player.respawnTime p ->
    exists (p' : Player.t) (k : nat),
      Room.get (Room.players (fst (Room.processRespawns E r e))) pid = Some p' /\
      Player.x p' = (rnd_at E k - 0.5) * (GAME_CONSTANTS.MAP_SIZE / 2 - 2) * 2 /\
      Player.y p' = 0 /\
      Player.z p' = (rnd_at E (S k) - 0.5) * (GAME_CONSTANTS.MAP_SIZE / 2 - 2) * 2 /\
      Player.health p' = GAME_CONSTANTS.MAX_HEALTH /\
      Player.isDead p' = false /\
      Player.respawnTime p' = 0 /\
      (0 <= rnd_at E k < 1 -> 0 <= rnd_at E (S k) < 1 ->
       - (GAME_CONSTANTS.MAP_SIZE / 2 - 2) <= Player.x p' <= GAME_CONSTANTS.MAP_SIZE / 2 - 2 /\
       - (GAME_CONSTANTS.MAP_SIZE / 2 - 2) <= Player.z p' <= GAME_CONSTANTS.MAP_SIZE / 2 - 2).
Proof.
  intros E r e pid p Hget Hdead Hpos Hdue.
  unfold Room.processRespawns, dateNow.
  destruct (respawnAll_get E (now_at E (clk e)) (Room.obstacles r) (Room.players r) pid p
              Hget (mkEff (S (clk e)) (rng e) (out e) (calls e))) as [e1 H1].
  destruct (Room.respawnAll E (now_at E (clk e)) (Room.obstacles r) (Room.players r)
              (mkEff (S (clk e)) (rng e) (out e) (calls e))) as [ps' e'].
  cbn [fst Room.players Room.set_players] in *.
  exists (fst (Room.respawnOne E (now_at E (clk e)) (Room.obstacles r) p e1)), (rng e1).
  split; [exact H1|].
  unfold Room.respawnOne. rewrite Hdead.
  replace (Player.respawnTime p >? 0) with true by (symmetry; apply Rltb_true; lra).
  replace (now_at E (clk e) >=? Player.respawnTime p) with true
    by (symmetry; apply Rleb_true; lra).
  cbn. unfold GAME_CONSTANTS.MAP_SIZE.
  repeat (split; [reflexivity|]).
  intros Hu Hv. lra.
Qed.

(** ** Malformed messages *)

Section Messages.
Import Protocol.
Variable E : Env.

(** The bytes an INPUT frame must hold for every read of [decodeInput] to
    be inside the buffer: 1 + 4 + 1 + 1 + 4 + 4 + 8. *)
Definition INPUT_SIZE : nat := 23.

Lemma bytesAt_ok (buffer : list Byte.byte) (offset n : nat) :
  (offset + n <= length buffer)%nat ->
  bytesAt buffer offset n = Ok (firstn n (skipn offset buffer)).
Proof.
  intros H. unfold bytesAt.
  replace (offset + n <=? length buffer)%nat with true
    by (symmetry; apply Nat.leb_le; exact H).
  reflexivity.
Qed.

Lemma bytesAt_error (buffer : list Byte.byte) (offset n : nat) :
  (length buffer < offset + n)%nat -> bytesAt buffer offset n = RangeError.
Proof.
  intros H. unfold bytesAt.
  replace (offset + n <=? length buffer)%nat with false
    by (symmetry; apply Nat.leb_gt; exact H).
  reflexivity.
Qed.

Lemma decodeInput_complete (buffer : list Byte.byte) :
  (INPUT_SIZE <= length buffer)%nat -> exists input, decodeInput E buffer = Ok input.
Proof.
  unfold INPUT_SIZE. intros H.
  unfold decodeInput, getUint32, getUint8, getFloat32, getFloat64.
  rewrite !bytesAt_ok by (simpl; lia). cbn [bind]. eexists. reflexivity.
Qed.

Lemma decodeInput_truncated (buffer : list Byte.byte) :
  (length buffer < INPUT_SIZE)%nat -> decodeInput E buffer = RangeError.
Proof.
  unfold INPUT_SIZE. intros H.
  unfold decodeInput, getUint32, getUint8, getFloat32, getFloat64.
  destruct (Nat.le_gt_cases (1 + 4) (length buffer)) as [H1|H1];
    [rewrite (bytesAt_ok buffer 1 4 H1) | now rewrite (bytesAt_error buffer 1 4 H1)].
  cbn [bind].
  destruct (Nat.le_gt_cases (1 + 4 + 1) (length buffer)) as [H2|H2];
    [rewrite (bytesAt_ok buffer (1 + 4) 1 H2) | now rewrite (bytesAt_error buffer (1 + 4) 1 H2)].
  cbn [bind].
  destruct (Nat.le_gt_cases (1 + 4 + 1 + 1) (length buffer)) as [H3|H3];
    [rewrite (bytesAt_ok buffer (1 + 4 + 1) 1 H3)
    | now rewrite (bytesAt_error buffer (1 + 4 + 1) 1 H3)].
  cbn [bind].
  destruct (Nat.le_gt_cases (1 + 4 + 1 + 1 + 4) (length buffer)) as [H4|H4];
    [rewrite (bytesAt_ok buffer (1 + 4 + 1 + 1) 4 H4)
    | now rewrite (bytesAt_error buffer (1 + 4 + 1 + 1) 4 H4)].
  cbn [bind].
  destruct (Nat.le_gt_cases (1 + 4 + 1 + 1 + 4 + 4) (length buffer)) as [H5|H5];
    [rewrite (bytesAt_ok buffer (1 + 4 + 1 + 1 + 4) 4 H5)
    | now rewrite (bytesAt_error buffer (1 + 4 + 1 + 1 + 4) 4 H5)].
  cbn [bind].
  rewrite (bytesAt_error buffer (1 + 4 + 1 + 1 + 4 + 4) 8) by (simpl; lia).
  reflexivity.
Qed.

Lemma decodeJoinRequest_clamps (ty len : Byte.byte) (payload : list Byte.byte) :
  decodeJoinRequest (ty :: len :: payload) = firstn (Z.to_nat (u8 len)) payload /\
  ((length payload <= Z.to_nat (u8 len))%nat ->
   decodeJoinRequest (ty :: len :: payload) = payload).
Proof.
  unfold decodeJoinRequest. cbn [nth_error skipn]. split; [reflexivity|].
  intros H. now apply firstn_all2.
Qed.

Variable cfg : CONFIG.t.

Lemma message_join (rooms : Server.t) (ws : nat) (data : SocketData) (e : Eff)
    (msg : list Byte.byte) :
  getMessageType msg = Some ClientMessageType.JOIN ->
  exists rooms' data' e' a,
    Server.message E cfg rooms ws data e msg true = Server.Returned rooms' data' e' /\
    out e' = out e ++ [a] /\
    (a = Close ws \/ exists pid, a = Send ws (WELCOME pid (CONFIG.TICK_RATE cfg)
                                               (CONFIG.MAP_SEED cfg))).
Proof.
  intros Hty. unfold Server.message. cbn [negb]. rewrite Hty.
  rewrite Z.eqb_refl.
  assert (Hfind : out (snd (Server.findAvailableRoom E cfg rooms e)) = out e).
  { unfold Server.findAvailableRoom.
    destruct (find _ rooms); [reflexivity|].
    unfold Server.getOrCreateRoom.
    destruct (Server.rooms_get rooms _); [reflexivity|].
    unfold Room.new, FreeForAllMode.new, dateNow. reflexivity. }
  destruct (Server.findAvailableRoom E cfg rooms e) as [[rooms1 room] e1].
  cbn [snd] in Hfind.
  assert (Hadd : out (snd (Room.addPlayer E room (decodeJoinRequest msg) ws data e1))
                 = out e1).
  { unfold Room.addPlayer. destruct (_ >=? _)%Z; [reflexivity|].
    unfold FreeForAllMode.onPlayerJoin, random, call. cbn. reflexivity. }
  destruct (Room.addPlayer E room (decodeJoinRequest msg) ws data e1)
    as [[[room' player] data'] e2].
  cbn [snd] in Hadd.
  destruct player as [player|].
  - eexists _, _, _, _. split; [reflexivity|]. split.
    + unfold emit. cbn [out]. now rewrite Hadd, Hfind.
    + right. eexists. reflexivity.
  - eexists _, _, _, _. split; [reflexivity|]. split.
    + unfold emit. cbn [out]. now rewrite Hadd, Hfind.
    + left. reflexivity.
Qed.

End Messages.

(** C8 (as amended).  A binary frame that is empty or whose type byte is
    none of JOIN, INPUT, PING is dropped: the handler returns with the
    rooms, the socket data and the effects unchanged, so nothing is sent
    and the connection is not closed.  An INPUT frame from a connection
    not yet admitted is dropped in the same way, before any decoding.
    Decoding an INPUT frame succeeds when the frame holds at least 23
    bytes and throws [RangeError] when it holds fewer; for an admitted
    connection that exception leaves the handler.  A JOIN frame is never
    dropped: the name is the bytes present, at most as many as the length
    byte says, and the handler answers with WELCOME or closes the
    connection when the room is full. *)
Theorem malformed_messages :
  forall (E : Env) (cfg : CONFIG.t) (rooms : Server.t) (ws : nat) (data : SocketData)
         (e : Eff) (msg : list Byte.byte),
    (Protocol.getMessageType msg = None ->
     Server.message E cfg rooms ws data e msg true = Server.Returned rooms data e) /\
    (forall ty, Protocol.getMessageType msg = Some ty ->
       ty <> ClientMessageType.JOIN -> ty <> ClientMessageType.INPUT ->
       ty <> ClientMessageType.PING ->
       Server.message E cfg rooms ws data e msg true = Server.Returned rooms data e) /\
    (Protocol.getMessageType msg = Some ClientMessageType.INPUT ->
     playerId data = 0%Z \/ roomId data = None ->
     Server.message E cfg rooms ws data e msg true = Server.Returned rooms data e) /\
    ((INPUT_SIZE <= length msg)%nat ->
     exists input, Protocol.decodeInput E msg = Protocol.Ok input) /\
    ((length msg < INPUT_SIZE)%nat ->
     Protocol.decodeInput E msg = Protocol.RangeError) /\
    (Protocol.getMessageType msg = Some ClientMessageType.INPUT ->
     playerId data <> 0%Z -> roomId data <> None ->
     (length msg < INPUT_SIZE)%nat ->
     Server.message E cfg rooms ws data e msg true = Server.Thrown) /\
    (Protocol.getMessageType msg = Some ClientMessageType.JOIN ->
     (forall ty len payload, msg = ty :: len :: payload ->
        Protocol.decodeJoinRequest msg = firstn (Z.to_nat (Protocol.u8 len)) payload) /\
     exists rooms' data' e' a,
       Server.message E cfg rooms ws data e msg true = Server.Returned rooms' data' e' /\
       out e' = out e ++ [a] /\
       (a = Close ws \/
        exists pid, a = Send ws (WELCOME pid (CONFIG.TICK_RATE cfg) (CONFIG.MAP_SEED cfg)))).
Proof.
  intros E cfg rooms ws data e msg.
  split; [|split; [|split; [|split; [|split; [|split]]]]].
  - intros H. unfold Server.message. cbn [negb]. now rewrite H.
  - intros ty H H1 H2 H3. unfold Server.message. cbn [negb]. rewrite H.
    apply Z.eqb_neq in H1, H2, H3. now rewrite H1, H2, H3.
  - intros H Hun. unfold Server.message. cbn [negb]. rewrite H.
    change (ClientMessageType.INPUT =? ClientMessageType.JOIN)%Z with false.
    rewrite Z.eqb_refl. cbv iota.
    destruct Hun as [H0|H0].
    + rewrite H0. reflexivity.
    + rewrite H0. destruct (playerId data =? 0)%Z; reflexivity.
  - apply decodeInput_complete.
  - apply decodeInput_truncated.
  - intros H Hp Hr Hlen. unfold Server.message. cbn [negb]. rewrite H.
    change (ClientMessageType.INPUT =? ClientMessageType.JOIN)%Z with false.
    rewrite Z.eqb_refl. cbv iota.
    apply Z.eqb_neq in Hp. rewrite Hp.
    destruct (roomId data) as [rid|]; [|congruence].
    now rewrite decodeInput_truncated.
  - intros H. split.
    + intros ty len payload ->. apply decodeJoinRequest_clamps.
    + now apply message_join.
Qed.

(** ** Acknowledged inputs *)

Section Frames.
Import Room.
Variable E : Env.

(** [ps'] holds a player for every id of [ps], related to it by [R]. *)
Definition preserves (R : Player.t -> Player.t -> Prop) (ps ps' : list Player.t) : Prop :=
  forall v p, get ps v = Some p -> exists p', get ps' v = Some p' /\ R p p'.



Lemma preserves_weaken (R1 R2 : Player.t -> Player.t -> Prop) (ps ps' : list Player.t) :
  (forall a b, R1 a b -> R2 a b) -> preserves R1 ps ps' -> preserves R2 ps ps'.
Proof.
  intros HR H1 v p H. destruct (H1 v p H) as (p' & H' & A). exists p'. split; auto.
Qed.





















Variable dt : R.










Lemma get_map (f : Player.t -> Player.t) (ps : list Player.t) (v : Z) :
  (forall p, Player.id (f p) = Player.id p) ->
  get (map f ps) v = option_map f (get ps v).
Proof.
  intros Hf. unfold get. induction ps as [|q tl IH]; [reflexivity|].
  cbn [map find]. rewrite Hf. destruct (Player.id q =? v)%Z; [reflexivity | exact IH].
Qed.











End Frames.


(** * Concrete scenarios *)

(** A clock stuck at 10000 ms, draws all equal to 0.5, exact storage. *)
Definition E0 : Env :=
  mkEnv (fun _ => 10000) (fun _ => 0.5) (fun v => v) (fun _ => 0) (fun _ => 0).
Definition e0 : Eff := mkEff 0 0 [] [].

(** An input with sequence number 5 that presses forward and shoot. *)
Definition shot5 : InputData.t :=
  InputData.mk 5 true false false false false false false true 0 0 0 9900.

(** Player 2 on socket 8, dead until 12000 ms, with [shot5] queued. *)
Definition bob : Player.t :=
  Player.set_pendingInputs
    (Player.set_respawnTime (Player.set_combat (Player.new 2 [] 8) 0 true 1) 12000)
    [shot5].

Definition room_bob : Room.t :=
  Room.mk lobby 16 [bob] (FreeForAllMode.mk 0 0 0) [] 0 true [] 60 3.

Lemma dead_player_inputs_have_no_effect_witness :
  Room.get (Room.players room_bob) 2 = Some bob /\
  Player.isDead bob = true /\
  Player.processInput bob shot5 (1 / 60) (Room.obstacles room_bob) = bob /\
  fst (fold_left (Room.applyInput E0 (1 / 60) 2) [shot5] (room_bob, e0)) = room_bob.
Proof.
  pose proof (dead_player_inputs_have_no_effect E0 (1 / 60) room_bob e0 2 bob [shot5]
                eq_refl eq_refl) as (H1 & H2 & _).
  split; [reflexivity|]. split; [reflexivity|]. split; [apply H1 | exact H2].
Defined.

Lemma health_and_death_accounting_witness :
  Player.isDead bob = true /\
  Player.takeDamage bob 25 1 = (false, bob) /\
  Player.isDead (Player.new 1 [] 7) = false /\
  Player.health (snd (Player.takeDamage (Player.new 1 [] 7) 70 2)) = 30%Z.
Proof.
  pose proof (health_and_death_accounting E0 room_bob e0 1 0 bob 25 1) as (H1 & _).
  pose proof (health_and_death_accounting E0 room_bob e0 1 0 (Player.new 1 [] 7) 70 2)
    as (_ & H2 & _).
  split; [reflexivity|]. split; [apply H1; reflexivity|]. split; [reflexivity|].
  destruct (H2 eq_refl) as (H & _). rewrite H. reflexivity.
Defined.

(** Player 1 on socket 7, alive, who fired the pistol at 9800 ms. *)
Definition alice : Player.t := Player.set_lastShootTime (Player.new 1 [] 7) 9800.

Definition room_alice : Room.t :=
  Room.mk lobby 16 [alice] (FreeForAllMode.mk 0 0 0) [] 0 true [] 60 2.

(** Player 1 after an input with the shoot flag, as [gameTick] has it when
    it calls [handleShoot]: the trigger is held, the last shot was at
    9800 ms. *)
Definition alice_firing : Player.t :=
  Player.processInput alice shot5 (1 / 60) [].

Definition room_firing : Room.t :=
  Room.mk lobby 16 [alice_firing] (FreeForAllMode.mk 0 0 0) [] 0 true [] 60 2.

Lemma fire_rate_gate_witness :
  Player.isDead alice_firing = false /\
  Player.isShooting alice_firing = true /\
  Room.get (Room.players room_firing) 1 = Some alice_firing /\
  GAME_CONSTANTS.WEAPONS_at (Player.weapon alice_firing) = Some GAME_CONSTANTS.Pistol /\
  now_at E0 (clk e0) - Player.lastShootTime alice_firing = 200 /\
  Room.handleShoot E0 room_firing e0 1 9900 = (room_firing, mkEff 1 0 [] []) /\
  snd (run E0 [OpCanShoot 10000; OpCanShoot 10300; OpTakeDamage 25 2; OpCanShoot 10500;
               OpCanShoot 10700] alice_firing)
  = [(10300, 0%Z); (10700, 0%Z)] /\
  spaced (Player.lastShootTime alice_firing) [(10300, 0%Z); (10700, 0%Z)].
Proof.
  assert (Hnow : now_at E0 (clk e0) - Player.lastShootTime alice_firing = 200).
  { cbn. lra. }
  assert (Hlt : now_at E0 (clk e0) - Player.lastShootTime alice_firing
                < Weapon.fireRate GAME_CONSTANTS.Pistol).
  { rewrite Hnow. cbn. lra. }
  assert (Hrun : snd (run E0 [OpCanShoot 10000; OpCanShoot 10300; OpTakeDamage 25 2;
                              OpCanShoot 10500; OpCanShoot 10700] alice_firing)
                 = [(10300, 0%Z); (10700, 0%Z)]).
  { unfold run, perform, Player.canShoot, Player.takeDamage, alice_firing,
      Player.processInput.
    cbn -[Rleb Rltb Rdiv Rmult Rplus Rminus Ropp IZR sqrt sin cos Physics.applyPhysics].
    Rcompare.
    cbn -[Rleb Rltb Rdiv Rmult Rplus Rminus Ropp IZR sqrt sin cos Physics.applyPhysics].
    Rcompare.
    cbn -[Rleb Rltb Rdiv Rmult Rplus Rminus Ropp IZR sqrt sin cos Physics.applyPhysics].
    Rcompare.
    cbn -[Rleb Rltb Rdiv Rmult Rplus Rminus Ropp IZR sqrt sin cos Physics.applyPhysics].
    Rcompare.
    reflexivity. }
  pose proof (fire_rate_gate E0
                [OpCanShoot 10000; OpCanShoot 10300; OpTakeDamage 25 2; OpCanShoot 10500;
                 OpCanShoot 10700]
                alice_firing room_firing e0 1 alice_firing GAME_CONSTANTS.Pistol 9900)
    as (H1 & H2).
  destruct (H2 eq_refl eq_refl Hlt) as (_ & H3).
  rewrite Hrun in H1.
  split; [reflexivity|]. split; [reflexivity|]. split; [reflexivity|].
  split; [reflexivity|]. split; [exact Hnow|]. split; [exact H3|].
  split; [exact Hrun | exact H1].
Defined.

(** ** Ray against sphere: the unit sphere at the origin, seen from its
    centre along +z. *)
Definition origin0 : Vec3.t := Vec3.mk 0 0 0.
Definition zdir : Vec3.t := Vec3.mk 0 0 1.

Definition outside5 : Vec3.t := Vec3.mk 0 0 (-5).

Lemma raySphere_hits_at_near_root_only_witness :
  0 < norm2 zdir /\
  Room.raySphereIntersect outside5 zdir origin0 1 100 = Hit 4 /\
  Room.raySphereIntersect origin0 zdir origin0 1 100 = Miss.
Proof.
  assert (H : 0 < norm2 zdir) by (unfold norm2, zdir; cbn; lra).
  split; [exact H|]. split.
  - apply (proj1 (raySphere_hits_at_near_root_only outside5 zdir origin0 1 100 H)).
    split; [|lra].
    unfold firstCrossing, onSphere, pointAt, outside5, origin0, zdir.
    cbn [Vec3.x Vec3.y Vec3.z]. split; [lra|].
    intros t' Ht. destruct (Rle_dec 4 t') as [Hle|Hgt]; [exact Hle|]. exfalso.
    assert (H1 : 0 < 4 - t') by lra. assert (H2 : 0 < 6 - t') by lra.
    pose proof (Rmult_lt_0_compat _ _ H1 H2). nra.
  - apply (proj2 (proj2 (proj2
      (raySphere_hits_at_near_root_only origin0 zdir origin0 1 100 H)))).
    unfold norm2, origin0. cbn. lra.
Defined.

(** C4, counterexample: the ray starts at the centre of the unit sphere.
    The quadratic has the roots -1 and 1; the smaller non-negative root is
    1, well within [maxDistance = 100], and the test reports a miss. *)
Lemma raySphere_misses_from_inside :
  Room.raySphereIntersect origin0 zdir origin0 1 100 = Miss /\
  onSphere origin0 1 (pointAt origin0 zdir 1) /\
  (forall t, onSphere origin0 1 (pointAt origin0 zdir t) -> 0 <= t -> 1 <= t) /\
  0 <= 1 < 100.
Proof.
  split; [|split; [|split]].
  - apply raySphere_from_inside; unfold norm2, zdir, origin0; cbn; lra.
  - unfold onSphere, pointAt, origin0, zdir. cbn. lra.
  - unfold onSphere, pointAt, origin0, zdir. cbn. intros t Ht H0. nra.
  - lra.
Qed.

(** ** Writing to the history ring *)

Section Ring.
Import Player.

Lemma length_set_nth (n : nat) (v : R) (l : list R) : length (set_nth n v l) = length l.
Proof.
  revert n. induction l as [|a tl IH]; intros n; [destruct n; reflexivity|].
  destruct n; cbn [set_nth length]; [reflexivity | now rewrite IH].
Qed.

Lemma nth_set_nth_eq (n : nat) (v : R) (l : list R) :
  (n < length l)%nat -> nth n (set_nth n v l) 0 = v.
Proof.
  revert n. induction l as [|a tl IH]; intros n Hn; cbn [length] in Hn; [lia|].
  destruct n; cbn [set_nth nth]; [reflexivity | apply IH; lia].
Qed.

Lemma nth_set_nth_neq (n m : nat) (v : R) (l : list R) :
  n <> m -> nth m (set_nth n v l) 0 = nth m l 0.
Proof.
  revert n m. induction l as [|a tl IH]; intros n m Hne; [destruct n; reflexivity|].
  destruct n, m; cbn [set_nth nth]; try reflexivity; [congruence | apply IH; congruence].
Qed.

Lemma length_set (l : list R) (i : Z) (v : R) : length (set l i v) = length l.
Proof. unfold set. destruct (i <? 0)%Z; [reflexivity | apply length_set_nth]. Qed.

Lemma get_set_eq (l : list R) (i : Z) (v : R) :
  (0 <= i < Z.of_nat (length l))%Z -> get (set l i v) i = v.
Proof.
  intros H. unfold get, set.
  replace (i <? 0)%Z with false by (symmetry; apply Z.ltb_ge; lia).
  apply nth_set_nth_eq. lia.
Qed.

Lemma get_set_neq (l : list R) (i j : Z) (v : R) :
  (0 <= i)%Z -> (0 <= j)%Z -> i <> j -> get (set l i v) j = get l j.
Proof.
  intros Hi Hj Hne. unfold get, set.
  replace (i <? 0)%Z with false by (symmetry; apply Z.ltb_ge; lia).
  apply nth_set_nth_neq. lia.
Qed.

Lemma length_zeros : length zeros = Z.to_nat HISTORY_CAPACITY.
Proof. unfold zeros. apply repeat_length. Qed.

(** The ring as the class keeps it: four arrays of [HISTORY_CAPACITY]
    slots, the head inside them, the size at most the capacity. *)
Definition ring_ok (p : Player.t) : Prop :=
  length (historyX p) = Z.to_nat HISTORY_CAPACITY /\
  length (historyY p) = Z.to_nat HISTORY_CAPACITY /\
  length (historyZ p) = Z.to_nat HISTORY_CAPACITY /\
  length (historyTime p) = Z.to_nat HISTORY_CAPACITY /\
  (0 <= historyHead p < HISTORY_CAPACITY)%Z /\
  (0 <= historySize p <= HISTORY_CAPACITY)%Z.

Lemma new_ring_ok (pid : Z) (name : list Byte.byte) (ws : nat) :
  ring_ok (new pid name ws).
Proof.
  unfold ring_ok, new; cbn [historyX historyY historyZ historyTime historyHead historySize].
  rewrite length_zeros. unfold HISTORY_CAPACITY. repeat split; lia.
Qed.

Variable E : Env.

Lemma saveHistory_ring_ok (p : Player.t) (ts : R) :
  ring_ok p -> ring_ok (saveHistory E p ts).
Proof.
  intros (HX & HY & HZ & HT & Hh & Hs).
  unfold ring_ok, saveHistory;
    cbn [historyX historyY historyZ historyTime historyHead historySize].
  rewrite !length_set. unfold HISTORY_CAPACITY in *.
  repeat split; try assumption; try (apply Z.mod_pos_bound; lia).
  - destruct (historySize p <? 300)%Z; lia.
  - destruct (historySize p <? 300)%Z eqn:Hlt; [apply Z.ltb_lt in Hlt|]; lia.
Qed.

(** After a write the new sample is the newest, and every older sample
    that is still in the ring is one place further back. *)
Lemma saveHistory_newest (p : Player.t) (ts : R) :
  ring_ok p ->
  timeOf (saveHistory E p ts) 0 = ts /\
  posOf (saveHistory E p ts) 0 = Vec3.mk (fround E (x p)) (fround E (y p)) (fround E (z p)).
Proof.
  intros (HX & HY & HZ & HT & Hh & Hs).
  assert (Hslot : slot (saveHistory E p ts) 0 = historyHead p).
  { unfold slot, saveHistory; cbn [historyHead]. unfold HISTORY_CAPACITY in *.
    rewrite Z.sub_0_r.
    replace ((historyHead p + 1) mod 300 - 1)%Z
      with ((historyHead p + 1) mod 300 + (-1))%Z by lia.
    rewrite Zplus_mod_idemp_l.
    replace (historyHead p + 1 + -1)%Z with (historyHead p) by lia.
    apply Z.mod_small. lia. }
  unfold timeOf, posOf, sample. rewrite Hslot.
  unfold saveHistory; cbn [historyX historyY historyZ historyTime].
  unfold HISTORY_CAPACITY in *.
  rewrite !get_set_eq by lia. split; reflexivity.
Qed.

Lemma saveHistory_older (p : Player.t) (ts : R) (k : Z) :
  ring_ok p -> (0 <= k < HISTORY_CAPACITY - 1)%Z ->
  timeOf (saveHistory E p ts) (k + 1) = timeOf p k /\
  posOf (saveHistory E p ts) (k + 1) = posOf p k.
Proof.
  intros (HX & HY & HZ & HT & Hh & Hs) Hk.
  assert (Hslot : slot (saveHistory E p ts) (k + 1) = slot p k).
  { unfold slot, saveHistory; cbn [historyHead]. unfold HISTORY_CAPACITY in *.
    replace ((historyHead p + 1) mod 300 - 1 - (k + 1))%Z
      with ((historyHead p + 1) mod 300 + (- 1 - (k + 1)))%Z by lia.
    rewrite Zplus_mod_idemp_l. f_equal. lia. }
  assert (Hne : historyHead p <> slot p k).
  { unfold slot, HISTORY_CAPACITY in *. intros Heq.
    pose proof (Z.div_mod (historyHead p - 1 - k) 300 ltac:(lia)) as D1.
    rewrite <- Heq in D1. lia. }
  assert (Hpos : (0 <= slot p k)%Z).
  { unfold slot, HISTORY_CAPACITY. apply Z.mod_pos_bound. lia. }
  unfold timeOf, posOf, sample. rewrite Hslot.
  unfold saveHistory; cbn [historyX historyY historyZ historyTime].
  rewrite !get_set_neq by lia. split; reflexivity.
Qed.

(** Writes with a clock that does not run backwards keep the timestamps
    in order. *)
Lemma saveHistory_non_decreasing (p : Player.t) (ts : R) :
  ring_ok p -> non_decreasing p ->
  ((0 < historySize p)%Z -> timeOf p 0 <= ts) ->
  non_decreasing (saveHistory E p ts).
Proof.
  intros Hok Hs Hts k Hk Hlt.
  assert (Hsz : (historySize (saveHistory E p ts) <= historySize p + 1)%Z
                /\ (historySize (saveHistory E p ts) <= HISTORY_CAPACITY)%Z).
  { pose proof (saveHistory_ring_ok p ts Hok) as (_ & _ & _ & _ & _ & H).
    split; [|lia]. unfold saveHistory; cbn [historySize].
    destruct (historySize p <? HISTORY_CAPACITY)%Z; lia. }
  destruct Hsz as [Hsz1 Hsz2].
  destruct (saveHistory_older p ts k Hok ltac:(lia)) as [-> _].
  destruct (Z.eq_dec k 0) as [->|Hne].
  - destruct (saveHistory_newest p ts Hok) as [-> _]. apply Hts. lia.
  - replace k with (k - 1 + 1)%Z at 2 by lia.
    destruct (saveHistory_older p ts (k - 1) Hok ltac:(lia)) as [-> _].
    replace k with (k - 1 + 1)%Z at 1 by lia. apply Hs; lia.
Qed.

End Ring.

(** ** History: player 3 sampled at the origin at 1000 ms and at (4, 0, 8)
    at 2000 ms. *)
Definition carol0 : Player.t := Player.saveHistory E0 (Player.new 3 [] 9) 1000.
Definition carol : Player.t :=
  Player.saveHistory E0 (Player.set_position carol0 (Vec3.mk 4 0 8)) 2000.

Lemma carol0_ring_ok : ring_ok (Player.set_position carol0 (Vec3.mk 4 0 8)).
Proof. exact (saveHistory_ring_ok E0 _ 1000 (new_ring_ok 3 [] 9)). Qed.

Lemma carol_samples :
  timeOf carol 0 = 2000 /\ posOf carol 0 = Vec3.mk 4 0 8 /\
  timeOf carol 1 = 1000 /\ posOf carol 1 = Vec3.mk 0 0 0.
Proof.
  destruct (saveHistory_newest E0 _ 2000 carol0_ring_ok) as [T0 P0].
  destruct (saveHistory_older E0 _ 2000 0 carol0_ring_ok ltac:(unfold Player.HISTORY_CAPACITY; lia))
    as [T1 P1].
  destruct (saveHistory_newest E0 _ 1000 (new_ring_ok 3 [] 9)) as [T2 P2].
  split; [exact T0|]. split; [exact P0|]. split.
  - change (0 + 1)%Z with 1%Z in T1. unfold carol. rewrite T1. exact T2.
  - change (0 + 1)%Z with 1%Z in P1. unfold carol. rewrite P1. exact P2.
Qed.

Lemma carol_non_decreasing : non_decreasing carol.
Proof.
  apply saveHistory_non_decreasing.
  - exact carol0_ring_ok.
  - apply (saveHistory_non_decreasing E0 (Player.new 3 [] 9) 1000).
    + apply new_ring_ok.
    + intros k Hk Hlt. cbn in Hlt. lia.
    + cbn. lia.
  - intros _.
    destruct (saveHistory_newest E0 _ 1000 (new_ring_ok 3 [] 9)) as [T _].
    change (timeOf (Player.set_position carol0 (Vec3.mk 4 0 8)) 0)
      with (timeOf (Player.saveHistory E0 (Player.new 3 [] 9) 1000) 0).
    rewrite T. lra.
Qed.

Lemma history_query_witness :
  non_decreasing carol /\
  (0 < Player.historySize carol)%Z /\
  timeOf carol (Player.historySize carol - 1) <= 1500 < timeOf carol 0 /\
  Player.getPositionAt carol 1500 = Some (Vec3.mk 2 0 4).
Proof.
  destruct carol_samples as (T0 & P0 & T1 & P1).
  assert (Hn : (0 < Player.historySize carol)%Z) by (cbn; lia).
  assert (Ht : timeOf carol (Player.historySize carol - 1) <= 1500 < timeOf carol 0).
  { change (Player.historySize carol - 1)%Z with 1%Z. rewrite T0, T1. lra. }
  pose proof (history_query carol 1500 carol_non_decreasing) as (_ & _ & _ & H & _).
  destruct (H Hn Ht) as (k & Hk0 & Hk1 & _ & _ & Heq).
  split; [exact carol_non_decreasing|]. split; [exact Hn|]. split; [exact Ht|].
  assert (k = 0%Z) by (change (Player.historySize carol) with 2%Z in Hk1; lia). subst k.
  change (0 + 1)%Z with 1%Z in Heq. rewrite Heq, T0, T1, P0, P1.
  unfold lerp. cbn [Vec3.x Vec3.y Vec3.z]. f_equal. f_equal; field.
Defined.

(** ** Respawn: player 4, dead, due to respawn at 9000 ms. *)
Definition dave : Player.t :=
  Player.set_respawnTime (Player.set_combat (Player.new 4 [] 10) 0 true 1) 9000.

Definition room_dave : Room.t :=
  Room.mk lobby 16 [dave] (FreeForAllMode.mk 0 0 0) [] 0 true [] 60 5.

Lemma respawn_restores_player_witness :
  Room.get (Room.players room_dave) 4 = Some dave /\
  Player.isDead dave = true /\
  Player.respawnTime dave > 0 /\
  now_at E0 (clk e0) >= Player.respawnTime dave /\
  exists p',
    Room.get (Room.players (fst (Room.processRespawns E0 room_dave e0))) 4 = Some p' /\
    Player.y p' = 0 /\
    Player.health p' = GAME_CONSTANTS.MAX_HEALTH /\
    Player.isDead p' = false /\
    Player.respawnTime p' = 0.
Proof.
  assert (H1 : Player.respawnTime dave > 0) by (cbn; lra).
  assert (H2 : now_at E0 (clk e0) >= Player.respawnTime dave) by (cbn; lra).
  destruct (respawn_restores_player E0 room_dave e0 4 dave eq_refl eq_refl H1 H2)
    as (p' & k & Hg & _ & Hy & _ & Hh & Hd & Hr & _).
  split; [reflexivity|]. split; [reflexivity|]. split; [exact H1|]. split; [exact H2|].
  exists p'. repeat split; assumption.
Defined.

(** ** Messages *)

Definition conn_alice : SocketData := mkSocketData 1 (Some lobby).
Definition fresh : SocketData := mkSocketData 0 None.
Definition server_alice : Server.t := [(lobby, room_alice)].

Lemma malformed_messages_witness :
  Protocol.getMessageType [Byte.x09; Byte.x00] = Some 9%Z /\
  Server.message E0 CONFIG.default server_alice 7 conn_alice e0 [Byte.x09; Byte.x00] true
  = Server.Returned server_alice conn_alice e0.
Proof.
  pose proof (malformed_messages E0 CONFIG.default server_alice 7 conn_alice e0
                [Byte.x09; Byte.x00]) as (_ & H & _).
  split; [reflexivity|].
  apply (H 9%Z eq_refl); unfold ClientMessageType.JOIN, ClientMessageType.INPUT,
    ClientMessageType.PING; lia.
Defined.

(** C8, counterexample: a three-byte INPUT frame from the admitted
    connection of player 1 makes the handler end with the exception of
    [decodeInput]; and a JOIN frame whose length byte says 255 with one
    byte of name is not dropped: a second player is admitted and
    welcomed. *)
Lemma truncated_input_throws :
  Server.message E0 CONFIG.default server_alice 7 conn_alice e0
    [Byte.x02; Byte.x00; Byte.x00] true
  = Server.Thrown /\
  exists rooms' e',
    Server.message E0 CONFIG.default server_alice 9 fresh e0
      [Byte.x01; Byte.xff; Byte.x41] true
    = Server.Returned rooms' (mkSocketData 2 (Some lobby)) e' /\
    out e' = [Send 9 (WELCOME 2 60 12345)] /\
    option_map (fun room => map Player.name (Room.players room))
      (Server.rooms_get rooms' lobby)
    = Some [[]; [Byte.x41]].
Proof.
  split; [reflexivity|].
  eexists _, _. split; [reflexivity|]. split; reflexivity.
Qed.

(** ** Ticks *)




(** An input with sequence number 7 that presses forward only. *)
Definition step7 : InputData.t :=
  InputData.mk 7 true false false false false false false false 0 0 0 9900.



(** ** A shot blocked by a wall: the gunner at the origin looks along +z,
    the target stands 10 units away, a wall crosses the line of fire at
    z = 5. *)

Lemma getPositionAt_newest (p : Player.t) (t : R) :
  (0 < Player.historySize p)%Z -> timeOf p 0 <= t ->
  Player.getPositionAt p t = Some (posOf p 0).
Proof.
  intros Hn Hge. unfold Player.getPositionAt.
  replace (Player.historySize p =? 0)%Z with false by (symmetry; apply Z.eqb_neq; lia).
  rewrite slot_newest. fold (timeOf p 0).
  replace (t >=? timeOf p 0) with true by (symmetry; apply Rleb_true; lra).
  reflexivity.
Qed.

Lemma ceil_eq (r : R) (z : Z) : IZR z - 1 < r <= IZR z -> ceil r = z.
Proof.
  intros [Hlo Hhi]. unfold ceil.
  assert (H : (1 - z)%Z = up (- r)).
  { apply tech_up; rewrite minus_IZR; lra. }
  rewrite <- H. lia.
Qed.

Definition gunner : Player.t := Player.new 1 [] 7.
Definition erin : Player.t :=
  Player.saveHistory E0 (Player.set_position (Player.new 5 [] 11) (Vec3.mk 0 0.1 10)) 9000.
Definition wall : Obstacle.t := Obstacle.mk 0 5 4 5 1.
Definition room_wall : Room.t :=
  Room.mk lobby 16 [gunner; erin] (FreeForAllMode.mk 0 0 0) [wall] 0 true [] 60 6.
Definition eye : Vec3.t := Vec3.mk 0 (0 + 1.8 - 0.2) 0.

Lemma gunner_aim :
  fst (Room.applySpread E0 GAME_CONSTANTS.Pistol (Player.getLookDirection gunner) e0) = zdir.
Proof.
  unfold Room.applySpread, Player.getLookDirection, random.
  cbn -[Rleb Rltb Rdiv Rmult Rplus Rminus Ropp IZR sqrt sin cos].
  Rcompare. cbn [fst]. rewrite sin_0, cos_0.
  replace (sqrt _) with 1.
  - unfold zdir. f_equal; field.
  - rewrite <- sqrt_1 at 1. f_equal. lra.
Qed.

Lemma erin_seen : Player.getPositionAt erin 9500 = Some (Vec3.mk 0 0.1 10).
Proof.
  assert (Hok : ring_ok (Player.set_position (Player.new 5 [] 11) (Vec3.mk 0 0.1 10)))
    by exact (new_ring_ok 5 [] 11).
  destruct (saveHistory_newest E0 _ 9000 Hok) as [T P].
  rewrite getPositionAt_newest.
  - unfold erin. rewrite P. reflexivity.
  - cbn. lia.
  - unfold erin. rewrite T. lra.
Qed.

Lemma erin_head_hit :
  Room.checkPlayerHit eye zdir (Player.set_position erin (Vec3.mk 0 0.1 10)) 100
  = HitPlayer 9.7 true.
Proof.
  unfold Room.checkPlayerHit.
  cbn [Player.x Player.y Player.z Player.set_position Vec3.x Vec3.y Vec3.z].
  replace (Room.raySphereIntersect _ _ _ _ _) with (Hit 9.7); [reflexivity|].
  symmetry. apply raySphere_hit_iff.
  - unfold norm2, zdir. cbn. lra.
  - split; [|lra]. unfold firstCrossing, onSphere, pointAt, eye, zdir,
      GAME_CONSTANTS.PLAYER_HEIGHT, GAME_CONSTANTS.HEAD_HEIGHT.
    cbn [Vec3.x Vec3.y Vec3.z]. split; [lra|].
    intros t' Ht. destruct (Rle_dec 9.7 t') as [Hle|Hgt]; [exact Hle|]. exfalso.
    assert (H1 : 0 < 9.7 - t') by lra. assert (H2 : 0 < 10.3 - t') by lra.
    pose proof (Rmult_lt_0_compat _ _ H1 H2). nra.
Qed.

Lemma erin_nearest :
  Room.nearestTarget (Room.players room_wall) gunner eye zdir GAME_CONSTANTS.Pistol 9500
  = (Some 5%Z, 9.7, true).
Proof.
  unfold Room.nearestTarget. cbn [Room.players room_wall fold_left].
  unfold Room.tryTarget at 2. cbn [Player.id gunner Player.new Z.eqb Pos.eqb orb].
  unfold Room.tryTarget.
  replace (Player.id erin =? 1)%Z with false by reflexivity.
  replace (Player.isDead erin) with false by reflexivity. cbn [orb].
  rewrite erin_seen. cbv zeta.
  change (Weapon.range GAME_CONSTANTS.Pistol) with 100.
  rewrite erin_head_hit. Rcompare. reflexivity.
Qed.

Lemma wall_hit :
  Physics.hit (Physics.raycast eye zdir 9.7 [wall]) = true /\
  Physics.distance (Physics.raycast eye zdir 9.7 [wall]) = 4.
Proof.
  unfold Physics.raycast.
  rewrite (ceil_eq (9.7 / Physics.step) 20) by (unfold Physics.step; lra).
  change (Z.to_nat 20) with 20%nat.
  unfold Physics.step, eye, zdir, wall. cbn [Vec3.x Vec3.y Vec3.z].
  do 9 (cbn [Physics.march existsb]; unfold Physics.insideObstacle;
        cbn [Obstacle.x Obstacle.z Obstacle.width Obstacle.height Obstacle.depth];
        Rcompare; cbn [andb orb]).
  cbn [Physics.hit Physics.distance INR]. split; [reflexivity | unfold Physics.step; lra].
Qed.

Lemma obstacle_blocks_bullet_witness :
  Room.get (Room.players room_wall) 1 = Some gunner /\
  snd (fst (Room.nearestTarget (Room.players room_wall) gunner
              (Player.getEyePosition gunner)
              (fst (Room.applySpread E0 GAME_CONSTANTS.Pistol
                      (Player.getLookDirection gunner) e0))
              GAME_CONSTANTS.Pistol 9500)) = 9.7 /\
  Physics.distance
    (Physics.raycast (Player.getEyePosition gunner)
       (fst (Room.applySpread E0 GAME_CONSTANTS.Pistol (Player.getLookDirection gunner) e0))
       9.7 (Room.obstacles room_wall)) = 4 /\
  fst (Room.fireBullet E0 room_wall e0 1 GAME_CONSTANTS.Pistol 9500) = room_wall.
Proof.
  assert (Hd : snd (fst (Room.nearestTarget (Room.players room_wall) gunner
                     (Player.getEyePosition gunner)
                     (fst (Room.applySpread E0 GAME_CONSTANTS.Pistol
                             (Player.getLookDirection gunner) e0))
                     GAME_CONSTANTS.Pistol 9500)) = 9.7).
  { rewrite gunner_aim. change (Player.getEyePosition gunner) with eye.
    now rewrite erin_nearest. }
  destruct wall_hit as [Hh Hdist].
  pose proof (obstacle_blocks_bullet E0 room_wall e0 1 gunner GAME_CONSTANTS.Pistol 9500
                eq_refl) as H.
  cbv zeta in H. rewrite Hd, gunner_aim in H.
  change (Player.getEyePosition gunner) with eye in H.
  change (Room.obstacles room_wall) with [wall] in H.
  rewrite Hh, Hdist in H.
  destruct (H eq_refl ltac:(lra)) as (H1 & _).
  split; [reflexivity|]. split; [exact Hd|]. split; [|exact H1].
  rewrite gunner_aim. exact Hdist.
Defined.

(** * Further properties *)

(** X1. Writing a sample into a well-formed history ring (four arrays of
    300 slots, head within them, size at most 300, as [Player.new] makes
    it) leaves it well-formed, with the size grown by one until the ring is
    full; the sample written is the newest, and every older sample moves
    one place back.  When, in addition, the stored timestamps are in order
    and the timestamp written is not before the newest one stored, the
    timestamps stay in order. *)
Theorem saveHistory_keeps_ring :
  forall (E : Env) (p : Player.t) (ts : R),
    ring_ok p ->
    ring_ok (Player.saveHistory E p ts) /\
    Player.historySize (Player.saveHistory E p ts)
    = Z.min (Player.historySize p + 1) Player.HISTORY_CAPACITY /\
    Player.historyHead (Player.saveHistory E p ts)
    = ((Player.historyHead p + 1) mod Player.HISTORY_CAPACITY)%Z /\
    timeOf (Player.saveHistory E p ts) 0 = ts /\
    posOf (Player.saveHistory E p ts) 0
    = Vec3.mk (fround E (Player.x p)) (fround E (Player.y p)) (fround E (Player.z p)) /\
    (forall k, (0 <= k < Player.HISTORY_CAPACITY - 1)%Z ->
       timeOf (Player.saveHistory E p ts) (k + 1) = timeOf p k /\
       posOf (Player.saveHistory E p ts) (k + 1) = posOf p k) /\
    (non_decreasing p ->
     ((0 < Player.historySize p)%Z -> timeOf p 0 <= ts) ->
     non_decreasing (Player.saveHistory E p ts)).
Proof.
  intros E p ts Hok.
  destruct (saveHistory_newest E p ts Hok) as [T P].
  split; [now apply saveHistory_ring_ok|].
  split.
  { unfold Player.saveHistory. cbn [Player.historySize].
    destruct Hok as (_ & _ & _ & _ & _ & Hsz).
    destruct (Player.historySize p <? Player.HISTORY_CAPACITY)%Z eqn:Hlt.
    - apply Z.ltb_lt in Hlt. lia.
    - apply Z.ltb_ge in Hlt. lia. }
  split; [reflexivity|].
  split; [exact T|]. split; [exact P|].
  split; [intros k Hk; now apply saveHistory_older|].
  intros Hs Hts. now apply saveHistory_non_decreasing.
Qed.

(** The second sample of [carol]: written at 2000 ms at (4, 0, 8) over the
    sample of 1000 ms at the origin, which moves one place back. *)
Lemma saveHistory_keeps_ring_witness :
  ring_ok (Player.set_position carol0 (Vec3.mk 4 0 8)) /\
  Player.historySize (Player.set_position carol0 (Vec3.mk 4 0 8)) = 1%Z /\
  timeOf (Player.set_position carol0 (Vec3.mk 4 0 8)) 0 = 1000 /\
  ring_ok carol /\
  Player.historySize carol = 2%Z /\
  timeOf carol 0 = 2000 /\
  posOf carol 0 = Vec3.mk 4 0 8 /\
  timeOf carol 1 = 1000 /\
  posOf carol 1 = Vec3.mk 0 0 0 /\
  non_decreasing carol.
Proof.
  destruct (saveHistory_newest E0 _ 1000 (new_ring_ok 3 [] 9)) as [T1 P1].
  assert (Hnd : non_decreasing (Player.set_position carol0 (Vec3.mk 4 0 8))).
  { intros k Hk Hlt. cbn in Hlt. lia. }
  destruct (saveHistory_keeps_ring E0 (Player.set_position carol0 (Vec3.mk 4 0 8)) 2000
              carol0_ring_ok) as (Hok & Hsz & _ & T & P & Hold & Hord).
  destruct (Hold 0%Z ltac:(unfold Player.HISTORY_CAPACITY; lia)) as [T0 P0].
  change (0 + 1)%Z with 1%Z in T0, P0.
  split; [exact carol0_ring_ok|]. split; [reflexivity|].
  split; [exact T1|]. split; [exact Hok|]. split; [reflexivity|].
  split; [exact T|]. split; [exact P|].
  split; [unfold carol; rewrite T0; exact T1|].
  split; [unfold carol; rewrite P0; exact P1|].
  apply Hord; [exact Hnd|]. intros _.
  change (timeOf (Player.set_position carol0 (Vec3.mk 4 0 8)) 0)
    with (timeOf (Player.saveHistory E0 (Player.new 3 [] 9) 1000) 0).
  rewrite T1. lra.
Defined.

(** One physics step on numbers leaves the player inside the map square
    [|x|, |z| <= MAP_SIZE/2 - PLAYER_RADIUS], whatever the obstacles; it
    never takes a player standing at or above the ground below it; and
    [grounded] is reported exactly when the candidate height
    [y + (vy - GRAVITY * dt) * dt] is at or below the ground, in which case
    the player is put on the ground with no vertical velocity. *)
Lemma applyPhysics_bounds :
  forall (position velocity : Vec3.t) (deltaTime : R) (obstacles : list Obstacle.t),
    let res := Physics.applyPhysics position velocity deltaTime obstacles in
    let halfMap := GAME_CONSTANTS.MAP_SIZE / 2 - GAME_CONSTANTS.PLAYER_RADIUS in
    - halfMap <= Vec3.x (Physics.position res) <= halfMap /\
    - halfMap <= Vec3.z (Physics.position res) <= halfMap /\
    (0 <= Vec3.y position -> 0 <= Vec3.y (Physics.position res)) /\
    (Physics.grounded res = true <->
     Vec3.y position
     + (Vec3.y velocity - GAME_CONSTANTS.GRAVITY * deltaTime) * deltaTime <= 0) /\
    (Physics.grounded res = true ->
     Vec3.y (Physics.position res) = 0 /\ Vec3.y (Physics.velocity res) = 0).
Proof.
  intros position velocity deltaTime obstacles res halfMap.
  assert (Hh : 0 <= halfMap).
  { unfold halfMap, GAME_CONSTANTS.MAP_SIZE, GAME_CONSTANTS.PLAYER_RADIUS. lra. }
  assert (Hclamp : forall v, - halfMap <= Rmax (- halfMap) (Rmin halfMap v) <= halfMap).
  { intros v. split; [apply Rmax_l|].
    apply Rmax_lub; [lra | apply Rmin_l]. }
  subst res. unfold Physics.applyPhysics, Physics.getGroundHeight.
  destruct (Physics.checkCollision _ _ _ _ _ obstacles);
    destruct (Physics.checkCollision _ _ _ _ _ obstacles);
    cbv zeta.
  all: destruct (Rle_dec (Vec3.y position
         + (Vec3.y velocity - GAME_CONSTANTS.GRAVITY * deltaTime) * deltaTime) 0)
         as [Hle|Hgt].
  all: try (replace (Vec3.y position
              + (Vec3.y velocity - GAME_CONSTANTS.GRAVITY * deltaTime) * deltaTime <=? 0)
              with true by (symmetry; apply Rleb_true; exact Hle)).
  all: try (replace (Vec3.y position
              + (Vec3.y velocity - GAME_CONSTANTS.GRAVITY * deltaTime) * deltaTime <=? 0)
              with false by (symmetry; apply Rleb_false; lra)).
  all: try destruct (Physics.checkCollision _ _ _ _ _ obstacles).
  all: cbn [Physics.position Physics.velocity Physics.grounded Vec3.x Vec3.y Vec3.z].
  all: (split; [apply Hclamp|]); (split; [apply Hclamp|]).
  all: split; [intros Hy; lra|].
  all: split; [split; intros H; try discriminate; try reflexivity; try lra; try exact Hle
              | intros H; try discriminate; split; reflexivity].
Qed.

(** The marching loop reports either no hit and [maxDistance], or a hit at
    [j * step] for a loop index [j] in [[i, i + n)]. *)
Lemma march_distance (n i : nat) (x y z dx dy dz maxDistance : R)
    (obstacles : list Obstacle.t) :
  let h := Physics.march n i x y z dx dy dz maxDistance obstacles in
  (Physics.hit h = false /\ Physics.distance h = maxDistance) \/
  (Physics.hit h = true /\
   exists j, (i <= j < i + n)%nat /\ Physics.distance h = INR j * Physics.step).
Proof.
  revert i x y z. induction n as [|n IH]; intros i x y z; cbn [Physics.march].
  - left. split; reflexivity.
  - cbv zeta.
    destruct (y + dy <? 0).
    + right. split; [reflexivity|]. exists i. split; [lia|reflexivity].
    + destruct (existsb _ obstacles).
      * right. split; [reflexivity|]. exists i. split; [lia|reflexivity].
      * destruct (IH (S i) (x + dx) (y + dy) (z + dz)) as [H|[H (j & Hj & Hd)]].
        -- left. exact H.
        -- right. split; [exact H|]. exists j. split; [lia|exact Hd].
Qed.

Lemma ceil_spec (r : R) : IZR (ceil r) - 1 < r <= IZR (ceil r).
Proof.
  unfold ceil. destruct (archimed (- r)) as [H1 H2].
  rewrite minus_IZR. lra.
Qed.

(** X3. The ray march against obstacles reports either no hit, with the
    distance [maxDistance] it was given, or a hit at [j * 0.5] where [j]
    is the index (from 0) of the loop iteration that found it, and then
    the distance reported is below [maxDistance]: in [handleShoot] the test
    [obstacleHit.hit && obstacleHit.distance < hitDistance] holds
    whenever the march reports a hit. *)
Theorem raycast_reports_step_index :
  forall (origin direction : Vec3.t) (maxDistance : R) (obstacles : list Obstacle.t),
    let h := Physics.raycast origin direction maxDistance obstacles in
    (Physics.hit h = false /\ Physics.distance h = maxDistance) \/
    (Physics.hit h = true /\
     (exists j, (Z.of_nat j < ceil (maxDistance / Physics.step))%Z /\
                Physics.distance h = INR j * Physics.step) /\
     0 <= Physics.distance h < maxDistance).
Proof.
  intros origin direction maxDistance obstacles h. subst h.
  unfold Physics.raycast. cbv zeta.
  destruct (march_distance (Z.to_nat (ceil (maxDistance / Physics.step))) 0
              (Vec3.x origin) (Vec3.y origin) (Vec3.z origin)
              (Vec3.x direction * Physics.step) (Vec3.y direction * Physics.step)
              (Vec3.z direction * Physics.step) maxDistance obstacles)
    as [H|[H (j & Hj & Hd)]].
  - left. exact H.
  - right. split; [exact H|].
    assert (Hjz : (Z.of_nat j < ceil (maxDistance / Physics.step))%Z) by lia.
    split; [exists j; split; [exact Hjz | exact Hd]|].
    rewrite Hd. pose proof (ceil_spec (maxDistance / Physics.step)) as [Hc _].
    assert (Hle : IZR (Z.of_nat j) <= IZR (ceil (maxDistance / Physics.step)) - 1).
    { rewrite <- minus_IZR. apply IZR_le. lia. }
    rewrite <- INR_IZR_INZ in Hle.
    pose proof (pos_INR j) as Hpos.
    unfold Physics.step in *. lra.
Qed.

(** For a timestamp that is a number, the rewind time handed to
    [handleShoot] for an input with the shoot flag is the timestamp clamped to
    [[now - MAX_LAG_COMPENSATION, now]], [now] being the server clock read
    for that input: it is the timestamp itself when that lies in the
    window, [now - 400] when it is older and [now] when it is in the
    future. *)
Lemma applyInput_shoot_time :
  forall (E : Env) (dt : R) (pid : Z) (r : Room.t) (e : Eff) (input : InputData.t)
         (player : Player.t),
    Room.get (Room.players r) pid = Some player ->
    InputData.shoot input = true ->
    let now := now_at E (clk e) in
    let ts := InputData.timestamp input in
    exists shootTime,
      now - CONFIG.MAX_LAG_COMPENSATION <= shootTime <= now /\
      (now - CONFIG.MAX_LAG_COMPENSATION <= ts <= now -> shootTime = ts) /\
      (ts < now - CONFIG.MAX_LAG_COMPENSATION ->
       shootTime = now - CONFIG.MAX_LAG_COMPENSATION) /\
      (now < ts -> shootTime = now) /\
      Room.applyInput E dt pid (r, e) input
      = Room.handleShoot E
          (Room.set_players r
             (Room.put (Room.players r)
                (Player.processInput player input dt (Room.obstacles r))))
          (snd (dateNow E e)) pid shootTime.
Proof.
  intros E dt pid r e input player Hget Hshoot now ts.
  unfold Room.applyInput. rewrite Hget, Hshoot. unfold dateNow.
  cbn [snd]. fold now ts. unfold CONFIG.MAX_LAG_COMPENSATION.
  destruct (Rlt_dec ts (now - 400)) as [Hold|Hold].
  - replace (ts <? now - 400) with true by (symmetry; apply Rltb_true; exact Hold).
    replace (now - 400 >? now) with false by (symmetry; apply Rltb_false; lra).
    exists (now - 400). repeat split; try lra; intros; lra.
  - replace (ts <? now - 400) with false by (symmetry; apply Rltb_false; lra).
    destruct (Rlt_dec now ts) as [Hnew|Hnew].
    + replace (ts >? now) with true by (symmetry; apply Rltb_true; exact Hnew).
      exists now. repeat split; try lra; intros; lra.
    + replace (ts >? now) with false by (symmetry; apply Rltb_false; lra).
      exists ts. repeat split; try lra; intros; lra.
Qed.

(** Every id in use is below the next id the room will hand out. *)
Definition ids_below (n : Z) (ps : list Player.t) : Prop :=
  Forall (fun q => (Player.id q < n)%Z) ps.

Lemma insert_fresh (ps : list Player.t) (p : Player.t) :
  ~ In (Player.id p) (map Player.id ps) -> Room.insert ps p = ps ++ [p].
Proof.
  induction ps as [|q tl IH]; intros Hnin; [reflexivity|].
  cbn [Room.insert map In app] in *.
  destruct (Player.id q =? Player.id p)%Z eqn:Heq.
  - apply Z.eqb_eq in Heq. tauto.
  - rewrite IH by tauto. reflexivity.
Qed.

Lemma ids_below_fresh (n : Z) (ps : list Player.t) :
  ids_below n ps -> ~ In n (map Player.id ps).
Proof.
  intros H Hin. apply in_map_iff in Hin. destruct Hin as (q & Hq & Hin).
  unfold ids_below in H. rewrite Forall_forall in H. specialize (H q Hin). lia.
Qed.

Lemma start_fields (r : Room.t) :
  Room.players (Room.start r) = Room.players r /\
  Room.nextPlayerId (Room.start r) = Room.nextPlayerId r /\
  Room.tickInterval (Room.start r) = true.
Proof. unfold Room.start. destruct (Room.tickInterval r) eqn:H; cbn; auto. Qed.

(** X5. [addPlayer] refuses when the room is full and leaves everything as
    it was.  Otherwise it hands out [nextPlayerId] and increments it,
    records the id and the room in the socket data, spawns the player in
    the air ([y = 5]) with full health, and appends it to the players; ids
    handed out this way are distinct, the room never holds more than
    [maxPlayers] players, and the first player starts the loop. *)
Theorem addPlayer_capacity_and_fresh_id :
  forall (E : Env) (r : Room.t) (name : list Byte.byte) (ws : nat) (data : SocketData)
         (e : Eff),
    (Room.isFull r = true -> Room.addPlayer E r name ws data e = (r, None, data, e)) /\
    (Room.isFull r = false ->
     ids_below (Room.nextPlayerId r) (Room.players r) ->
     NoDup (map Player.id (Room.players r)) ->
     exists r' player e',
       Room.addPlayer E r name ws data e
       = (r', Some player, mkSocketData (Room.nextPlayerId r) (Some (Room.id r)), e') /\
       Player.id player = Room.nextPlayerId r /\
       Player.ws player = Some ws /\
       Player.y player = 5 /\
       Player.health player = GAME_CONSTANTS.MAX_HEALTH /\
       Player.isDead player = false /\
       Room.players r' = Room.players r ++ [player] /\
       Room.nextPlayerId r' = (Room.nextPlayerId r + 1)%Z /\
       ids_below (Room.nextPlayerId r') (Room.players r') /\
       NoDup (map Player.id (Room.players r')) /\
       (Z.of_nat (length (Room.players r')) <= Room.maxPlayers r)%Z /\
       (Room.players r = [] -> Room.tickInterval r' = true)).
Proof.
  intros E r name ws data e. unfold Room.isFull, Room.addPlayer. split.
  - intros ->. reflexivity.
  - intros Hfull Hbelow Hnd. rewrite Hfull.
    unfold FreeForAllMode.onPlayerJoin, random. cbn [fst snd].
    set (player := Player.spawn (Player.new (Room.nextPlayerId r) name ws) _ _).
    assert (Hid : Player.id player = Room.nextPlayerId r) by reflexivity.
    assert (Hins : Room.insert (Room.players r) player = Room.players r ++ [player]).
    { apply insert_fresh. rewrite Hid. now apply ids_below_fresh. }
    cbn [Room.players Room.set_players Room.set_nextPlayerId Room.id].
    rewrite Hins.
    set (r1 := Room.set_players (Room.set_nextPlayerId r (Room.nextPlayerId r + 1)) _).
    destruct (start_fields r1) as (S1 & S2 & S3).
    assert (Hbelow' : ids_below (Room.nextPlayerId r + 1) (Room.players r ++ [player])).
    { unfold ids_below in *. apply Forall_app. split.
      - eapply Forall_impl; [|exact Hbelow]. cbv beta. intros q Hq. lia.
      - constructor; [rewrite Hid; lia | constructor]. }
    assert (Hnd' : NoDup (map Player.id (Room.players r ++ [player]))).
    { rewrite map_app. cbn [map]. rewrite Hid.
      apply NoDup_app; [exact Hnd | repeat constructor; intros [] |].
      intros x Hx [Hin|[]]. subst x. now apply (ids_below_fresh _ _ Hbelow). }
    assert (Hlen : (Z.of_nat (length (Room.players r ++ [player])) <= Room.maxPlayers r)%Z).
    { rewrite length_app. cbn [length]. rewrite Z.geb_leb in Hfull.
      apply Z.leb_gt in Hfull. lia. }
    destruct (length (Room.players r ++ [player]) =? 1)%nat eqn:Hone.
    + exists (Room.start r1), player. eexists. split; [reflexivity|].
      rewrite S1, S2, S3. subst r1. cbn [Room.players Room.nextPlayerId Room.set_players
        Room.set_nextPlayerId].
      repeat (split; [first [reflexivity | assumption]|]). reflexivity.
    + exists r1, player. eexists. split; [reflexivity|].
      subst r1. cbn [Room.players Room.nextPlayerId Room.set_players
        Room.set_nextPlayerId].
      repeat (split; [first [reflexivity | assumption]|]).
      intros Hempty. rewrite Hempty in Hone. discriminate.
Qed.

(** ** The generated map *)

Lemma random_step_range (s : Z) : (0 <= Physics.random_step s <= 2147483647)%Z.
Proof.
  unfold Physics.random_step.
  change 2147483647%Z with (Z.ones 31). rewrite Z.land_ones by lia.
  pose proof (Z.mod_pos_bound
                (Physics.toInt32
                   (Physics.round_binary64 (Physics.round_binary64 (s * 1103515245) + 12345)))
                (2 ^ 31) ltac:(lia)) as H.
  change (Z.ones 31) with (2 ^ 31 - 1)%Z. lia.
Qed.

Lemma random_value_range (s : Z) :
  0 <= Physics.random_value (Physics.random_step s) <= 1.
Proof.
  pose proof (random_step_range s) as [H0 H1].
  apply IZR_le in H0, H1. unfold Physics.random_value.
  split.
  - apply Rmult_le_pos; [exact H0|]. apply Rlt_le, Rinv_0_lt_compat. lra.
  - apply Rmult_le_reg_r with 2147483647; [lra|]. field_simplify; lra.
Qed.

(** A box of the sizes the generator draws, lying inside the map square. *)
Definition box_ok (o : Obstacle.t) : Prop :=
  1 <= Obstacle.width o <= 5 /\
  2 <= Obstacle.height o <= 8 /\
  1 <= Obstacle.depth o <= 5 /\
  - (GAME_CONSTANTS.MAP_SIZE / 2) <= Obstacle.x o - Obstacle.width o / 2 /\
  Obstacle.x o + Obstacle.width o / 2 <= GAME_CONSTANTS.MAP_SIZE / 2 /\
  - (GAME_CONSTANTS.MAP_SIZE / 2) <= Obstacle.z o - Obstacle.depth o / 2 /\
  Obstacle.z o + Obstacle.depth o / 2 <= GAME_CONSTANTS.MAP_SIZE / 2.

Lemma boxes_ok (n : nat) (s : Z) : Forall box_ok (fst (Physics.boxes n s)).
Proof.
  revert s. induction n as [|n IH]; intros s; cbn [Physics.boxes]; [constructor|].
  cbv zeta.
  set (s1 := Physics.random_step s). set (s2 := Physics.random_step s1).
  set (s3 := Physics.random_step s2). set (s4 := Physics.random_step s3).
  set (s5 := Physics.random_step s4).
  specialize (IH s5). destruct (Physics.boxes n s5) as [rest s']. cbn [fst] in *.
  constructor; [|exact IH].
  pose proof (random_value_range s) as R1. fold s1 in R1.
  pose proof (random_value_range s1) as R2. fold s2 in R2.
  pose proof (random_value_range s2) as R3. fold s3 in R3.
  pose proof (random_value_range s3) as R4. fold s4 in R4.
  pose proof (random_value_range s4) as R5. fold s5 in R5.
  unfold box_ok, GAME_CONSTANTS.MAP_SIZE.
  cbn [Obstacle.x Obstacle.z Obstacle.width Obstacle.height Obstacle.depth].
  generalize dependent (Physics.random_value s1).
  generalize dependent (Physics.random_value s2).
  generalize dependent (Physics.random_value s3).
  generalize dependent (Physics.random_value s4).
  generalize dependent (Physics.random_value s5).
  intros r5 R5 r4 R4 r3 R3 r2 R2 r1 R1.
  repeat split; nra.
Qed.

(** X6. Whatever the seed, the map is 40 boxes followed by the four walls;
    every box has width and depth in [[1, 5]] and height in [[2, 8]] and
    lies within the map square [|x|, |z| <= MAP_SIZE / 2]; every draw is
    in [[0, 1]]. *)
Theorem generateObstacles_boxes_in_map :
  forall seed : Z,
    Forall box_ok (firstn 40 (Physics.generateObstacles seed)) /\
    skipn 40 (Physics.generateObstacles seed)
    = [Physics.northWall; Physics.southWall; Physics.eastWall; Physics.westWall] /\
    (forall s, 0 <= Physics.random_value (Physics.random_step s) <= 1).
Proof.
  intros seed.
  assert (Hlen : length (fst (Physics.boxes GAME_CONSTANTS.OBSTACLE_COUNT seed)) = 40%nat).
  { rewrite boxes_spec. cbn [fst]. now rewrite length_map, length_seq. }
  unfold Physics.generateObstacles. split; [|split].
  - rewrite <- Hlen, firstn_app, Nat.sub_diag, firstn_all. cbn [firstn].
    rewrite app_nil_r. apply boxes_ok.
  - rewrite <- Hlen, skipn_app, Nat.sub_diag, skipn_all. reflexivity.
  - apply random_value_range.
Qed.

(** X7. A hit that brings a living target's health to 0 or below: the
    target is left dead with health 0, one more death and a respawn
    scheduled [RESPAWN_TIME] after the clock reading of [onPlayerDeath];
    the shooter gains one kill and 2 points for a headshot, 1 otherwise;
    one [HitEvent] carrying the damage (doubled for a headshot) is
    appended; and the mode is told of the kill and then of the death. *)
Theorem kill_scores_and_schedules_respawn :
  forall (E : Env) (r : Room.t) (e : Eff) (shooterId targetId : Z) (weapon : Weapon.t)
         (isHeadshot : bool) (shooter target : Player.t),
    shooterId <> targetId ->
    Room.get (Room.players r) shooterId = Some shooter ->
    Room.get (Room.players r) targetId = Some target ->
    Player.isDead target = false ->
    let damage := (if isHeadshot then Weapon.damage weapon * 2 else Weapon.damage weapon)%Z in
    (Player.health target - damage <= 0)%Z ->
    let res := Room.applyDamage E r e shooterId targetId weapon isHeadshot in
    exists shooter' target',
      Room.get (Room.players (fst res)) shooterId = Some shooter' /\
      Room.get (Room.players (fst res)) targetId = Some target' /\
      Player.score shooter' = (Player.score shooter + (if isHeadshot then 2 else 1))%Z /\
      Player.kills shooter' = (Player.kills shooter + 1)%Z /\
      Player.health target' = 0%Z /\
      Player.isDead target' = true /\
      Player.deaths target' = (Player.deaths target + 1)%Z /\
      Player.respawnTime target' = now_at E (clk e) + GAME_CONSTANTS.RESPAWN_TIME /\
      Room.snapshotHits (fst res)
      = Room.snapshotHits r ++ [HitEvent.mk shooterId targetId damage isHeadshot] /\
      calls (snd res)
      = calls e ++ [OnPlayerKill shooterId targetId isHeadshot;
                    OnPlayerDeath targetId shooterId].
Proof.
  intros E r e shooterId targetId weapon isHeadshot shooter target Hne Hs Ht Halive
         damage Hkill res.
  pose proof (get_id _ _ _ Hs) as Hsid. pose proof (get_id _ _ _ Ht) as Htid.
  subst res. unfold Room.applyDamage. rewrite Ht. fold damage.
  unfold Player.takeDamage. rewrite Halive.
  replace (Player.health target - damage <=? 0)%Z with true
    by (symmetry; apply Z.leb_le; exact Hkill).
  set (dead := Player.set_combat target 0 true (Player.deaths target + 1)).
  assert (Hdid : Player.id dead = targetId) by exact Htid.
  cbn [Room.players Room.set_players Room.set_snapshotHits].
  rewrite get_put_neq by (rewrite Hdid; exact Hne). rewrite Hs.
  unfold FreeForAllMode.onPlayerKill, FreeForAllMode.onPlayerDeath, dateNow, call.
  cbn [Room.players Room.set_players Room.set_snapshotHits fst snd calls clk rng out].
  set (killer := Player.set_stats shooter _ _ _).
  set (victim := Player.set_respawnTime dead _).
  assert (Hkid : Player.id killer = shooterId) by exact Hsid.
  assert (Hvid : Player.id victim = targetId) by exact Htid.
  exists killer, victim.
  split.
  { rewrite get_put_neq by (rewrite Hvid; exact Hne).
    rewrite <- Hkid. apply get_put_eq with shooter.
    rewrite Hkid, get_put_neq by (rewrite Hdid; exact Hne). exact Hs. }
  split.
  { rewrite <- Hvid. apply get_put_eq with dead.
    rewrite Hvid, get_put_neq by (rewrite Hkid; congruence).
    rewrite <- Hdid. apply get_put_eq with target. rewrite Hdid. exact Ht. }
  rewrite Hsid, Hdid, <- app_assoc.
  repeat (split; [reflexivity|]). reflexivity.
Qed.

Definition erin_weak : Player.t :=
  Player.set_combat (Player.new 5 [] 11) 20 false 0.
Definition room_duel : Room.t :=
  Room.mk lobby 16 [gunner; erin_weak] (FreeForAllMode.mk 0 0 0) [] 0 true [] 60 6.

Lemma kill_scores_and_schedules_respawn_witness :
  exists shooter' target',
    Room.get (Room.players
      (fst (Room.applyDamage E0 room_duel e0 1 5 GAME_CONSTANTS.Pistol true))) 1
    = Some shooter' /\
    Room.get (Room.players
      (fst (Room.applyDamage E0 room_duel e0 1 5 GAME_CONSTANTS.Pistol true))) 5
    = Some target' /\
    Player.score shooter' = 2%Z /\
    Player.kills shooter' = 1%Z /\
    Player.isDead target' = true /\
    Player.respawnTime target' = 10000 + 2000.
Proof.
  destruct (kill_scores_and_schedules_respawn E0 room_duel e0 1 5 GAME_CONSTANTS.Pistol
              true gunner erin_weak ltac:(lia) eq_refl eq_refl eq_refl
              ltac:(cbn; lia))
    as (s' & t' & H1 & H2 & H3 & H4 & _ & H6 & _ & H8 & _).
  exists s', t'. repeat split; assumption.
Defined.

(** X8. One bullet appends at most one [HitEvent]; its damage is the
    weapon's damage, or twice that for a headshot, and the target's health
    drops by no more than that. *)
Theorem bullet_damage_bound :
  forall (E : Env) (r : Room.t) (e : Eff) (shooterId : Z) (weapon : Weapon.t)
         (rewindTime : R),
    let res := Room.fireBullet E r e shooterId weapon rewindTime in
    Room.snapshotHits (fst res) = Room.snapshotHits r \/
    exists (targetId : Z) (headshot : bool),
      Room.snapshotHits (fst res)
      = Room.snapshotHits r
        ++ [HitEvent.mk shooterId targetId
              (if headshot then Weapon.damage weapon * 2 else Weapon.damage weapon)%Z
              headshot].
Proof.
  intros E r e shooterId weapon rewindTime res. subst res.
  unfold Room.fireBullet.
  destruct (Room.get (Room.players r) shooterId) as [shooter|]; [|left; reflexivity].
  destruct (Room.applySpread E weapon (Player.getLookDirection shooter) e) as [dir e1].
  destruct (Room.nearestTarget (Room.players r) shooter (Player.getEyePosition shooter)
              dir weapon rewindTime) as [[hitPlayer hitDistance] isHeadshot].
  destruct (Physics.hit _ && _); [left; reflexivity|].
  destruct hitPlayer as [targetId|]; [|left; reflexivity].
  unfold Room.applyDamage.
  destruct (Room.get (Room.players r) targetId) as [target|]; [|left; reflexivity].
  destruct (Player.takeDamage target _ shooterId) as [killed target'].
  right. exists targetId, isHeadshot.
  destruct killed; [|reflexivity].
  cbn [Room.players Room.set_players Room.set_snapshotHits].
  destruct (Room.get (Room.put (Room.players r) target') shooterId) as [s|];
    [|reflexivity].
  unfold FreeForAllMode.onPlayerKill, FreeForAllMode.onPlayerDeath, dateNow.
  reflexivity.
Qed.

Lemma filter_none {A : Type} (f : A -> bool) (l : list A) :
  Forall (fun a => f a = false) l -> filter f l = [].
Proof.
  induction 1 as [|a tl Ha _ IH]; cbn [filter]; [reflexivity|]. now rewrite Ha.
Qed.

(** The running maximum and the winners of the loop of [getWinners]. *)
Definition maxScore (ps : list Player.t) : Z :=
  fold_left Z.max (map Player.score ps) (-1)%Z.

Lemma getWinners_fold (ps pre : list Player.t) (m : Z) :
  Forall (fun q => (Player.score q <= m)%Z) pre ->
  snd (fold_left
         (fun '((maxScore, winners) : Z * list Player.t) (player : Player.t) =>
            if (Player.score player >? maxScore)%Z then (Player.score player, [player])
            else if (Player.score player =? maxScore)%Z then (maxScore, winners ++ [player])
            else (maxScore, winners))
         ps (m, filter (fun q => (Player.score q =? m)%Z) pre))
  = filter (fun q => (Player.score q =? fold_left Z.max (map Player.score ps) m)%Z)
      (pre ++ ps).
Proof.
  revert pre m. induction ps as [|p tl IH]; intros pre m Hpre.
  - cbn. now rewrite app_nil_r.
  - cbn [fold_left map].
    replace (pre ++ p :: tl) with ((pre ++ [p]) ++ tl) by now rewrite <- app_assoc.
    destruct (Player.score p >? m)%Z eqn:Hgt.
    + rewrite Z.gtb_ltb in Hgt. apply Z.ltb_lt in Hgt.
      replace (Z.max m (Player.score p)) with (Player.score p) by lia.
      rewrite <- IH.
      * f_equal. f_equal. rewrite filter_app. cbn [filter]. rewrite Z.eqb_refl.
        replace (filter _ pre) with (@nil Player.t); [reflexivity|].
        symmetry. apply filter_none.
        eapply Forall_impl; [|exact Hpre]. cbv beta. intros q Hq.
        apply Z.eqb_neq. lia.
      * apply Forall_app. split.
        -- eapply Forall_impl; [|exact Hpre]. cbv beta. intros q Hq. lia.
        -- constructor; [lia|constructor].
    + rewrite Z.gtb_ltb in Hgt. apply Z.ltb_ge in Hgt.
      replace (Z.max m (Player.score p)) with m by lia.
      destruct (Player.score p =? m)%Z eqn:Heq.
      * rewrite <- IH.
        -- f_equal. f_equal. rewrite filter_app. cbn [filter]. now rewrite Heq.
        -- apply Forall_app. split; [exact Hpre|]. constructor; [lia|constructor].
      * rewrite <- IH.
        -- f_equal. f_equal. rewrite filter_app. cbn [filter]. rewrite Heq.
           now rewrite app_nil_r.
        -- apply Forall_app. split; [exact Hpre|]. constructor; [lia|constructor].
Qed.

(** X9. [getWinners] returns, in player order, exactly the players whose
    score equals the highest score in the room; with the default mode (no
    score limit, no time limit) [shouldEndGame] never reports the end of
    the game. *)
Theorem getWinners_are_top_scorers :
  forall (E : Env) (m : FreeForAllMode.t) (ps : list Player.t) (e : Eff),
    FreeForAllMode.getWinners ps
    = filter (fun q => (Player.score q =? maxScore ps)%Z) ps /\
    (forall q, In q ps -> (Player.score q <= maxScore ps)%Z) /\
    (ps <> [] -> Forall (fun q => (0 <= Player.score q)%Z) ps ->
     FreeForAllMode.getWinners ps <> []) /\
    (FreeForAllMode.scoreLimit m = 0%Z -> FreeForAllMode.timeLimit m = 0 ->
     FreeForAllMode.shouldEndGame E m ps e = (false, e)).
Proof.
  intros E m ps e.
  assert (Hmax : forall (l : list Player.t) (a : Z),
            (a <= fold_left Z.max (map Player.score l) a)%Z /\
            forall q, In q l -> (Player.score q <= fold_left Z.max (map Player.score l) a)%Z).
  { induction l as [|p tl IH]; intros a; cbn [map fold_left].
    - split; [lia | intros q []].
    - destruct (IH (Z.max a (Player.score p))) as [H1 H2]. split; [lia|].
      intros q [->|Hq]; [lia | now apply H2]. }
  assert (Hreach : forall (l : list Player.t) (a : Z),
            fold_left Z.max (map Player.score l) a = a \/
            exists q, In q l /\ Player.score q = fold_left Z.max (map Player.score l) a).
  { induction l as [|p tl IH]; intros a; cbn [map fold_left]; [now left|].
    destruct (IH (Z.max a (Player.score p))) as [H|(q & Hq & Hs)].
    - destruct (Z.max_spec a (Player.score p)) as [[_ Hm]|[_ Hm]].
      + right. exists p. split; [now left | congruence].
      + left. congruence.
    - right. exists q. split; [now right | exact Hs]. }
  assert (Hw : FreeForAllMode.getWinners ps
               = filter (fun q => (Player.score q =? maxScore ps)%Z) ps).
  { unfold FreeForAllMode.getWinners, maxScore.
    exact (getWinners_fold ps [] (-1)%Z (Forall_nil _)). }
  split; [exact Hw|split; [|split]].
  - intros q Hq. unfold maxScore. now apply (Hmax ps (-1)%Z).
  - intros Hne Hpos Hnil. rewrite Hw in Hnil. unfold maxScore in Hnil.
    destruct (Hreach ps (-1)%Z) as [H|(q & Hq & Hs)].
    + destruct ps as [|p tl]; [congruence|].
      destruct (Hmax (p :: tl) (-1)%Z) as [_ H2]. specialize (H2 p (or_introl eq_refl)).
      rewrite Forall_forall in Hpos. specialize (Hpos p (or_introl eq_refl)). lia.
    + assert (Hin : In q (filter
                (fun q0 => (Player.score q0 =? fold_left Z.max (map Player.score ps) (-1))%Z)
                ps)).
      { apply filter_In. split; [exact Hq|]. apply Z.eqb_eq. exact Hs. }
      rewrite Hnil in Hin. destruct Hin.
  - intros Hs Ht. unfold FreeForAllMode.shouldEndGame. rewrite Hs, Ht.
    cbn [andb]. replace (0 >? 0) with false by (symmetry; apply Rltb_false; lra).
    reflexivity.
Qed.

(** X10. A jump asked for while the player is not grounded changes
    nothing: the result of [processInput] is the same as without the jump
    flag. *)
Theorem jump_needs_ground :
  forall (p : Player.t) (dt : R) (obstacles : list Obstacle.t) (seq : Z)
         (forward backward left right sprint sneak shoot : bool) (weapon : Z)
         (yaw pitch timestamp : R),
    Player.grounded p = false ->
    Player.processInput p
      (InputData.mk seq forward backward left right true sprint sneak shoot weapon
         yaw pitch timestamp) dt obstacles
    = Player.processInput p
        (InputData.mk seq forward backward left right false sprint sneak shoot weapon
           yaw pitch timestamp) dt obstacles.
Proof.
  intros p dt obstacles seq forward backward left right sprint sneak shoot weapon
         yaw pitch timestamp Hg.
  unfold Player.processInput.
  cbn [InputData.jump InputData.seq InputData.forward InputData.backward InputData.left
       InputData.right InputData.sprint InputData.sneak InputData.shoot InputData.weapon
       InputData.yaw InputData.pitch InputData.timestamp].
  rewrite Hg. reflexivity.
Qed.

Lemma jump_needs_ground_witness :
  Player.grounded alice = false /\
  Player.processInput alice
    (InputData.mk 1 true false false false true false false false 0 0 0 9900) (1 / 60) []
  = Player.processInput alice
      (InputData.mk 1 true false false false false false false false 0 0 0 9900) (1 / 60) [].
Proof.
  split; [reflexivity|].
  apply (jump_needs_ground alice (1 / 60) [] 1 true false false false false false false 0
           0 0 9900 eq_refl).
Defined.

(** * The wire format, byte by byte (server/src/protocol.ts and
    client/src/NetworkManager.js) *)

Module Wire.
Import Protocol.

(** What [setUint8] stores for [v]: the byte of [v] modulo 256. *)
Definition byte_of (v : Z) : Byte.byte :=
  match Strings.Byte.of_N (Z.to_N (v mod 256)) with
  | Some b => b
  | None => Byte.x00
  end.

(** What [setUint16] and [setUint32] store with [littleEndian = true]:
    [n] bytes of [v], least significant first. *)
Fixpoint le_bytes (n : nat) (v : Z) : list Byte.byte :=
  match n with
  | O => []
  | S n' => byte_of v :: le_bytes n' (v / 256)
  end.

(** What [setFloat32] and [setFloat64] store for a number, little-endian. *)
Record FloatBytes := mkFloatBytes {
  f32 : R -> list Byte.byte;
  f64 : R -> list Byte.byte
}.

Definition getUint16 (buffer : list Byte.byte) (offset : nat) : result Z :=
  bs <- bytesAt buffer offset 2 ;; Ok (le_value bs).

(** [ServerMessageType]. *)
Definition WELCOME_TYPE : Z := 1.
Definition SNAPSHOT_TYPE : Z := 2.

(** [encodeWelcome]: the eight bytes written to [WELCOME_BUFFER]. *)
Definition encodeWelcome (playerId tickRate mapSeed : Z) : list Byte.byte :=
  [byte_of WELCOME_TYPE] ++ le_bytes 2 playerId ++ [byte_of tickRate]
  ++ le_bytes 4 mapSeed.

(** The 40 bytes [encodeSnapshot] writes for one player and the 6 bytes it
    writes for one hit. *)
Definition encodePlayerState (c : FloatBytes) (p : PlayerState.t) : list Byte.byte :=
  le_bytes 2 (PlayerState.id p)
  ++ f32 c (PlayerState.x p) ++ f32 c (PlayerState.y p) ++ f32 c (PlayerState.z p)
  ++ f32 c (PlayerState.vx p) ++ f32 c (PlayerState.vy p) ++ f32 c (PlayerState.vz p)
  ++ f32 c (PlayerState.yaw p) ++ f32 c (PlayerState.pitch p)
  ++ [byte_of (PlayerState.health p); byte_of (PlayerState.weapon p);
      byte_of (if PlayerState.isShooting p then 1 else 0);
      byte_of (if PlayerState.isDead p then 1 else 0)]
  ++ le_bytes 2 (PlayerState.score p).

Definition encodeHitEvent (h : HitEvent.t) : list Byte.byte :=
  le_bytes 2 (HitEvent.shooterId h) ++ le_bytes 2 (HitEvent.targetId h)
  ++ [byte_of (HitEvent.damage h); byte_of (if HitEvent.headshot h then 1 else 0)].

(** [encodeSnapshot], byte by byte: the slice of the scratch buffer that is
    returned, or the [RangeError] of the first write past its end. *)
Definition encodeSnapshot (c : FloatBytes) (tick : Z) (timestamp : R)
    (players : list PlayerState.t) (hits : list HitEvent.t) (lastProcessedInput : Z)
    : result (list Byte.byte) :=
  if (SNAPSHOT_HEADER_SIZE + PLAYER_STATE_SIZE * Z.of_nat (length players)
      + HIT_EVENT_SIZE * Z.of_nat (length hits) <=? SNAPSHOT_BUFFER_SIZE)%Z
  then Ok ([byte_of SNAPSHOT_TYPE] ++ le_bytes 4 tick ++ f64 c timestamp
           ++ [byte_of (Z.of_nat (length players))]
           ++ [byte_of (Z.of_nat (length hits))]
           ++ le_bytes 4 lastProcessedInput
           ++ flat_map (encodePlayerState c) players
           ++ flat_map encodeHitEvent hits)
  else RangeError.

End Wire.

(** ** The client's side of the protocol (client/src/NetworkManager.js) *)

Module NetworkManager.
Import Protocol Wire.

Record WelcomeMessage := mkWelcomeMessage {
  playerId : Z;
  tickRate : Z;
  mapSeed : Z
}.

(** [handleWelcome]: what is handed to [onWelcome]. *)
Definition handleWelcome (view : list Byte.byte) : result WelcomeMessage :=
  playerId <- getUint16 view 1 ;;
  tickRate <- getUint8 view 3 ;;
  mapSeed <- getUint32 view 4 ;;
  Ok (mkWelcomeMessage playerId tickRate mapSeed).

(** The fields of the class that the decoding of a snapshot reads and
    writes. *)
Record t := mk {
  rtt : R;
  serverTimeOffset : R
}.

(** What is handed to [onSnapshot]. *)
Record WorldSnapshot := mkWorldSnapshot {
  tick : Z;
  timestamp : R;
  players : list PlayerState.t;
  hits : list HitEvent.t;
  lastProcessedInput : Z
}.

(** The two decoding loops of [handleSnapshot], with [n] iterations left:
    the entries decoded and the offset reached. *)
Fixpoint decodePlayers (E : Env) (view : list Byte.byte) (n offset : nat)
    : result (list PlayerState.t * nat) :=
  match n with
  | O => Ok ([], offset)
  | S n' =>
      id <- getUint16 view offset ;;
      x <- getFloat32 E view (offset + 2) ;;
      y <- getFloat32 E view (offset + 6) ;;
      z <- getFloat32 E view (offset + 10) ;;
      vx <- getFloat32 E view (offset + 14) ;;
      vy <- getFloat32 E view (offset + 18) ;;
      vz <- getFloat32 E view (offset + 22) ;;
      yaw <- getFloat32 E view (offset + 26) ;;
      pitch <- getFloat32 E view (offset + 30) ;;
      health <- getUint8 view (offset + 34) ;;
      weapon <- getUint8 view (offset + 35) ;;
      isShooting <- getUint8 view (offset + 36) ;;
      isDead <- getUint8 view (offset + 37) ;;
      score <- getUint16 view (offset + 38) ;;
      rest <- decodePlayers E view n' (offset + 40) ;;
      Ok (PlayerState.mk id x y z vx vy vz yaw pitch health weapon
            (isShooting =? 1)%Z (isDead =? 1)%Z score :: fst rest, snd rest)
  end.

Fixpoint decodeHits (view : list Byte.byte) (n offset : nat)
    : result (list HitEvent.t * nat) :=
  match n with
  | O => Ok ([], offset)
  | S n' =>
      shooterId <- getUint16 view offset ;;
      targetId <- getUint16 view (offset + 2) ;;
      damage <- getUint8 view (offset + 4) ;;
      headshot <- getUint8 view (offset + 5) ;;
      rest <- decodeHits view n' (offset + 6) ;;
      Ok (HitEvent.mk shooterId targetId damage (headshot =? 1)%Z :: fst rest, snd rest)
  end.

(** [handleSnapshot]; [now] is the client's [Date.now()].  The clock offset
    is updated once the server time has been read, also when a later read
    throws. *)
Definition handleSnapshot (E : Env) (nm : t) (now : R) (view : list Byte.byte)
    : t * result WorldSnapshot :=
  match getUint32 view 1 with
  | RangeError => (nm, RangeError)
  | Ok tick =>
      match getFloat64 E view 5 with
      | RangeError => (nm, RangeError)
      | Ok serverTime =>
          let estimatedServerTime := serverTime + rtt nm / 2 in
          let split := estimatedServerTime - now in
          let nm :=
            mk (rtt nm)
               (if Req_dec_T (serverTimeOffset nm) 0 then split
                else serverTimeOffset nm * 0.9 + split * 0.1) in
          (nm,
           playerCount <- getUint8 view 13 ;;
           hitCount <- getUint8 view 14 ;;
           lastProcessedInput <- getUint32 view 15 ;;
           ps <- decodePlayers E view (Z.to_nat playerCount) 19 ;;
           hs <- decodeHits view (Z.to_nat hitCount) (snd ps) ;;
           Ok (mkWorldSnapshot tick serverTime (fst ps) (fst hs) lastProcessedInput))
      end
  end.

(** [sendJoin]: the frame sent for a name, given as the bytes
    [TextEncoder] produces; a [Uint8Array] element keeps the length modulo
    256. *)
Definition sendJoin (nameBytes : list Byte.byte) : list Byte.byte :=
  [byte_of ClientMessageType.JOIN; byte_of (Z.of_nat (length nameBytes))] ++ nameBytes.

(** The flags byte packed by [sendInput]. *)
Definition packFlags (input : InputData.t) : Z :=
  let flags := 0%Z in
  let flags := if InputData.forward input then Z.lor flags 1 else flags in
  let flags := if InputData.backward input then Z.lor flags 2 else flags in
  let flags := if InputData.left input then Z.lor flags 4 else flags in
  let flags := if InputData.right input then Z.lor flags 8 else flags in
  let flags := if InputData.jump input then Z.lor flags 16 else flags in
  let flags := if InputData.sprint input then Z.lor flags 32 else flags in
  let flags := if InputData.sneak input then Z.lor flags 64 else flags in
  let flags := if InputData.shoot input then Z.lor flags 128 else flags in
  flags.

(** [sendInput] on an open socket: the frame sent.  The weapon, the yaw and
    the pitch are written twice; the time written last is
    [getServerTime()], not the input's own timestamp. *)
Definition sendInput (c : FloatBytes) (input : InputData.t) (serverTime : R)
    : list Byte.byte :=
  [byte_of ClientMessageType.INPUT]
  ++ le_bytes 4 (InputData.seq input)
  ++ [byte_of (packFlags input)]
  ++ [byte_of (InputData.weapon input)]
  ++ f32 c (InputData.yaw input)
  ++ f32 c (InputData.pitch input)
  ++ [byte_of (InputData.weapon input)]
  ++ f32 c (InputData.yaw input)
  ++ f32 c (InputData.pitch input)
  ++ f64 c serverTime.

End NetworkManager.

(** ** Bytes and little-endian numbers *)

Section Bytes.
Import Protocol Wire.

Lemma u8_byte_of (v : Z) : u8 (byte_of v) = (v mod 256)%Z.
Proof.
  unfold u8, byte_of.
  pose proof (Z.mod_pos_bound v 256 ltac:(lia)) as Hb.
  destruct (Strings.Byte.of_N (Z.to_N (v mod 256))) as [b|] eqn:Hof.
  - apply Strings.Byte.to_of_N in Hof. rewrite Hof. lia.
  - apply Strings.Byte.of_N_None_iff in Hof. lia.
Qed.

Lemma u8_range (b : Byte.byte) : (0 <= u8 b < 256)%Z.
Proof. unfold u8. pose proof (Strings.Byte.to_N_bounded b). lia. Qed.

Lemma length_le_bytes (n : nat) (v : Z) : length (le_bytes n v) = n.
Proof. revert v. induction n as [|n IH]; intros v; cbn; [reflexivity | now rewrite IH]. Qed.

Lemma le_value_le_bytes (n : nat) (v : Z) :
  le_value (le_bytes n v) = (v mod 256 ^ Z.of_nat n)%Z.
Proof.
  revert v. induction n as [|n IH]; intros v.
  - cbn. now rewrite Z.mod_1_r.
  - cbn [le_bytes le_value]. rewrite u8_byte_of, IH.
    rewrite Nat2Z.inj_succ, Z.pow_succ_r by lia.
    rewrite (Z.rem_mul_r v 256 (256 ^ Z.of_nat n)) by lia. reflexivity.
Qed.

Lemma le_value_range (bs : list Byte.byte) :
  (0 <= le_value bs < 256 ^ Z.of_nat (length bs))%Z.
Proof.
  induction bs as [|b tl IH]; [cbn; lia|].
  cbn [le_value length]. rewrite Nat2Z.inj_succ, Z.pow_succ_r by lia.
  pose proof (u8_range b). nia.
Qed.

Lemma bytesAt_middle (pre l post : list Byte.byte) :
  bytesAt (pre ++ l ++ post) (length pre) (length l) = Ok l.
Proof.
  unfold bytesAt. rewrite !length_app.
  replace (length pre + length l <=? length pre + (length l + length post))%nat with true
    by (symmetry; apply Nat.leb_le; lia).
  rewrite skipn_app, skipn_all, Nat.sub_diag. cbn [skipn app].
  rewrite firstn_app, firstn_all, Nat.sub_diag. cbn [firstn]. now rewrite app_nil_r.
Qed.

Lemma four_bytes (l : list Byte.byte) :
  length l = 4%nat -> exists a b c d, l = [a; b; c; d].
Proof.
  destruct l as [|a [|b [|c [|d [|x tl]]]]]; try discriminate. intros _. now exists a, b, c, d.
Qed.

Lemma eight_bytes (l : list Byte.byte) :
  length l = 8%nat -> exists a b c d e f g h, l = [a; b; c; d; e; f; g; h].
Proof.
  destruct l as [|a [|b [|c [|d [|e [|f [|g [|h [|x tl]]]]]]]]]; try discriminate.
  intros _. now exists a, b, c, d, e, f, g, h.
Qed.

End Bytes.

(** X11. The WELCOME frame is eight bytes, and the client reads back from
    it the player id modulo [2^16], the tick rate modulo [2^8] and the map
    seed modulo [2^32]: the values themselves when they fit their fields. *)
Theorem welcome_round_trip :
  forall playerId tickRate mapSeed : Z,
    length (Wire.encodeWelcome playerId tickRate mapSeed) = 8%nat /\
    Protocol.getMessageType (Wire.encodeWelcome playerId tickRate mapSeed)
    = Some Wire.WELCOME_TYPE /\
    NetworkManager.handleWelcome (Wire.encodeWelcome playerId tickRate mapSeed)
    = Protocol.Ok (NetworkManager.mkWelcomeMessage
                     (playerId mod 2 ^ 16) (tickRate mod 2 ^ 8) (mapSeed mod 2 ^ 32)) /\
    ((0 <= playerId < 2 ^ 16)%Z -> (0 <= tickRate < 2 ^ 8)%Z -> (0 <= mapSeed < 2 ^ 32)%Z ->
     NetworkManager.handleWelcome (Wire.encodeWelcome playerId tickRate mapSeed)
     = Protocol.Ok (NetworkManager.mkWelcomeMessage playerId tickRate mapSeed)).
Proof.
  intros playerId tickRate mapSeed.
  assert (H : NetworkManager.handleWelcome (Wire.encodeWelcome playerId tickRate mapSeed)
              = Protocol.Ok (NetworkManager.mkWelcomeMessage
                     (playerId mod 2 ^ 16) (tickRate mod 2 ^ 8) (mapSeed mod 2 ^ 32))).
  { unfold NetworkManager.handleWelcome, Wire.getUint16, Protocol.getUint8,
      Protocol.getUint32, Wire.encodeWelcome, Protocol.bytesAt.
    cbn [app Wire.le_bytes length Nat.add Nat.leb firstn skipn Protocol.bind].
    change [Wire.byte_of playerId; Wire.byte_of (playerId / 256)]
      with (Wire.le_bytes 2 playerId).
    change [Wire.byte_of tickRate] with (Wire.le_bytes 1 tickRate).
    change [Wire.byte_of mapSeed; Wire.byte_of (mapSeed / 256);
            Wire.byte_of (mapSeed / 256 / 256); Wire.byte_of (mapSeed / 256 / 256 / 256)]
      with (Wire.le_bytes 4 mapSeed).
    rewrite !le_value_le_bytes. reflexivity. }
  split; [reflexivity|]. split.
  { unfold Protocol.getMessageType, Wire.encodeWelcome. cbn [app].
    now rewrite u8_byte_of. }
  split; [exact H|].
  intros Hp Ht Hs. rewrite H. now rewrite !Z.mod_small by assumption.
Qed.

(** X12. The name the server decodes from the client's JOIN frame is the
    first [n mod 256] bytes of the name sent, [n] being its length in
    bytes: the whole name when it is at most 255 bytes long, and nothing
    at all when it is exactly 256 bytes long. *)
Theorem join_round_trip :
  forall nameBytes : list Byte.byte,
    Protocol.getMessageType (NetworkManager.sendJoin nameBytes)
    = Some ClientMessageType.JOIN /\
    Protocol.decodeJoinRequest (NetworkManager.sendJoin nameBytes)
    = firstn (Z.to_nat (Z.of_nat (length nameBytes) mod 256)) nameBytes /\
    ((length nameBytes <= 255)%nat ->
     Protocol.decodeJoinRequest (NetworkManager.sendJoin nameBytes) = nameBytes) /\
    (length nameBytes = 256%nat ->
     Protocol.decodeJoinRequest (NetworkManager.sendJoin nameBytes) = []).
Proof.
  intros nameBytes.
  assert (H : Protocol.decodeJoinRequest (NetworkManager.sendJoin nameBytes)
              = firstn (Z.to_nat (Z.of_nat (length nameBytes) mod 256)) nameBytes).
  { unfold Protocol.decodeJoinRequest, NetworkManager.sendJoin.
    cbn [app nth_error skipn]. now rewrite u8_byte_of. }
  split.
  { unfold Protocol.getMessageType, NetworkManager.sendJoin. cbn [app].
    now rewrite u8_byte_of. }
  split; [exact H|]. split.
  - intros Hlen. rewrite H, Z.mod_small by lia. rewrite Nat2Z.id. apply firstn_all.
  - intros Hlen. rewrite H, Hlen. reflexivity.
Qed.

Section InputFrame.
Import Protocol Wire NetworkManager.

(** The flag byte read back bit by bit. *)
Lemma packFlags_round_trip (input : InputData.t) :
  let flags := u8 (byte_of (packFlags input)) in
  flag flags 1 = InputData.forward input /\
  flag flags 2 = InputData.backward input /\
  flag flags 4 = InputData.left input /\
  flag flags 8 = InputData.right input /\
  flag flags 16 = InputData.jump input /\
  flag flags 32 = InputData.sprint input /\
  flag flags 64 = InputData.sneak input /\
  flag flags 128 = InputData.shoot input.
Proof.
  cbv zeta. rewrite u8_byte_of. unfold packFlags.
  destruct (InputData.forward input), (InputData.backward input), (InputData.left input),
    (InputData.right input), (InputData.jump input), (InputData.sprint input),
    (InputData.sneak input), (InputData.shoot input);
    vm_compute; repeat split; reflexivity.
Qed.

End InputFrame.

(** X13. The INPUT frame the client sends is 32 bytes long, and the server
    decodes from it the sequence number modulo [2^32], the eight flags and
    the weapon modulo 256 as sent, and the yaw and pitch as their 32-bit
    encodings.  The timestamp it decodes is not the time the client wrote:
    the server reads bytes 15 to 22, which hold the repeated weapon byte,
    the repeated yaw and the first three bytes of the repeated pitch; the
    client's time is in bytes 24 to 31, which the server never reads. *)
Theorem client_input_frame_decodes :
  forall (E : Env) (c : Wire.FloatBytes) (input : InputData.t) (serverTime : R),
    length (Wire.f32 c (InputData.yaw input)) = 4%nat ->
    length (Wire.f32 c (InputData.pitch input)) = 4%nat ->
    length (Wire.f64 c serverTime) = 8%nat ->
    let frame := NetworkManager.sendInput c input serverTime in
    length frame = 32%nat /\
    Protocol.getMessageType frame = Some ClientMessageType.INPUT /\
    Protocol.decodeInput E frame
    = Protocol.Ok
        (InputData.mk (InputData.seq input mod 2 ^ 32)
           (InputData.forward input) (InputData.backward input) (InputData.left input)
           (InputData.right input) (InputData.jump input) (InputData.sprint input)
           (InputData.sneak input) (InputData.shoot input)
           (InputData.weapon input mod 256)
           (float32_of E (Wire.f32 c (InputData.yaw input)))
           (float32_of E (Wire.f32 c (InputData.pitch input)))
           (float64_of E
              ([Wire.byte_of (InputData.weapon input)]
               ++ Wire.f32 c (InputData.yaw input)
               ++ firstn 3 (Wire.f32 c (InputData.pitch input))))) /\
    skipn 24 frame = Wire.f64 c serverTime.
Proof.
  intros E c input serverTime Hy Hp Ht frame. subst frame.
  unfold NetworkManager.sendInput.
  destruct (four_bytes _ Hy) as (y0 & y1 & y2 & y3 & ->).
  destruct (four_bytes _ Hp) as (p0 & p1 & p2 & p3 & ->).
  destruct (eight_bytes _ Ht) as (t0 & t1 & t2 & t3 & t4 & t5 & t6 & t7 & ->).
  cbn [app Wire.le_bytes].
  split; [reflexivity|]. split.
  { unfold Protocol.getMessageType. now rewrite u8_byte_of. }
  split; [|reflexivity].
  unfold Protocol.decodeInput, Protocol.getUint32, Protocol.getUint8, Protocol.getFloat32,
    Protocol.getFloat64, Protocol.bytesAt.
  cbn [length Nat.add Nat.leb firstn skipn Protocol.bind app].
  destruct (packFlags_round_trip input) as (F1 & F2 & F3 & F4 & F5 & F6 & F7 & F8).
  cbv zeta in F1, F2, F3, F4, F5, F6, F7, F8.
  cbn [Protocol.le_value].
  replace (Protocol.u8 (Wire.byte_of (NetworkManager.packFlags input)) + 256 * 0)%Z
    with (Protocol.u8 (Wire.byte_of (NetworkManager.packFlags input))) by lia.
  rewrite F1, F2, F3, F4, F5, F6, F7, F8.
  f_equal. f_equal.
  - pose proof (le_value_le_bytes 4 (InputData.seq input)) as Hs.
    cbn [Wire.le_bytes Protocol.le_value] in Hs. exact Hs.
  - rewrite u8_byte_of. lia.
Qed.

(** Encoders that write zeros: every number has four, respectively eight,
    bytes. *)
Definition zero_bytes : Wire.FloatBytes :=
  Wire.mkFloatBytes (fun _ => [Byte.x00; Byte.x00; Byte.x00; Byte.x00])
    (fun _ => [Byte.x00; Byte.x00; Byte.x00; Byte.x00;
               Byte.x00; Byte.x00; Byte.x00; Byte.x00]).

Lemma client_input_frame_decodes_witness :
  length (NetworkManager.sendInput zero_bytes shot5 10000) = 32%nat /\
  exists input,
    Protocol.decodeInput E0 (NetworkManager.sendInput zero_bytes shot5 10000)
    = Protocol.Ok input /\
    InputData.seq input = 5%Z /\
    InputData.forward input = true /\
    InputData.shoot input = true.
Proof.
  destruct (client_input_frame_decodes E0 zero_bytes shot5 10000 eq_refl eq_refl eq_refl)
    as (Hlen & _ & Hdec & _).
  split; [exact Hlen|].
  eexists. split; [exact Hdec|]. repeat split; reflexivity.
Defined.

(** ** Snapshots on the wire *)

Section SnapshotBytes.
Import Protocol Wire NetworkManager.
Variable E : Env.
Variable c : FloatBytes.
Hypothesis f32_length : forall x, length (f32 c x) = 4%nat.

(** A read that lies inside the chunk [l] of the buffer. *)
Lemma bytesAt_inside (pre l post : list Byte.byte) (k m : nat) :
  (k + m <= length l)%nat ->
  bytesAt (pre ++ l ++ post) (length pre + k) m = Ok (firstn m (skipn k l)).
Proof.
  intros Hle. unfold bytesAt. rewrite !length_app.
  replace (length pre + k + m <=? length pre + (length l + length post))%nat with true
    by (symmetry; apply Nat.leb_le; lia).
  f_equal. rewrite skipn_app.
  replace (skipn (length pre + k) pre) with (@nil Byte.byte)
    by (symmetry; apply skipn_all2; lia).
  replace (length pre + k - length pre)%nat with k by lia.
  cbn [app]. rewrite skipn_app, firstn_app.
  replace (m - length (skipn k l))%nat with 0%nat by (rewrite length_skipn; lia).
  cbn [firstn]. now rewrite app_nil_r.
Qed.

(** What the client reads back for a player and for a hit. *)
Definition wire_player (p : PlayerState.t) : PlayerState.t :=
  PlayerState.mk (PlayerState.id p mod 2 ^ 16)
    (float32_of E (f32 c (PlayerState.x p))) (float32_of E (f32 c (PlayerState.y p)))
    (float32_of E (f32 c (PlayerState.z p))) (float32_of E (f32 c (PlayerState.vx p)))
    (float32_of E (f32 c (PlayerState.vy p))) (float32_of E (f32 c (PlayerState.vz p)))
    (float32_of E (f32 c (PlayerState.yaw p))) (float32_of E (f32 c (PlayerState.pitch p)))
    (PlayerState.health p mod 256) (PlayerState.weapon p mod 256)
    (PlayerState.isShooting p) (PlayerState.isDead p)
    (PlayerState.score p mod 2 ^ 16).

Definition wire_hit (h : HitEvent.t) : HitEvent.t :=
  HitEvent.mk (HitEvent.shooterId h mod 2 ^ 16) (HitEvent.targetId h mod 2 ^ 16)
    (HitEvent.damage h mod 256) (HitEvent.headshot h).

Lemma bool_byte (b : bool) : (u8 (byte_of (if b then 1 else 0)) + 256 * 0 =? 1)%Z = b.
Proof. rewrite u8_byte_of. now destruct b. Qed.

Lemma length_encodePlayerState (p : PlayerState.t) :
  length (encodePlayerState c p) = 40%nat.
Proof.
  unfold encodePlayerState. rewrite !length_app, !f32_length, !length_le_bytes.
  reflexivity.
Qed.

Lemma length_encodeHitEvent (h : HitEvent.t) : length (encodeHitEvent h) = 6%nat.
Proof. reflexivity. Qed.

Lemma length_flat_map_const {A : Type} (f : A -> list Byte.byte) (n : nat) (l : list A) :
  (forall a, length (f a) = n) -> length (flat_map f l) = (n * length l)%nat.
Proof.
  intros Hf. induction l as [|a tl IH]; cbn [flat_map length]; [lia|].
  rewrite length_app, Hf, IH. lia.
Qed.

Lemma decodePlayers_spec (ps : list PlayerState.t) :
  forall pre post,
    decodePlayers E (pre ++ flat_map (encodePlayerState c) ps ++ post)
      (length ps) (length pre)
    = Ok (map wire_player ps, (length pre + 40 * length ps)%nat).
Proof.
  induction ps as [|p tl IH]; intros pre post.
  - cbn. do 2 f_equal. lia.
  - cbn [length flat_map decodePlayers]. rewrite <- app_assoc.
    pose proof (length_encodePlayerState p) as Hlen.
    assert (Hat : forall k m, (k + m <= 40)%nat ->
              bytesAt (pre ++ encodePlayerState c p
                           ++ flat_map (encodePlayerState c) tl ++ post)
                      (length pre + k) m
              = Ok (firstn m (skipn k (encodePlayerState c p)))).
    { intros k m Hkm. apply bytesAt_inside. lia. }
    assert (Hrest : decodePlayers E
                      (pre ++ encodePlayerState c p
                           ++ flat_map (encodePlayerState c) tl ++ post)
                      (length tl) (length pre + 40)
                    = Ok (map wire_player tl, (length pre + 40 + 40 * length tl)%nat)).
    { rewrite app_assoc.
      replace (length pre + 40)%nat with (length (pre ++ encodePlayerState c p))
        by (rewrite length_app; lia).
      rewrite IH, length_app, Hlen. reflexivity. }
    unfold getUint16, getUint8, getFloat32.
    replace (length pre) with (length pre + 0)%nat at 1 by lia.
    rewrite !Hat by lia. rewrite Hrest. clear Hat Hrest IH.
    unfold encodePlayerState.
    destruct (four_bytes _ (f32_length (PlayerState.x p))) as (x0 & x1 & x2 & x3 & Hx).
    destruct (four_bytes _ (f32_length (PlayerState.y p))) as (y0 & y1 & y2 & y3 & Hy).
    destruct (four_bytes _ (f32_length (PlayerState.z p))) as (z0 & z1 & z2 & z3 & Hz).
    destruct (four_bytes _ (f32_length (PlayerState.vx p))) as (a0 & a1 & a2 & a3 & Hvx).
    destruct (four_bytes _ (f32_length (PlayerState.vy p))) as (b0 & b1 & b2 & b3 & Hvy).
    destruct (four_bytes _ (f32_length (PlayerState.vz p))) as (d0 & d1 & d2 & d3 & Hvz).
    destruct (four_bytes _ (f32_length (PlayerState.yaw p))) as (w0 & w1 & w2 & w3 & Hw).
    destruct (four_bytes _ (f32_length (PlayerState.pitch p))) as (q0 & q1 & q2 & q3 & Hq).
    unfold wire_player. rewrite Hx, Hy, Hz, Hvx, Hvy, Hvz, Hw, Hq.
    cbn [app le_bytes firstn skipn bind fst snd map le_value].
    rewrite !bool_byte.
    pose proof (le_value_le_bytes 2 (PlayerState.id p)) as Hid.
    pose proof (le_value_le_bytes 2 (PlayerState.score p)) as Hsc.
    pose proof (le_value_le_bytes 1 (PlayerState.health p)) as Hh.
    pose proof (le_value_le_bytes 1 (PlayerState.weapon p)) as Hwp.
    cbn [le_bytes le_value] in Hid, Hsc, Hh, Hwp.
    rewrite Hid, Hsc, Hh, Hwp, Hx, Hy, Hz, Hvx, Hvy, Hvz, Hw, Hq.
    apply f_equal. apply f_equal2; [reflexivity | cbn [length]; lia].
Qed.

Lemma decodeHits_spec (hs : list HitEvent.t) :
  forall pre post,
    decodeHits (pre ++ flat_map encodeHitEvent hs ++ post) (length hs) (length pre)
    = Ok (map wire_hit hs, (length pre + 6 * length hs)%nat).
Proof.
  induction hs as [|h tl IH]; intros pre post.
  - cbn. do 2 f_equal. lia.
  - cbn [length flat_map decodeHits]. rewrite <- app_assoc.
    assert (Hat : forall k m, (k + m <= 6)%nat ->
              bytesAt (pre ++ encodeHitEvent h ++ flat_map encodeHitEvent tl ++ post)
                      (length pre + k) m
              = Ok (firstn m (skipn k (encodeHitEvent h)))).
    { intros k m Hkm. apply bytesAt_inside. cbn. lia. }
    assert (Hrest : decodeHits
                      (pre ++ encodeHitEvent h ++ flat_map encodeHitEvent tl ++ post)
                      (length tl) (length pre + 6)
                    = Ok (map wire_hit tl, (length pre + 6 + 6 * length tl)%nat)).
    { rewrite app_assoc.
      replace (length pre + 6)%nat with (length (pre ++ encodeHitEvent h))
        by (rewrite length_app; reflexivity).
      rewrite IH, length_app. reflexivity. }
    unfold getUint16, getUint8.
    replace (length pre) with (length pre + 0)%nat at 1 by lia.
    rewrite !Hat by lia. rewrite Hrest. clear Hat Hrest IH.
    unfold encodeHitEvent, wire_hit.
    cbn [app le_bytes firstn skipn bind fst snd map le_value].
    rewrite bool_byte.
    pose proof (le_value_le_bytes 2 (HitEvent.shooterId h)) as Hs.
    pose proof (le_value_le_bytes 2 (HitEvent.targetId h)) as Ht.
    pose proof (le_value_le_bytes 1 (HitEvent.damage h)) as Hd.
    cbn [le_bytes le_value] in Hs, Ht, Hd.
    rewrite Hs, Ht, Hd.
    apply f_equal. apply f_equal2; [reflexivity | cbn [length]; lia].
Qed.

End SnapshotBytes.

(** X14. A snapshot that fits the scratch buffer is
    [19 + 40 * players + 6 * hits] bytes long, and the client decodes from
    it the tick and the acknowledged input modulo [2^32], every player and
    every hit in order, with ids and scores modulo [2^16], health, weapon
    and damage modulo 256, the flags as they were, and every coordinate as
    its 32-bit encoding.  It is produced exactly when the field-level
    encoding of the snapshot is, and both carry the same acknowledgement. *)
Theorem snapshot_round_trip :
  forall (E : Env) (c : Wire.FloatBytes) (nm : NetworkManager.t) (now : R)
         (tick : Z) (timestamp : R) (players : list PlayerState.t)
         (hits : list HitEvent.t) (lastProcessedInput : Z) (bytes : list Byte.byte),
    (forall x, length (Wire.f32 c x) = 4%nat) ->
    length (Wire.f64 c timestamp) = 8%nat ->
    Wire.encodeSnapshot c tick timestamp players hits lastProcessedInput
    = Protocol.Ok bytes ->
    length bytes = (19 + 40 * length players + 6 * length hits)%nat /\
    Protocol.getMessageType bytes = Some Wire.SNAPSHOT_TYPE /\
    snd (NetworkManager.handleSnapshot E nm now bytes)
    = Protocol.Ok
        (NetworkManager.mkWorldSnapshot (tick mod 2 ^ 32)
           (float64_of E (Wire.f64 c timestamp))
           (map (wire_player E c) players) (map wire_hit hits)
           (lastProcessedInput mod 2 ^ 32)) /\
    exists s,
      Protocol.encodeSnapshot tick timestamp players hits lastProcessedInput = Some s /\
      Snapshot.tick s = (tick mod 2 ^ 32)%Z /\
      Snapshot.lastProcessedInput s = (lastProcessedInput mod 2 ^ 32)%Z.
Proof.
  intros E c nm now tick timestamp players hits lastProcessedInput bytes Hf32 Hf64 Henc.
  unfold Wire.encodeSnapshot in Henc. unfold Protocol.encodeSnapshot.
  destruct (_ <=? _)%Z eqn:Hfit; [|discriminate].
  apply Z.leb_le in Hfit.
  unfold Protocol.SNAPSHOT_BUFFER_SIZE in Hfit.
  unfold Protocol.SNAPSHOT_HEADER_SIZE, Protocol.PLAYER_STATE_SIZE, Protocol.HIT_EVENT_SIZE,
    Protocol.MAX_PLAYERS, Protocol.MAX_HITS in Hfit.
  destruct (eight_bytes _ Hf64) as (t0 & t1 & t2 & t3 & t4 & t5 & t6 & t7 & Ht).
  rewrite Ht in Henc.
  set (header := [Wire.byte_of Wire.SNAPSHOT_TYPE] ++ Wire.le_bytes 4 tick
                 ++ [t0; t1; t2; t3; t4; t5; t6; t7]
                 ++ [Wire.byte_of (Z.of_nat (length players))]
                 ++ [Wire.byte_of (Z.of_nat (length hits))]
                 ++ Wire.le_bytes 4 lastProcessedInput).
  set (P := flat_map (Wire.encodePlayerState c) players).
  set (H := flat_map Wire.encodeHitEvent hits).
  assert (Hbytes : bytes = header ++ P ++ H) by (injection Henc as <-; reflexivity).
  subst bytes. clear Henc. rewrite Ht.
  assert (Hh : length header = 19%nat) by reflexivity.
  assert (HP : length P = (40 * length players)%nat).
  { apply length_flat_map_const. intros p. now apply length_encodePlayerState. }
  assert (HH : length H = (6 * length hits)%nat).
  { apply length_flat_map_const. intros h. reflexivity. }
  split; [rewrite !length_app, Hh, HP, HH; lia|].
  split.
  { unfold Protocol.getMessageType. cbn [header app]. now rewrite u8_byte_of. }
  split; [|eexists; split; [reflexivity|split; reflexivity]].
  assert (Hat : forall k m, (k + m <= 19)%nat ->
            Protocol.bytesAt (header ++ P ++ H) k m = Protocol.Ok (firstn m (skipn k header))).
  { intros k m Hkm.
    apply (bytesAt_inside [] header (P ++ H) k m). rewrite Hh. exact Hkm. }
  unfold NetworkManager.handleSnapshot, Protocol.getUint32, Protocol.getUint8,
    Protocol.getFloat64.
  rewrite !Hat by lia. clear Hat.
  set (buf := header ++ P ++ H).
  cbn [header app Wire.le_bytes firstn skipn Protocol.bind snd Protocol.le_value].
  subst buf.
  pose proof (le_value_le_bytes 4 tick) as Htick.
  pose proof (le_value_le_bytes 4 lastProcessedInput) as Hlpi.
  pose proof (le_value_le_bytes 1 (Z.of_nat (length players))) as Hpc.
  pose proof (le_value_le_bytes 1 (Z.of_nat (length hits))) as Hhc.
  cbn [Wire.le_bytes Protocol.le_value] in Htick, Hlpi, Hpc, Hhc.
  rewrite Htick, Hlpi, Hpc, Hhc.
  change (256 ^ Z.of_nat 1)%Z with 256%Z.
  rewrite (Z.mod_small (Z.of_nat (length players))) by lia.
  rewrite (Z.mod_small (Z.of_nat (length hits))) by lia.
  rewrite !Nat2Z.id.
  change 19%nat with (length header) at 1.
  unfold P at 1. rewrite (decodePlayers_spec E c Hf32 players header H).
  cbn [Protocol.bind fst snd].
  replace (header ++ P ++ H)
    with ((header ++ P) ++ flat_map Wire.encodeHitEvent hits ++ [])
    by (unfold H; now rewrite app_nil_r, app_assoc).
  replace (length header + 40 * length players)%nat with (length (header ++ P))
    by (rewrite length_app, HP; reflexivity).
  rewrite (decodeHits_spec hits (header ++ P) []).
  cbn [Protocol.bind fst snd]. reflexivity.
Qed.

Definition state0 : PlayerState.t := Player.getState alice.

Lemma snapshot_round_trip_witness :
  exists bytes,
    Wire.encodeSnapshot zero_bytes 7 10000 [state0] [] 5 = Protocol.Ok bytes /\
    length bytes = 59%nat /\
    exists s,
      snd (NetworkManager.handleSnapshot E0 (NetworkManager.mk 0 0) 10000 bytes)
      = Protocol.Ok s /\
      NetworkManager.tick s = 7%Z /\
      NetworkManager.lastProcessedInput s = 5%Z /\
      map PlayerState.id (NetworkManager.players s) = [1%Z].
Proof.
  eexists. split; [reflexivity|].
  destruct (snapshot_round_trip E0 zero_bytes (NetworkManager.mk 0 0) 10000 7 10000
              [state0] [] 5 _ (fun _ => eq_refl) eq_refl eq_refl)
    as (Hlen & _ & Hdec & _).
  split; [exact Hlen|].
  eexists. split; [exact Hdec|]. repeat split; reflexivity.
Defined.

(** * Client-side prediction (client/src/PlayerController.js) *)

(** The client's [GAME_CONSTANTS] (client/src/NetworkManager.js), as far as
    the controller reads them. *)
Module ClientConstants.
Record t := mk {
  TICK_RATE : Z;
  MOVE_SPEED : R;
  SPRINT_MULTIPLIER : R;
  SNEAK_MULTIPLIER : R;
  JUMP_FORCE : R;
  GRAVITY : R;
  PLAYER_HEIGHT : R;
  PLAYER_RADIUS : R;
  MAP_SIZE : R
}.
Definition GAME_CONSTANTS : t := mk 20 5 1.6 0.5 8 20 1.8 0.4 50.
End ClientConstants.

Module PlayerController.
Import ClientConstants.

(** An entry of [inputHistory]. *)
Record HistoryEntry := mkHistoryEntry {
  seq : Z;
  input : InputData.t;
  deltaTime : R;
  positionBefore : Vec3.t;
  velocityBefore : Vec3.t;
  groundedBefore : bool
}.

Record t := mk {
  constants : ClientConstants.t;
  obstacles : list Obstacle.t;
  position : Vec3.t;
  velocity : Vec3.t;
  grounded : bool;
  inputHistory : list HistoryEntry;
  maxHistorySize : nat;
  fixedDeltaTime : R;
  prevPosition : Vec3.t
}.

(** The constructor. *)
Definition new (constants : ClientConstants.t) (obstacles : list Obstacle.t) : t :=
  mk constants obstacles (Vec3.mk 0 0 0) (Vec3.mk 0 0 0) false [] 120
     (1 / IZR (TICK_RATE constants)) (Vec3.mk 0 0 0).

Definition checkObstacleCollision (x y z radius height : R) (obstacle : Obstacle.t) : bool :=
  let halfW := Obstacle.width obstacle / 2 in
  let halfD := Obstacle.depth obstacle / 2 in
  let closestX := Rmax (Obstacle.x obstacle - halfW) (Rmin x (Obstacle.x obstacle + halfW)) in
  let closestZ := Rmax (Obstacle.z obstacle - halfD) (Rmin z (Obstacle.z obstacle + halfD)) in
  let distX := x - closestX in
  let distZ := z - closestZ in
  let distSq := distX * distX + distZ * distZ in
  if distSq <? radius * radius then
    if (y <? Obstacle.height obstacle) && (y + height >? 0) then true else false
  else false.

Definition checkCollision (c : t) (x y z radius height : R) : bool :=
  existsb (checkObstacleCollision x y z radius height) (obstacles c).


(** [applyInput] for an input that carries its yaw. *)
Definition applyInput (c : t) (input : InputData.t) (deltaTime : R) : t :=
  let prevPosition := position c in
  let moveX := 0 in
  let moveZ := 0 in
  let moveZ := if InputData.forward input then moveZ + 1 else moveZ in
  let moveZ := if InputData.backward input then moveZ - 1 else moveZ in
  let moveX := if InputData.left input then moveX - 1 else moveX in
  let moveX := if InputData.right input then moveX + 1 else moveX in
  let len := sqrt (moveX * moveX + moveZ * moveZ) in
  let moving := len >? 0 in
  let moveX := if moving then moveX / len else moveX in
  let moveZ := if moving then moveZ / len else moveZ in
  let yaw := InputData.yaw input in
  let cosYaw := cos yaw in
  let sinYaw := sin yaw in
  let worldMoveX := moveX * cosYaw + moveZ * sinYaw in
  let worldMoveZ := - moveX * sinYaw + moveZ * cosYaw in
  let speed := MOVE_SPEED (constants c) in
  let speed := if InputData.sprint input then speed * SPRINT_MULTIPLIER (constants c)
               else speed in
  let speed := if InputData.sneak input then speed * SNEAK_MULTIPLIER (constants c)
               else speed in
  let vx := worldMoveX * speed in
  let vz := worldMoveZ * speed in
  let jumping := InputData.jump input && grounded c in
  let vy := if jumping then JUMP_FORCE (constants c) else Vec3.y (velocity c) in
  let grounded' := if jumping then false else grounded c in
  let vy := vy - GRAVITY (constants c) * deltaTime in
  let newX := Vec3.x (position c) + vx * deltaTime in
  let newY := Vec3.y (position c) + vy * deltaTime in
  let newZ := Vec3.z (position c) + vz * deltaTime in
  let radius := PLAYER_RADIUS (constants c) in
  let height := PLAYER_HEIGHT (constants c) in
  let collidesX :=
    checkCollision c newX (Vec3.y (position c)) (Vec3.z (position c)) radius height in
  let newX := if collidesX then Vec3.x (position c) else newX in
  let vx := if collidesX then 0 else vx in
  let collidesZ := checkCollision c newX (Vec3.y (position c)) newZ radius height in
  let newZ := if collidesZ then Vec3.z (position c) else newZ in
  let vz := if collidesZ then 0 else vz in
  let landed := newY <=? 0 in
  let collidesY := checkCollision c newX newY newZ radius height in
  let newY' := if landed then 0 else if collidesY then Vec3.y (position c) else newY in
  let vy := if landed then 0 else if collidesY then 0 else vy in
  let grounded' := if landed then true else grounded' in
  let halfMap := MAP_SIZE (constants c) / 2 - radius in
  let newX := Rmax (- halfMap) (Rmin halfMap newX) in
  let newZ := Rmax (- halfMap) (Rmin halfMap newZ) in
  mk (constants c) (obstacles c) (Vec3.mk newX newY' newZ) (Vec3.mk vx vy vz) grounded'
     (inputHistory c) (maxHistorySize c) (fixedDeltaTime c) prevPosition.

(** [update]: the sampled keys with the camera's yaw. *)
Definition update (c : t) (input : InputData.t) (cameraYaw : R) (deltaTime : R) : t :=
  let inputWithYaw :=
    InputData.mk (InputData.seq input) (InputData.forward input) (InputData.backward input)
      (InputData.left input) (InputData.right input) (InputData.jump input)
      (InputData.sprint input) (InputData.sneak input) (InputData.shoot input)
      (InputData.weapon input) cameraYaw (InputData.pitch input)
      (InputData.timestamp input) in
  applyInput c inputWithYaw deltaTime.


(** [findIndex(h => h.seq === lastProcessedSeq)]: the entries before the
    first match and those after it. *)
Fixpoint splitAt (lastProcessedSeq : Z) (history : list HistoryEntry)
    : option (list HistoryEntry * list HistoryEntry) :=
  match history with
  | [] => None
  | h :: tl =>
      if (seq h =? lastProcessedSeq)%Z then Some ([], tl)
      else match splitAt lastProcessedSeq tl with
           | Some (before, after) => Some (h :: before, after)
           | None => None
           end
  end.



(** [getInterpolatedPosition]. *)
Definition getInterpolatedPosition (c : t) (alpha : R) : Vec3.t :=
  let alpha := Rmax 0 (Rmin 1 alpha) in
  Vec3.mk
    (Vec3.x (prevPosition c) + (Vec3.x (position c) - Vec3.x (prevPosition c)) * alpha)
    (Vec3.y (prevPosition c) + (Vec3.y (position c) - Vec3.y (prevPosition c)) * alpha)
    (Vec3.z (prevPosition c) + (Vec3.z (position c) - Vec3.z (prevPosition c)) * alpha).

End PlayerController.

(** ** The prediction against the server *)

Lemma moving_agree (dx dz : R) :
  (sqrt (dx * dx + dz * dz) >? 0) = (Player.Rneqb dx 0 || Player.Rneqb dz 0).
Proof.
  unfold Player.Rneqb.
  destruct (Req_dec_T dx 0) as [Hx|Hx]; destruct (Req_dec_T dz 0) as [Hz|Hz]; cbn [orb].
  - subst. replace (0 * 0 + 0 * 0) with 0 by lra. rewrite sqrt_0.
    apply Rltb_false. lra.
  - apply Rltb_true, sqrt_lt_R0. nra.
  - apply Rltb_true, sqrt_lt_R0. nra.
  - apply Rltb_true, sqrt_lt_R0. nra.
Qed.

Lemma client_collision_agree (c : PlayerController.t) (x y z radius height : R) :
  PlayerController.checkCollision c x y z radius height
  = Physics.checkCollision x y z radius height (PlayerController.obstacles c).
Proof. reflexivity. Qed.

(** One step of the controller against one step of the server, from
    corresponding states. *)
Lemma applyInput_processInput :
  forall (p : Player.t) (c : PlayerController.t) (input : InputData.t) (dt : R),
    Player.isDead p = false ->
    PlayerController.constants c = ClientConstants.GAME_CONSTANTS ->
    PlayerController.position c = Vec3.mk (Player.x p) (Player.y p) (Player.z p) ->
    Vec3.y (PlayerController.velocity c) = Player.vy p ->
    PlayerController.grounded c = Player.grounded p ->
    InputData.sprint input && InputData.sneak input = false ->
    (Player.grounded p = true -> Player.y p = 0 /\ Player.vy p = 0) ->
    let p' := Player.processInput p input dt (PlayerController.obstacles c) in
    let c' := PlayerController.applyInput c input dt in
    PlayerController.position c' = Vec3.mk (Player.x p') (Player.y p') (Player.z p') /\
    PlayerController.velocity c' = Vec3.mk (Player.vx p') (Player.vy p') (Player.vz p') /\
    PlayerController.grounded c' = Player.grounded p'.
Proof.
  intros p c input dt Halive Hconst Hpos Hvy Hg Hmod Hrest p' c'. subst p' c'.
  unfold Player.processInput. rewrite Halive.
  unfold PlayerController.applyInput.
  rewrite !client_collision_agree.
  rewrite Hconst, Hpos, Hvy, Hg.
  cbn [ClientConstants.MOVE_SPEED ClientConstants.SPRINT_MULTIPLIER
       ClientConstants.SNEAK_MULTIPLIER ClientConstants.JUMP_FORCE ClientConstants.GRAVITY
       ClientConstants.PLAYER_HEIGHT ClientConstants.PLAYER_RADIUS ClientConstants.MAP_SIZE
       ClientConstants.GAME_CONSTANTS Vec3.x Vec3.y Vec3.z].
  unfold Physics.applyPhysics, Physics.getGroundHeight.
  cbv zeta.
  rewrite !moving_agree.
  match goal with
  | |- context [?A * cos (InputData.yaw input) + ?B * sin (InputData.yaw input)] =>
      set (ux := A); set (uz := B)
  end.
  clearbody ux uz.
  cbn [Player.x Player.y Player.z Player.vx Player.vy Player.vz Player.grounded
       PlayerController.position PlayerController.velocity PlayerController.grounded
       Vec3.x Vec3.y Vec3.z].
  unfold GAME_CONSTANTS.MOVE_SPEED, GAME_CONSTANTS.SPRINT_MULTIPLIER,
    GAME_CONSTANTS.SNEAK_MULTIPLIER, GAME_CONSTANTS.JUMP_FORCE, GAME_CONSTANTS.GRAVITY,
    GAME_CONSTANTS.PLAYER_RADIUS, GAME_CONSTANTS.PLAYER_HEIGHT, GAME_CONSTANTS.MAP_SIZE.
  destruct (InputData.sprint input), (InputData.sneak input); try discriminate Hmod.
  all: destruct (InputData.jump input), (Player.grounded p) eqn:Hgr; cbn [andb].
  all: match goal with
       | |- context [Physics.checkCollision ?a (Player.y ?q) (Player.z ?q) ?r ?h ?o] =>
           destruct (Physics.checkCollision a (Player.y q) (Player.z q) r h o)
       end.
  all: match goal with
       | |- context [Physics.checkCollision ?a (Player.y ?q) ?d ?r ?h ?o] =>
           destruct (Physics.checkCollision a (Player.y q) d r h o)
       end.
  all: match goal with
       | |- context [Rleb ?a 0] => destruct (Rleb a 0) eqn:Hland
       end.
  all: try match goal with
       | |- context [Physics.checkCollision ?a ?b ?d ?r ?h ?o] =>
           destruct (Physics.checkCollision a b d r h o)
       end.
  all: cbn [Physics.position Physics.velocity Physics.grounded Vec3.x Vec3.y Vec3.z].
  all: try (split; [reflexivity|split; reflexivity]).
  all: exfalso; destruct (Hrest eq_refl) as [Hy0 Hv0]; rewrite Hy0, Hv0 in Hland;
    apply Rleb_false in Hland; nra.
Qed.

(** X15. The client's prediction step computes what the server computes
    for the same input: starting from the same position, vertical
    velocity, grounded flag and obstacles, [applyInput] on the client and
    [processInput] on the server (for a living player) end in the same
    position, velocity and grounded flag, provided the input does not
    hold sprint and sneak together and a grounded player stands still on
    the ground. *)
Theorem prediction_matches_server :
  forall (p : Player.t) (c : PlayerController.t) (input : InputData.t) (dt : R),
    Player.isDead p = false ->
    PlayerController.constants c = ClientConstants.GAME_CONSTANTS ->
    PlayerController.position c = Vec3.mk (Player.x p) (Player.y p) (Player.z p) ->
    Vec3.y (PlayerController.velocity c) = Player.vy p ->
    PlayerController.grounded c = Player.grounded p ->
    InputData.sprint input && InputData.sneak input = false ->
    (Player.grounded p = true -> Player.y p = 0 /\ Player.vy p = 0) ->
    let p' := Player.processInput p input dt (PlayerController.obstacles c) in
    let c' := PlayerController.applyInput c input dt in
    PlayerController.position c' = Vec3.mk (Player.x p') (Player.y p') (Player.z p') /\
    PlayerController.velocity c' = Vec3.mk (Player.vx p') (Player.vy p') (Player.vz p') /\
    PlayerController.grounded c' = Player.grounded p'.
Proof. exact applyInput_processInput. Qed.

Definition ctrl0 : PlayerController.t :=
  PlayerController.new ClientConstants.GAME_CONSTANTS [].

Lemma prediction_matches_server_witness :
  let p' := Player.processInput (Player.new 1 [] 7) step7 (1 / 60) [] in
  let c' := PlayerController.applyInput ctrl0 step7 (1 / 60) in
  PlayerController.position c' = Vec3.mk (Player.x p') (Player.y p') (Player.z p') /\
  PlayerController.velocity c' = Vec3.mk (Player.vx p') (Player.vy p') (Player.vz p') /\
  PlayerController.grounded c' = Player.grounded p'.
Proof.
  apply (prediction_matches_server (Player.new 1 [] 7) ctrl0 step7 (1 / 60)
           eq_refl eq_refl eq_refl eq_refl eq_refl eq_refl).
  intros H. discriminate H.
Defined.

(** ** Speed *)

Lemma unit_direction (dx dz : R) :
  let m := Player.Rneqb dx 0 || Player.Rneqb dz 0 in
  let len := sqrt (dx * dx + dz * dz) in
  (if m then dx / len else dx) * (if m then dx / len else dx)
  + (if m then dz / len else dz) * (if m then dz / len else dz) <= 1.
Proof.
  cbv zeta. rewrite <- moving_agree.
  destruct (sqrt (dx * dx + dz * dz) >? 0) eqn:Hm.
  - apply Rltb_true in Hm.
    assert (Hn : 0 <= dx * dx + dz * dz) by nra.
    pose proof (sqrt_sqrt _ Hn) as Hs.
    set (len := sqrt (dx * dx + dz * dz)) in *.
    replace (dx / len * (dx / len) + dz / len * (dz / len))
      with ((dx * dx + dz * dz) / (len * len)) by (field; lra).
    rewrite Hs. right. field. nra.
  - apply Rltb_false in Hm.
    assert (Hn : 0 <= dx * dx + dz * dz) by nra.
    pose proof (sqrt_sqrt _ Hn) as Hs.
    pose proof (sqrt_pos (dx * dx + dz * dz)) as Hp.
    assert (H0 : sqrt (dx * dx + dz * dz) = 0) by lra.
    rewrite H0 in Hs. nra.
Qed.

Lemma rotation_norm (ux uz a : R) :
  (ux * cos a + uz * sin a) * (ux * cos a + uz * sin a)
  + (- ux * sin a + uz * cos a) * (- ux * sin a + uz * cos a)
  = ux * ux + uz * uz.
Proof.
  pose proof (sin2_cos2 a) as H. unfold Rsqr in H.
  replace ((ux * cos a + uz * sin a) * (ux * cos a + uz * sin a)
           + (- ux * sin a + uz * cos a) * (- ux * sin a + uz * cos a))
    with ((ux * ux + uz * uz) * (sin a * sin a + cos a * cos a)) by ring.
  rewrite H. ring.
Qed.

Lemma clamp_step (h x v : R) :
  - h <= x <= h ->
  (Rmax (- h) (Rmin h (x + v)) - x) * (Rmax (- h) (Rmin h (x + v)) - x) <= v * v.
Proof.
  intros Hx. unfold Rmax, Rmin.
  destruct (Rle_dec h (x + v)); destruct (Rle_dec (- h) _); nra.
Qed.

(** The horizontal part of a physics step: the speed does not grow, and a
    player inside the map moves no further than its velocity carries it. *)
Lemma applyPhysics_horizontal (position velocity : Vec3.t) (dt : R)
    (obstacles : list Obstacle.t) :
  let res := Physics.applyPhysics position velocity dt obstacles in
  let h := GAME_CONSTANTS.MAP_SIZE / 2 - GAME_CONSTANTS.PLAYER_RADIUS in
  Vec3.x (Physics.velocity res) * Vec3.x (Physics.velocity res)
  + Vec3.z (Physics.velocity res) * Vec3.z (Physics.velocity res)
  <= Vec3.x velocity * Vec3.x velocity + Vec3.z velocity * Vec3.z velocity /\
  (- h <= Vec3.x position <= h -> - h <= Vec3.z position <= h ->
   (Vec3.x (Physics.position res) - Vec3.x position)
   * (Vec3.x (Physics.position res) - Vec3.x position)
   + (Vec3.z (Physics.position res) - Vec3.z position)
     * (Vec3.z (Physics.position res) - Vec3.z position)
   <= (Vec3.x velocity * Vec3.x velocity + Vec3.z velocity * Vec3.z velocity) * (dt * dt)).
Proof.
  cbv zeta. unfold Physics.applyPhysics, Physics.getGroundHeight.
  set (h := GAME_CONSTANTS.MAP_SIZE / 2 - GAME_CONSTANTS.PLAYER_RADIUS).
  destruct (Physics.checkCollision _ _ _ _ _ obstacles);
    destruct (Physics.checkCollision _ _ _ _ _ obstacles);
    cbv zeta; destruct (_ <=? 0); try destruct (Physics.checkCollision _ _ _ _ _ obstacles);
    cbn [Physics.position Physics.velocity Vec3.x Vec3.y Vec3.z].
  all: split; [nra|].
  all: intros Hx Hz.
  all: pose proof (clamp_step h (Vec3.x position) (Vec3.x velocity * dt) Hx) as Cx.
  all: pose proof (clamp_step h (Vec3.z position) (Vec3.z velocity * dt) Hz) as Cz.
  all: pose proof (clamp_step h (Vec3.x position) 0 Hx) as Cx0.
  all: pose proof (clamp_step h (Vec3.z position) 0 Hz) as Cz0.
  all: rewrite Rplus_0_r in Cx0, Cz0.
  all: nra.
Qed.

(** Whatever the flags and whatever number the yaw is, a living player
    leaves [processInput] with a horizontal speed of at most [MOVE_SPEED * SPRINT_MULTIPLIER] (8 units
    per second), and of at most [MOVE_SPEED] when the sprint flag is not
    set; a player inside the map bounds is moved horizontally by no more
    than that speed times the time step. *)
Lemma processInput_speed :
  forall (p : Player.t) (input : InputData.t) (dt : R) (obstacles : list Obstacle.t),
    Player.isDead p = false ->
    let p' := Player.processInput p input dt obstacles in
    let top := GAME_CONSTANTS.MOVE_SPEED * GAME_CONSTANTS.SPRINT_MULTIPLIER in
    let h := GAME_CONSTANTS.MAP_SIZE / 2 - GAME_CONSTANTS.PLAYER_RADIUS in
    Player.vx p' * Player.vx p' + Player.vz p' * Player.vz p' <= top * top /\
    (InputData.sprint input = false ->
     Player.vx p' * Player.vx p' + Player.vz p' * Player.vz p'
     <= GAME_CONSTANTS.MOVE_SPEED * GAME_CONSTANTS.MOVE_SPEED) /\
    (- h <= Player.x p <= h -> - h <= Player.z p <= h ->
     (Player.x p' - Player.x p) * (Player.x p' - Player.x p)
     + (Player.z p' - Player.z p) * (Player.z p' - Player.z p)
     <= top * dt * (top * dt)).
Proof.
  intros p input dt obstacles Halive p' top h. subst p'.
  unfold Player.processInput. rewrite Halive. cbv zeta.
  cbn [Player.x Player.y Player.z Player.vx Player.vy Player.vz].
  match goal with
  | |- context [Physics.applyPhysics ?pos
                  (Vec3.mk ((?A * cos ?a + ?B * sin ?a) * ?s) ?vy
                           ((- ?A * sin ?a + ?B * cos ?a) * ?s)) dt obstacles] =>
      pose proof (applyPhysics_horizontal pos
                    (Vec3.mk ((A * cos a + B * sin a) * s) vy
                             ((- A * sin a + B * cos a) * s)) dt obstacles) as Hh;
      pose proof (rotation_norm A B a) as Hrot;
      assert (Hunit : A * A + B * B <= 1) by apply unit_direction;
      assert (Hs : 0 <= s <= top
                   /\ (InputData.sprint input = false -> s <= GAME_CONSTANTS.MOVE_SPEED));
      [| set (res := Physics.applyPhysics pos
                       (Vec3.mk ((A * cos a + B * sin a) * s) vy
                                ((- A * sin a + B * cos a) * s)) dt obstacles) in *;
         set (wx := A * cos a + B * sin a) in *;
         set (wz := - A * sin a + B * cos a) in *;
         clearbody res wx wz; set (speed := s) in *; clearbody speed ]
  end.
  { unfold top, GAME_CONSTANTS.MOVE_SPEED, GAME_CONSTANTS.SPRINT_MULTIPLIER,
      GAME_CONSTANTS.SNEAK_MULTIPLIER.
    destruct (InputData.sprint input), (InputData.sneak input);
      (split; [lra | intros H; try discriminate H; lra]). }
  cbv zeta in Hh. cbn [Vec3.x Vec3.y Vec3.z] in Hh. fold h in Hh.
  destruct Hh as [Hv Hd]. destruct Hs as [[Hs0 Hs1] Hs2].
  assert (Hw : wx * speed * (wx * speed) + wz * speed * (wz * speed) <= speed * speed).
  { replace (wx * speed * (wx * speed) + wz * speed * (wz * speed))
      with ((wx * wx + wz * wz) * (speed * speed)) by ring.
    rewrite Hrot. nra. }
  assert (Htop : 0 <= top)
    by (unfold top, GAME_CONSTANTS.MOVE_SPEED, GAME_CONSTANTS.SPRINT_MULTIPLIER; lra).
  split; [nra|]. split.
  - intros Hsp. specialize (Hs2 Hsp).
    assert (0 <= GAME_CONSTANTS.MOVE_SPEED) by (unfold GAME_CONSTANTS.MOVE_SPEED; lra).
    nra.
  - intros Hx Hz. specialize (Hd Hx Hz).
    assert (Hdt : 0 <= dt * dt) by nra.
    assert (Hss : speed * speed <= top * top) by nra.
    replace (top * dt * (top * dt)) with (top * top * (dt * dt)) by ring.
    apply Rle_trans with (1 := Hd).
    apply Rmult_le_compat_r; [exact Hdt|]. lra.
Qed.

(** ** Collisions *)

Lemma clamp_inside (h v : R) : - h <= v <= h -> Rmax (- h) (Rmin h v) = v.
Proof.
  intros Hv. unfold Rmax, Rmin.
  destruct (Rle_dec h v); destruct (Rle_dec (- h) _); lra.
Qed.

Lemma checkCollision_below_tops (x y z radius height : R) (obstacles : list Obstacle.t) :
  0 <= y -> 0 < height ->
  Forall (fun o => y < Obstacle.height o) obstacles ->
  Physics.checkCollision x 0 z radius height obstacles
  = Physics.checkCollision x y z radius height obstacles.
Proof.
  intros Hy Hh Hall. unfold Physics.checkCollision.
  induction Hall as [|o tl Ho _ IH]; [reflexivity|].
  cbn [existsb]. rewrite IH. f_equal.
  unfold Physics.checkObstacleCollision. cbv zeta.
  destruct (_ <? radius * radius); [|reflexivity].
  replace (0 <? Obstacle.height o) with true by (symmetry; apply Rltb_true; lra).
  replace (y <? Obstacle.height o) with true by (symmetry; apply Rltb_true; lra).
  replace (0 + height >? 0) with true by (symmetry; apply Rltb_true; lra).
  replace (y + height >? 0) with true by (symmetry; apply Rltb_true; lra).
  reflexivity.
Qed.

(** X17. A physics step never moves a player into an obstacle: from a
    position that collides with nothing, with the step staying inside the
    map bounds, the position reached collides with nothing either,
    provided the step does not end on the ground; and also when it does,
    if the player started at or above the ground and below the top of
    every obstacle. *)
Theorem applyPhysics_no_penetration :
  forall (position velocity : Vec3.t) (dt : R) (obstacles : list Obstacle.t),
    let r := GAME_CONSTANTS.PLAYER_RADIUS in
    let hg := GAME_CONSTANTS.PLAYER_HEIGHT in
    let h := GAME_CONSTANTS.MAP_SIZE / 2 - r in
    let res := Physics.applyPhysics position velocity dt obstacles in
    Physics.checkCollision (Vec3.x position) (Vec3.y position) (Vec3.z position) r hg
      obstacles = false ->
    - h <= Vec3.x position <= h ->
    - h <= Vec3.x position + Vec3.x velocity * dt <= h ->
    - h <= Vec3.z position <= h ->
    - h <= Vec3.z position + Vec3.z velocity * dt <= h ->
    (Physics.grounded res = false ->
     Physics.checkCollision (Vec3.x (Physics.position res)) (Vec3.y (Physics.position res))
       (Vec3.z (Physics.position res)) r hg obstacles = false) /\
    (0 <= Vec3.y position ->
     Forall (fun o => Vec3.y position < Obstacle.height o) obstacles ->
     Physics.checkCollision (Vec3.x (Physics.position res)) (Vec3.y (Physics.position res))
       (Vec3.z (Physics.position res)) r hg obstacles = false).
Proof.
  intros position velocity dt obstacles r hg h res Hfree Hx Hx' Hz Hz'.
  subst res. unfold Physics.applyPhysics, Physics.getGroundHeight. fold r hg h.
  set (newY := Vec3.y position + (Vec3.y velocity - GAME_CONSTANTS.GRAVITY * dt) * dt).
  assert (Hhg : 0 < hg) by (unfold hg, GAME_CONSTANTS.PLAYER_HEIGHT; lra).
  assert (Hstep : forall x1 z1,
            Physics.checkCollision x1 (Vec3.y position) z1 r hg obstacles = false ->
            let y' := if newY <=? 0 then 0
                      else if Physics.checkCollision x1 newY z1 r hg obstacles
                           then Vec3.y position else newY in
            ((newY <=? 0) = false ->
             Physics.checkCollision x1 y' z1 r hg obstacles = false) /\
            (0 <= Vec3.y position ->
             Forall (fun o => Vec3.y position < Obstacle.height o) obstacles ->
             Physics.checkCollision x1 y' z1 r hg obstacles = false)).
  { intros x1 z1 Hfree1 y'. subst y'.
    destruct (newY <=? 0) eqn:Hland.
    - split; [discriminate|]. intros Hy Htops.
      now rewrite (checkCollision_below_tops x1 (Vec3.y position) z1 r hg obstacles).
    - destruct (Physics.checkCollision x1 newY z1 r hg obstacles) eqn:HcY;
        split; intros; assumption. }
  destruct (Physics.checkCollision (Vec3.x position + Vec3.x velocity * dt)
              (Vec3.y position) (Vec3.z position) r hg obstacles) eqn:HcX.
  - destruct (Physics.checkCollision (Vec3.x position) (Vec3.y position)
                (Vec3.z position + Vec3.z velocity * dt) r hg obstacles) eqn:HcZ.
    + destruct (Hstep _ _ Hfree) as [S1 S2]. cbv zeta in S1, S2.
      cbv zeta. destruct (newY <=? 0) eqn:Hland;
        try destruct (Physics.checkCollision (Vec3.x position) newY (Vec3.z position)
                        r hg obstacles);
        cbn [Physics.position Physics.grounded Vec3.x Vec3.y Vec3.z];
        rewrite !clamp_inside by assumption;
        (split; [intros Hg; try discriminate Hg; now apply S1 | exact S2]).
    + destruct (Hstep _ _ HcZ) as [S1 S2]. cbv zeta in S1, S2.
      cbv zeta. destruct (newY <=? 0) eqn:Hland;
        try destruct (Physics.checkCollision (Vec3.x position) newY
                        (Vec3.z position + Vec3.z velocity * dt) r hg obstacles);
        cbn [Physics.position Physics.grounded Vec3.x Vec3.y Vec3.z];
        rewrite !clamp_inside by assumption;
        (split; [intros Hg; try discriminate Hg; now apply S1 | exact S2]).
  - destruct (Physics.checkCollision (Vec3.x position + Vec3.x velocity * dt)
                (Vec3.y position) (Vec3.z position + Vec3.z velocity * dt) r hg obstacles)
      eqn:HcZ.
    + destruct (Hstep _ _ HcX) as [S1 S2]. cbv zeta in S1, S2.
      cbv zeta. destruct (newY <=? 0) eqn:Hland;
        try destruct (Physics.checkCollision (Vec3.x position + Vec3.x velocity * dt) newY
                        (Vec3.z position) r hg obstacles);
        cbn [Physics.position Physics.grounded Vec3.x Vec3.y Vec3.z];
        rewrite !clamp_inside by assumption;
        (split; [intros Hg; try discriminate Hg; now apply S1 | exact S2]).
    + destruct (Hstep _ _ HcZ) as [S1 S2]. cbv zeta in S1, S2.
      cbv zeta. destruct (newY <=? 0) eqn:Hland;
        try destruct (Physics.checkCollision (Vec3.x position + Vec3.x velocity * dt) newY
                        (Vec3.z position + Vec3.z velocity * dt) r hg obstacles);
        cbn [Physics.position Physics.grounded Vec3.x Vec3.y Vec3.z];
        rewrite !clamp_inside by assumption;
        (split; [intros Hg; try discriminate Hg; now apply S1 | exact S2]).
Qed.

Lemma applyPhysics_no_penetration_witness :
  Physics.checkCollision
    (Vec3.x (Physics.position (Physics.applyPhysics (Vec3.mk 0 0 3) (Vec3.mk 0 0 5) 1 [wall])))
    (Vec3.y (Physics.position (Physics.applyPhysics (Vec3.mk 0 0 3) (Vec3.mk 0 0 5) 1 [wall])))
    (Vec3.z (Physics.position (Physics.applyPhysics (Vec3.mk 0 0 3) (Vec3.mk 0 0 5) 1 [wall])))
    GAME_CONSTANTS.PLAYER_RADIUS GAME_CONSTANTS.PLAYER_HEIGHT [wall] = false.
Proof.
  assert (Hfree : Physics.checkCollision 0 0 3 GAME_CONSTANTS.PLAYER_RADIUS
                    GAME_CONSTANTS.PLAYER_HEIGHT [wall] = false).
  { unfold Physics.checkCollision, Physics.checkObstacleCollision, wall,
      GAME_CONSTANTS.PLAYER_RADIUS.
    cbn [existsb Obstacle.x Obstacle.z Obstacle.width Obstacle.depth Obstacle.height].
    replace (Rmin 0 (0 + 4 / 2)) with 0 by (unfold Rmin; destruct (Rle_dec _ _); lra).
    replace (Rmin 3 (5 + 1 / 2)) with 3 by (unfold Rmin; destruct (Rle_dec _ _); lra).
    replace (Rmax (0 - 4 / 2) 0) with 0 by (unfold Rmax; destruct (Rle_dec _ _); lra).
    replace (Rmax (5 - 1 / 2) 3) with (5 - 1 / 2)
      by (unfold Rmax; destruct (Rle_dec _ _); lra).
    Rcompare. reflexivity. }
  pose proof (applyPhysics_no_penetration (Vec3.mk 0 0 3) (Vec3.mk 0 0 5) 1 [wall]) as H.
  cbv zeta in H. cbn [Vec3.x Vec3.y Vec3.z] in H.
  unfold GAME_CONSTANTS.MAP_SIZE in H.
  apply H; try (unfold GAME_CONSTANTS.PLAYER_RADIUS; lra); try exact Hfree.
  constructor; [cbn; lra | constructor].
Defined.

(** ** Choosing the target of a bullet *)

Section Targets.
Variables (shooter : Player.t) (origin direction : Vec3.t) (weapon : Weapon.t)
          (rewindTime : R).

(** A player the bullet could hit: another living player with a position
    at [rewindTime] whose hit spheres the ray meets at distance [d]. *)
Definition candidate (t : Player.t) (d : R) (headshot : bool) : Prop :=
  Player.id t <> Player.id shooter /\
  Player.isDead t = false /\
  exists pastPos,
    Player.getPositionAt t rewindTime = Some pastPos /\
    Room.checkPlayerHit origin direction (Player.set_position t pastPos)
      (Weapon.range weapon) = HitPlayer d headshot.

Lemma raySphere_hit_range (o dir c : Vec3.t) (radius maxDistance t : R) :
  Room.raySphereIntersect o dir c radius maxDistance = Hit t -> 0 < t < maxDistance.
Proof.
  unfold Room.raySphereIntersect. cbv zeta.
  destruct (_ <? 0); [discriminate|].
  destruct (_ >? 0) eqn:H1; [|discriminate]. cbn [andb].
  destruct (_ <? maxDistance) eqn:H2; [|discriminate].
  intros H. injection H as <-. apply Rltb_true in H1, H2. lra.
Qed.

Lemma checkPlayerHit_range (o dir : Vec3.t) (t : Player.t) (maxDistance d : R)
    (hs : bool) :
  Room.checkPlayerHit o dir t maxDistance = HitPlayer d hs -> 0 < d < maxDistance.
Proof.
  unfold Room.checkPlayerHit. cbv zeta.
  destruct (Room.raySphereIntersect o dir _ GAME_CONSTANTS.HEAD_HEIGHT maxDistance)
    as [d1|] eqn:Hh.
  - intros H. injection H as <- _. now apply raySphere_hit_range in Hh.
  - destruct (Room.raySphereIntersect o dir _ (GAME_CONSTANTS.PLAYER_RADIUS * 1.5)
                maxDistance) as [d2|] eqn:Hb.
    + intros H. injection H as <- _. now apply raySphere_hit_range in Hb.
    + intros H. discriminate H.
Qed.

(** What the loop has established after the players [seen]. *)
Definition nearest_of (seen : list Player.t) (acc : option Z * R * bool) : Prop :=
  let '(hitPlayer, hitDistance, isHeadshot) := acc in
  match hitPlayer with
  | Some id =>
      exists t, In t seen /\ Player.id t = id /\ candidate t hitDistance isHeadshot
  | None => hitDistance = Weapon.range weapon /\ isHeadshot = false
  end /\
  hitDistance <= Weapon.range weapon /\
  forall t d hs, In t seen -> candidate t d hs -> hitDistance <= d.

Lemma tryTarget_nearest (seen : list Player.t) (acc : option Z * R * bool)
    (t : Player.t) :
  nearest_of seen acc ->
  nearest_of (seen ++ [t])
    (Room.tryTarget shooter origin direction weapon rewindTime acc t).
Proof.
  destruct acc as [[hp hd] hs]. unfold nearest_of. intros (Hsel & Hle & Hmin).
  assert (Hsel' : match hp with
                  | Some id => exists t0, In t0 (seen ++ [t]) /\ Player.id t0 = id
                                          /\ candidate t0 hd hs
                  | None => hd = Weapon.range weapon /\ hs = false
                  end).
  { destruct hp as [id|]; [|exact Hsel].
    destruct Hsel as (t0 & Hin & Hid & Hc). exists t0.
    split; [apply in_or_app; now left|]. now split. }
  assert (Hskip : (forall d h, ~ candidate t d h) ->
                  forall t0 d h, In t0 (seen ++ [t]) -> candidate t0 d h -> hd <= d).
  { intros Hno t0 d h Hin Hc. apply in_app_or in Hin. destruct Hin as [Hin|[->|[]]].
    - now apply (Hmin t0 d h).
    - exfalso. now apply (Hno d h). }
  unfold Room.tryTarget.
  destruct (Player.id t =? Player.id shooter)%Z eqn:Hid; cbn [orb].
  { split; [exact Hsel'|]. split; [exact Hle|]. apply Hskip.
    intros d h (Hne & _). apply Z.eqb_eq in Hid. congruence. }
  destruct (Player.isDead t) eqn:Hdead.
  { split; [exact Hsel'|]. split; [exact Hle|]. apply Hskip.
    intros d h (_ & Ha & _). congruence. }
  destruct (Player.getPositionAt t rewindTime) as [pastPos|] eqn:Hpos.
  2:{ split; [exact Hsel'|]. split; [exact Hle|]. apply Hskip.
      intros d h (_ & _ & pp & Hpp & _). congruence. }
  cbv zeta.
  destruct (Room.checkPlayerHit origin direction (Player.set_position t pastPos)
              (Weapon.range weapon)) as [d0 h0|] eqn:Hhit.
  2:{ split; [exact Hsel'|]. split; [exact Hle|]. apply Hskip.
      intros d h (_ & _ & pp & Hpp & Hh). congruence. }
  assert (Hc : candidate t d0 h0).
  { split; [now apply Z.eqb_neq|]. split; [exact Hdead|]. now exists pastPos. }
  assert (Honly : forall d h, candidate t d h -> d = d0).
  { intros d h (_ & _ & pp & Hpp & Hh). congruence. }
  pose proof (checkPlayerHit_range _ _ _ _ _ _ Hhit) as Hrange.
  destruct (d0 <? hd) eqn:Hlt.
  - apply Rltb_true in Hlt. split; [|split; [lra|]].
    + exists t. split; [apply in_or_app; right; now left|]. now split.
    + intros t0 d h Hin Hc0. apply in_app_or in Hin. destruct Hin as [Hin|[->|[]]].
      * specialize (Hmin t0 d h Hin Hc0). lra.
      * rewrite (Honly d h Hc0). lra.
  - apply Rltb_false in Hlt. split; [exact Hsel'|]. split; [exact Hle|].
    intros t0 d h Hin Hc0. apply in_app_or in Hin. destruct Hin as [Hin|[->|[]]].
    + now apply (Hmin t0 d h).
    + now rewrite (Honly d h Hc0).
Qed.

Lemma fold_nearest (ps seen : list Player.t) (acc : option Z * R * bool) :
  nearest_of seen acc ->
  nearest_of (seen ++ ps)
    (fold_left (Room.tryTarget shooter origin direction weapon rewindTime) ps acc).
Proof.
  revert seen acc. induction ps as [|t tl IH]; intros seen acc Hacc; cbn [fold_left].
  - now rewrite app_nil_r.
  - replace (seen ++ t :: tl) with ((seen ++ [t]) ++ tl) by now rewrite <- app_assoc.
    apply IH. now apply tryTarget_nearest.
Qed.

End Targets.

(** X18. The target loop of a bullet returns the nearest candidate: the
    player it selects is another living player of the room with a position
    at the rewind time, hit at the distance returned, which lies strictly
    between 0 and the weapon's range and is no larger than the distance of
    any other candidate; when it selects nobody there is no candidate at
    all.  A player whose history is empty, as it is right after [spawn],
    has no position at any time and is never a candidate. *)
Theorem nearestTarget_is_nearest :
  forall (ps : list Player.t) (shooter : Player.t) (origin direction : Vec3.t)
         (weapon : Weapon.t) (rewindTime : R),
    let res := Room.nearestTarget ps shooter origin direction weapon rewindTime in
    let hitDistance := snd (fst res) in
    (forall id, fst (fst res) = Some id ->
       0 < hitDistance < Weapon.range weapon /\
       exists t, In t ps /\ Player.id t = id /\
                 candidate shooter origin direction weapon rewindTime t hitDistance
                   (snd res)) /\
    (fst (fst res) = None ->
     forall t d hs, In t ps ->
       ~ candidate shooter origin direction weapon rewindTime t d hs) /\
    (forall t d hs, In t ps ->
       candidate shooter origin direction weapon rewindTime t d hs -> hitDistance <= d) /\
    (forall p r1 r2 d hs,
       ~ candidate shooter origin direction weapon rewindTime (Player.spawn p r1 r2) d hs).
Proof.
  intros ps shooter origin direction weapon rewindTime res hitDistance.
  assert (Hcand : forall t d hs,
            candidate shooter origin direction weapon rewindTime t d hs ->
            0 < d < Weapon.range weapon).
  { intros t d hs (_ & _ & pp & _ & Hh). now apply checkPlayerHit_range in Hh. }
  pose proof (fold_nearest shooter origin direction weapon rewindTime ps []
                (None, Weapon.range weapon, false)) as H.
  cbn [app] in H. fold (Room.nearestTarget ps shooter origin direction weapon rewindTime) in H.
  fold res in H. subst hitDistance.
  destruct res as [[hp hd] hs]. cbn [fst snd].
  destruct H as (Hsel & Hle & Hmin).
  { split; [split; reflexivity|]. split; [lra|]. intros t d hs0 []. }
  split; [|split; [|split]].
  - intros id ->. destruct Hsel as (t & Hin & Hid & Hc).
    split; [now apply (Hcand t hd hs)|]. now exists t.
  - intros ->. destruct Hsel as [-> _]. intros t d hs0 Hin Hc.
    specialize (Hmin t d hs0 Hin Hc). apply Hcand in Hc. lra.
  - exact Hmin.
  - intros p r1 r2 d hs0 (_ & _ & pp & Hpp & _).
    unfold Player.getPositionAt, Player.spawn in Hpp. cbn in Hpp. discriminate.
Qed.

(** ** What a tick leaves in place *)

Section Roster.
Variable E : Env.

(** The same players in the same order, the same room settings and the
    same tick counter; only the players' states and the hit list may
    differ. *)
Definition same_roster (r r' : Room.t) : Prop :=
  map Player.id (Room.players r') = map Player.id (Room.players r) /\
  Room.tick r' = Room.tick r /\
  Room.id r' = Room.id r /\
  Room.maxPlayers r' = Room.maxPlayers r /\
  Room.gameMode r' = Room.gameMode r /\
  Room.obstacles r' = Room.obstacles r /\
  Room.tickInterval r' = Room.tickInterval r /\
  Room.tickRate r' = Room.tickRate r /\
  Room.nextPlayerId r' = Room.nextPlayerId r.

Lemma same_roster_refl (r : Room.t) : same_roster r r.
Proof. unfold same_roster. tauto. Qed.

Lemma same_roster_trans (a b c : Room.t) :
  same_roster a b -> same_roster b c -> same_roster a c.
Proof. unfold same_roster. intuition congruence. Qed.

Lemma same_roster_put (r : Room.t) (p : Player.t) :
  same_roster r (Room.set_players r (Room.put (Room.players r) p)).
Proof.
  unfold same_roster. cbn [Room.players Room.set_players Room.id Room.maxPlayers
    Room.gameMode Room.obstacles Room.tickInterval Room.tickRate Room.nextPlayerId
    Room.tick].
  rewrite map_id_put. tauto.
Qed.

Lemma same_roster_hits (r : Room.t) (hits : list HitEvent.t) :
  same_roster r (Room.set_snapshotHits r hits).
Proof. unfold same_roster. cbn. tauto. Qed.

Lemma applyDamage_roster (r : Room.t) (e : Eff) (s tg : Z) (w : Weapon.t) (hs : bool) :
  same_roster r (fst (Room.applyDamage E r e s tg w hs)).
Proof.
  unfold Room.applyDamage.
  destruct (Room.get (Room.players r) tg) as [tp|]; [|apply same_roster_refl].
  destruct (Player.takeDamage tp _ s) as [killed tp'].
  set (r1 := Room.set_players r (Room.put (Room.players r) tp')).
  set (r2 := Room.set_snapshotHits r1 _).
  assert (H2 : same_roster r r2).
  { eapply same_roster_trans; [apply same_roster_put | apply same_roster_hits]. }
  destruct killed; [|exact H2].
  destruct (Room.get (Room.players r2) s) as [sp|]; [|exact H2].
  unfold FreeForAllMode.onPlayerKill, FreeForAllMode.onPlayerDeath, dateNow.
  cbn [fst snd].
  eapply same_roster_trans; [exact H2|].
  eapply same_roster_trans; [apply same_roster_put|].
  apply (same_roster_put (Room.set_players r2 (Room.put (Room.players r2) _))).
Qed.

Lemma fireBullet_roster (r : Room.t) (e : Eff) (s : Z) (w : Weapon.t) (rewindTime : R) :
  same_roster r (fst (Room.fireBullet E r e s w rewindTime)).
Proof.
  unfold Room.fireBullet.
  destruct (Room.get (Room.players r) s) as [sp|]; [|apply same_roster_refl].
  destruct (Room.applySpread E w (Player.getLookDirection sp) e) as [dir e1].
  destruct (Room.nearestTarget _ _ _ _ _ _) as [[hp hd] hh].
  destruct (Physics.hit _ && _); [apply same_roster_refl|].
  destruct hp as [tg|]; [apply applyDamage_roster | apply same_roster_refl].
Qed.

Lemma bullets_roster (n : nat) (s : Z) (w : Weapon.t) (rewindTime : R) :
  forall (r : Room.t) (e : Eff),
    same_roster r (fst (Room.bullets E n r e s w rewindTime)).
Proof.
  induction n as [|n IH]; intros r e; cbn [Room.bullets]; [apply same_roster_refl|].
  pose proof (fireBullet_roster r e s w rewindTime) as H1.
  destruct (Room.fireBullet E r e s w rewindTime) as [r1 e1]. cbn [fst] in H1.
  eapply same_roster_trans; [exact H1 | apply IH].
Qed.

Lemma handleShoot_roster (r : Room.t) (e : Eff) (s : Z) (shootTime : R) :
  same_roster r (fst (Room.handleShoot E r e s shootTime)).
Proof.
  unfold Room.handleShoot.
  destruct (Room.get (Room.players r) s) as [sp|]; [|apply same_roster_refl].
  unfold dateNow. destruct (Player.canShoot sp _) as [ok sp'].
  destruct ok; cbn [negb]; [|apply same_roster_put].
  destruct (GAME_CONSTANTS.WEAPONS_at (Player.weapon sp')) as [w|];
    [|apply same_roster_put].
  eapply same_roster_trans; [apply same_roster_put | apply bullets_roster].
Qed.

Lemma applyInput_roster (dt : R) (v : Z) (r : Room.t) (e : Eff) (i : InputData.t) :
  same_roster r (fst (Room.applyInput E dt v (r, e) i)).
Proof.
  unfold Room.applyInput.
  destruct (Room.get (Room.players r) v) as [p|]; [|apply same_roster_refl].
  destruct (InputData.shoot i); [|apply same_roster_put].
  unfold dateNow.
  eapply same_roster_trans; [apply same_roster_put | apply handleShoot_roster].
Qed.

Lemma inputs_roster (dt : R) (v : Z) (inputs : list InputData.t) :
  forall (r : Room.t) (e : Eff),
    same_roster r (fst (fold_left (Room.applyInput E dt v) inputs (r, e))).
Proof.
  induction inputs as [|i tl IH]; intros r e; cbn [fold_left]; [apply same_roster_refl|].
  pose proof (applyInput_roster dt v r e i) as H1.
  destruct (Room.applyInput E dt v (r, e) i) as [r1 e1]. cbn [fst] in H1.
  eapply same_roster_trans; [exact H1 | apply IH].
Qed.

Lemma drainPlayer_roster (dt : R) (v : Z) (r : Room.t) (e : Eff) :
  same_roster r (fst (Room.drainPlayer E dt (r, e) v)).
Proof.
  unfold Room.drainPlayer. cbn [fst].
  destruct (Room.get (Room.players r) v) as [p|]; [|apply same_roster_refl].
  pose proof (inputs_roster dt v (Player.pendingInputs p) r e) as H1.
  destruct (fold_left _ (Player.pendingInputs p) (r, e)) as [r1 e1]. cbn [fst] in H1.
  destruct (Room.get (Room.players r1) v) as [p1|]; [|exact H1].
  unfold dateNow. cbn [fst].
  eapply same_roster_trans; [exact H1 | apply same_roster_put].
Qed.

Lemma drainAll_roster (dt : R) (ids : list Z) :
  forall (r : Room.t) (e : Eff), same_roster r (fst (Room.drainAll E dt ids (r, e))).
Proof.
  unfold Room.drainAll.
  induction ids as [|v tl IH]; intros r e; cbn [fold_left]; [apply same_roster_refl|].
  pose proof (drainPlayer_roster dt v r e) as H1.
  destruct (Room.drainPlayer E dt (r, e) v) as [r1 e1]. cbn [fst] in H1.
  eapply same_roster_trans; [exact H1 | apply IH].
Qed.

Lemma respawnAll_ids (now : R) (obs : list Obstacle.t) (ps : list Player.t) :
  forall e, map Player.id (fst (Room.respawnAll E now obs ps e)) = map Player.id ps.
Proof.
  induction ps as [|p tl IH]; intros e; cbn [Room.respawnAll]; [reflexivity|].
  pose proof (respawnOne_id E now obs p e) as H1.
  destruct (Room.respawnOne E now obs p e) as [p' e1]. cbn [fst] in H1.
  specialize (IH e1). destruct (Room.respawnAll E now obs tl e1) as [tl' e2].
  cbn [fst map] in *. congruence.
Qed.

Lemma processRespawns_roster (r : Room.t) (e : Eff) :
  same_roster r (fst (Room.processRespawns E r e)).
Proof.
  unfold Room.processRespawns, dateNow.
  match goal with |- context [Room.respawnAll E ?n ?o ?ps ?e0] =>
    pose proof (respawnAll_ids n o ps e0) as H1;
    destruct (Room.respawnAll E n o ps e0) as [ps' e1] end.
  cbn [fst] in *. unfold same_roster. cbn. tauto.
Qed.

Lemma tick_ids (ps : list Player.t) (dt : R) (e : Eff) :
  map Player.id (fst (FreeForAllMode.tick E ps dt e)) = map Player.id ps.
Proof.
  unfold FreeForAllMode.tick, dateNow. cbn [fst]. rewrite map_map.
  apply map_ext. intros p. destruct (_ && _); reflexivity.
Qed.

Lemma resetAll_ids (ps : list Player.t) :
  forall e, map Player.id (fst (Room.resetAll E ps e)) = map Player.id ps.
Proof.
  induction ps as [|p tl IH]; intros e; cbn [Room.resetAll]; [reflexivity|].
  unfold random. cbn [fst snd].
  match goal with |- context [Room.resetAll E tl ?e0] =>
    specialize (IH e0); destruct (Room.resetAll E tl e0) as [tl' e1] end.
  cbn [fst map] in *. now rewrite IH.
Qed.

Lemma handleGameEnd_roster (r : Room.t) (e : Eff) :
  same_roster (Room.set_tick r 0) (fst (Room.handleGameEnd E r e)).
Proof.
  unfold Room.handleGameEnd. cbn [Room.players Room.set_tick].
  pose proof (resetAll_ids (Room.players r) e) as H1.
  destruct (Room.resetAll E (Room.players r) e) as [ps e1]. cbn [fst] in *.
  unfold same_roster. cbn. tauto.
Qed.

Lemma shouldEndGame_no_limits (m : FreeForAllMode.t) (ps : list Player.t) (e : Eff) :
  FreeForAllMode.scoreLimit m = 0%Z -> FreeForAllMode.timeLimit m = 0 ->
  FreeForAllMode.shouldEndGame E m ps e = (false, e).
Proof.
  intros Hs Ht. unfold FreeForAllMode.shouldEndGame. rewrite Hs, Ht. cbn [andb].
  replace (0 >? 0) with false by (symmetry; apply Rltb_false; lra). reflexivity.
Qed.

End Roster.

(** X19. A tick neither adds nor removes nor reorders players, and leaves
    the room's id, capacity, obstacles, tick rate and next player id as
    they were: so distinct ids stay distinct.  It advances the tick
    counter by one, or resets it to 0 when the game mode ends the game,
    which the default mode never does. *)
Theorem gameTick_keeps_roster :
  forall (E : Env) (r : Room.t) (e : Eff),
    let r' := fst (Room.gameTick E r e) in
    map Player.id (Room.players r') = map Player.id (Room.players r) /\
    (NoDup (map Player.id (Room.players r)) -> NoDup (map Player.id (Room.players r'))) /\
    Room.id r' = Room.id r /\
    Room.maxPlayers r' = Room.maxPlayers r /\
    Room.obstacles r' = Room.obstacles r /\
    Room.tickRate r' = Room.tickRate r /\
    Room.nextPlayerId r' = Room.nextPlayerId r /\
    (Room.tick r' = (Room.tick r + 1)%Z \/ Room.tick r' = 0%Z) /\
    (FreeForAllMode.scoreLimit (Room.gameMode r) = 0%Z ->
     FreeForAllMode.timeLimit (Room.gameMode r) = 0 ->
     Room.tick r' = (Room.tick r + 1)%Z).
Proof.
  intros E r e r'. subst r'. unfold Room.gameTick.
  set (r0 := Room.set_snapshotHits (Room.set_tick r (Room.tick r + 1)%Z) []).
  set (dt := 1 / IZR (Room.tickRate (Room.set_tick r (Room.tick r + 1)%Z))).
  pose proof (drainAll_roster E dt (map Player.id (Room.players r0)) r0 e) as H1.
  destruct (Room.drainAll E dt (map Player.id (Room.players r0)) (r0, e)) as [r1 e1].
  cbn [fst] in H1.
  pose proof (processRespawns_roster E r1 e1) as H2.
  destruct (Room.processRespawns E r1 e1) as [r2 e2]. cbn [fst] in H2.
  pose proof (tick_ids E (Room.players r2) dt e2) as H3.
  destruct (FreeForAllMode.tick E (Room.players r2) dt e2) as [ps3 e3]. cbn [fst] in H3.
  set (r3 := Room.set_players r2 ps3).
  assert (H03 : same_roster r0 r3).
  { eapply same_roster_trans; [exact H1|]. eapply same_roster_trans; [exact H2|].
    unfold same_roster, r3. cbn. tauto. }
  destruct (FreeForAllMode.shouldEndGame E (Room.gameMode r3) (Room.players r3) e3)
    as [ended e4] eqn:Hend.
  assert (Hmode : Room.gameMode r3 = Room.gameMode r).
  { destruct H03 as (_ & _ & _ & _ & Hm & _). exact Hm. }
  destruct ended.
  - pose proof (handleGameEnd_roster E r3 e4) as H4.
    destruct (Room.handleGameEnd E r3 e4) as [r4 e5]. cbn [fst] in *.
    unfold same_roster in H03, H4.
    cbn [Room.players Room.tick Room.id Room.maxPlayers Room.gameMode Room.obstacles
         Room.tickInterval Room.tickRate Room.nextPlayerId Room.set_tick
         Room.set_snapshotHits r0] in H03, H4.
    destruct H03 as (A1 & A2 & A3 & A4 & A5 & A6 & A7 & A8 & A9).
    destruct H4 as (B1 & B2 & B3 & B4 & B5 & B6 & B7 & B8 & B9).
    split; [congruence|]. split; [intros Hnd; now rewrite B1, A1|].
    repeat (split; [congruence|]). split; [now right|].
    intros Hs Ht. rewrite <- Hmode in Hs, Ht.
    rewrite (shouldEndGame_no_limits E _ _ e3 Hs Ht) in Hend. discriminate Hend.
  - cbn [fst]. unfold same_roster in H03.
    cbn [Room.players Room.tick Room.id Room.maxPlayers Room.gameMode Room.obstacles
         Room.tickInterval Room.tickRate Room.nextPlayerId Room.set_tick
         Room.set_snapshotHits r0] in H03.
    destruct H03 as (A1 & A2 & A3 & A4 & A5 & A6 & A7 & A8 & A9).
    split; [exact A1|]. split; [intros Hnd; now rewrite A1|].
    repeat (split; [assumption|]). split; [now left|]. intros _ _. exact A2.
Qed.

(** * Connections (server/src/index.ts): the [open] and [close] handlers *)

Module Handlers.

(** [open]: the socket data of a new connection. *)
Definition open : SocketData := mkSocketData 0 None.

(** [rooms.delete(id)]. *)
Definition rooms_delete (rooms : Server.t) (rid : RoomId) : Server.t :=
  filter (fun kv => negb (RoomId_eqb (fst kv) rid)) rooms.

(** [close]: the registry after the connection has gone. *)
Definition close (rooms : Server.t) (data : SocketData) (e : Eff) : Server.t * Eff :=
  if (playerId data =? 0)%Z then (rooms, e) else
  match roomId data with
  | None => (rooms, e)
  | Some rid =>
      match Server.rooms_get rooms rid with
      | None => (rooms, e)
      | Some room =>
          let (room, e) := Room.removePlayer room (playerId data) e in
          let rooms := Server.rooms_set rooms rid room in
          if (Room.playerCount room =? 0)%nat
             && negb (RoomId_eqb (Room.id room) Server.DEFAULT_ROOM)
          then (rooms_delete rooms (Room.id room), e)
          else (rooms, e)
      end
  end.

End Handlers.

(** ** The room registry *)

Section Registry.

Lemma RoomId_eqb_eq (a b : RoomId) : RoomId_eqb a b = true <-> a = b.
Proof.
  destruct a as [|n], b as [|m]; cbn; split; intros H; try discriminate; try reflexivity.
  - apply Nat.eqb_eq in H. now subst.
  - injection H as ->. apply Nat.eqb_refl.
Qed.

Lemma RoomId_eqb_refl (a : RoomId) : RoomId_eqb a a = true.
Proof. now apply RoomId_eqb_eq. Qed.

Lemma RoomId_eqb_neq (a b : RoomId) : RoomId_eqb a b = false <-> a <> b.
Proof.
  split.
  - intros H Heq. apply RoomId_eqb_eq in Heq. congruence.
  - intros H. destruct (RoomId_eqb a b) eqn:E; [|reflexivity].
    apply RoomId_eqb_eq in E. contradiction.
Qed.

Lemma rooms_get_set_eq (rooms : Server.t) (rid : RoomId) (room : Room.t) :
  Server.rooms_get (Server.rooms_set rooms rid room) rid = Some room.
Proof.
  unfold Server.rooms_get.
  induction rooms as [|kv tl IH]; cbn [Server.rooms_set find fst snd].
  - now rewrite RoomId_eqb_refl.
  - destruct (RoomId_eqb (fst kv) rid) eqn:Hk; cbn [find fst snd].
    + now rewrite RoomId_eqb_refl.
    + rewrite Hk. exact IH.
Qed.

Lemma rooms_get_set_neq (rooms : Server.t) (rid rid' : RoomId) (room : Room.t) :
  rid' <> rid ->
  Server.rooms_get (Server.rooms_set rooms rid room) rid' = Server.rooms_get rooms rid'.
Proof.
  intros Hne. unfold Server.rooms_get.
  induction rooms as [|kv tl IH]; cbn [Server.rooms_set find fst snd].
  - replace (RoomId_eqb rid rid') with false
      by (symmetry; apply RoomId_eqb_neq; congruence).
    reflexivity.
  - destruct (RoomId_eqb (fst kv) rid) eqn:Hk; cbn [find fst snd].
    + apply RoomId_eqb_eq in Hk. rewrite Hk.
      replace (RoomId_eqb rid rid') with false
        by (symmetry; apply RoomId_eqb_neq; congruence).
      reflexivity.
    + destruct (RoomId_eqb (fst kv) rid'); [reflexivity | exact IH].
Qed.

Lemma rooms_get_delete_eq (rooms : Server.t) (rid : RoomId) :
  Server.rooms_get (Handlers.rooms_delete rooms rid) rid = None.
Proof.
  unfold Server.rooms_get, Handlers.rooms_delete.
  induction rooms as [|kv tl IH]; cbn [filter find]; [reflexivity|].
  destruct (RoomId_eqb (fst kv) rid) eqn:Hk; cbn [negb find]; [exact IH|].
  rewrite Hk. exact IH.
Qed.

Lemma rooms_get_delete_neq (rooms : Server.t) (rid rid' : RoomId) :
  rid' <> rid ->
  Server.rooms_get (Handlers.rooms_delete rooms rid) rid' = Server.rooms_get rooms rid'.
Proof.
  intros Hne. unfold Server.rooms_get, Handlers.rooms_delete.
  induction rooms as [|kv tl IH]; cbn [filter find]; [reflexivity|].
  destruct (RoomId_eqb (fst kv) rid) eqn:Hk; cbn [negb find].
  - apply RoomId_eqb_eq in Hk. rewrite Hk.
    replace (RoomId_eqb rid rid') with false
      by (symmetry; apply RoomId_eqb_neq; congruence).
    exact IH.
  - destruct (RoomId_eqb (fst kv) rid'); [reflexivity | exact IH].
Qed.

Lemma get_filter_out (ps : list Player.t) (pid : Z) :
  Room.get (filter (fun q => negb (Player.id q =? pid)%Z) ps) pid = None.
Proof.
  unfold Room.get. induction ps as [|q tl IH]; cbn [filter find]; [reflexivity|].
  destruct (Player.id q =? pid)%Z eqn:Hq; cbn [negb find]; [exact IH|].
  rewrite Hq. exact IH.
Qed.

Lemma get_filter_other (ps : list Player.t) (pid v : Z) :
  v <> pid ->
  Room.get (filter (fun q => negb (Player.id q =? pid)%Z) ps) v = Room.get ps v.
Proof.
  intros Hne. unfold Room.get. induction ps as [|q tl IH]; cbn [filter find]; [reflexivity|].
  destruct (Player.id q =? pid)%Z eqn:Hq; cbn [negb find].
  - apply Z.eqb_eq in Hq.
    replace (Player.id q =? v)%Z with false by (symmetry; apply Z.eqb_neq; congruence).
    exact IH.
  - destruct (Player.id q =? v)%Z; [reflexivity | exact IH].
Qed.

End Registry.

(** X20. [removePlayer] does nothing for an id that is not in the room.
    For a player of the room it removes that player and keeps every other
    player as it was, tells the mode, and stops the loop when the room is
    left empty. *)
Theorem removePlayer_removes :
  forall (r : Room.t) (pid : Z) (e : Eff),
    let r' := fst (Room.removePlayer r pid e) in
    (Room.get (Room.players r) pid = None -> Room.removePlayer r pid e = (r, e)) /\
    Room.get (Room.players r') pid = None /\
    (forall v, v <> pid -> Room.get (Room.players r') v = Room.get (Room.players r) v) /\
    (forall p, Room.get (Room.players r) pid = Some p ->
       Room.players r' = filter (fun q => negb (Player.id q =? pid)%Z) (Room.players r) /\
       calls (snd (Room.removePlayer r pid e)) = calls e ++ [OnPlayerLeave pid] /\
       (Room.players r' = [] -> Room.tickInterval r' = false) /\
       (Room.players r' <> [] -> Room.tickInterval r' = Room.tickInterval r)).
Proof.
  intros r pid e r'. subst r'. unfold Room.removePlayer.
  destruct (Room.get (Room.players r) pid) as [p|] eqn:Hp.
  - set (ps' := filter (fun q => negb (Player.id q =? pid)%Z) (Room.players r)).
    assert (Hps : Room.players
                    (if (length (Room.players (Room.set_players r ps')) =? 0)%nat
                     then Room.stop (Room.set_players r ps') else Room.set_players r ps')
                  = ps').
    { destruct (_ =? 0)%nat; [|reflexivity].
      unfold Room.stop. destruct (Room.tickInterval _); reflexivity. }
    cbn [fst snd]. rewrite Hps.
    split; [discriminate|]. split; [apply get_filter_out|].
    split; [intros v Hv; now apply get_filter_other|].
    intros p0 _. split; [reflexivity|]. split.
    { unfold FreeForAllMode.onPlayerLeave, call. cbn [calls].
      now rewrite (get_id _ _ _ Hp). }
    cbn [Room.players Room.set_players]. fold ps'. split.
    + intros Hnil. rewrite Hnil. cbn [length Nat.eqb]. unfold Room.stop.
      cbn [Room.tickInterval Room.set_players].
      destruct (Room.tickInterval r) eqn:Ht; cbn; [reflexivity | exact Ht].
    + intros Hne. destruct ps' as [|q tl]; [congruence|]. reflexivity.
  - cbn [fst snd]. split; [reflexivity|]. split; [exact Hp|].
    split; [reflexivity|]. intros p0 H0. discriminate H0.
Qed.

(** X21. Closing a connection that never joined changes nothing.  Closing
    the connection of a player of a registered room removes that player
    from the room and leaves every other room, and every other player of
    the room, as it was; a room other than the lobby that is left empty is
    removed from the registry, and the lobby always stays. *)
Theorem close_removes_player :
  forall (rooms : Server.t) (data : SocketData) (e : Eff),
    (playerId data = 0%Z \/ roomId data = None -> Handlers.close rooms data e = (rooms, e)) /\
    (forall rid room,
       playerId data <> 0%Z -> roomId data = Some rid ->
       Server.rooms_get rooms rid = Some room -> Room.id room = rid ->
       let rooms' := fst (Handlers.close rooms data e) in
       let room' := fst (Room.removePlayer room (playerId data) e) in
       (forall rid', rid' <> rid ->
          Server.rooms_get rooms' rid' = Server.rooms_get rooms rid') /\
       (Room.players room' <> [] \/ rid = lobby ->
        Server.rooms_get rooms' rid = Some room') /\
       (Room.players room' = [] -> rid <> lobby -> Server.rooms_get rooms' rid = None)).
Proof.
  intros rooms data e. split.
  - intros [H|H]; unfold Handlers.close; rewrite H; [reflexivity|].
    destruct (playerId data =? 0)%Z; reflexivity.
  - intros rid room Hpid Hrid Hget Hid rooms' room'. subst rooms' room'.
    unfold Handlers.close. apply Z.eqb_neq in Hpid. rewrite Hpid, Hrid, Hget.
    assert (Hid' : Room.id (fst (Room.removePlayer room (playerId data) e)) = rid).
    { unfold Room.removePlayer.
      destruct (Room.get (Room.players room) (playerId data)); [|exact Hid].
      cbn [fst]. destruct (_ =? 0)%nat; [|exact Hid].
      unfold Room.stop. destruct (Room.tickInterval _); exact Hid. }
    destruct (Room.removePlayer room (playerId data) e) as [room1 e1]. cbn [fst] in *.
    unfold Room.playerCount, Server.DEFAULT_ROOM. rewrite Hid'.
    destruct (Room.players room1) as [|q tl] eqn:Hps; cbn [length Nat.eqb andb].
    + destruct (RoomId_eqb rid lobby) eqn:Hl; cbn [negb fst].
      * apply RoomId_eqb_eq in Hl.
        split; [intros rid' Hne; now apply rooms_get_set_neq|].
        split; [intros _; apply rooms_get_set_eq|]. intros _ Hnl. contradiction.
      * apply RoomId_eqb_neq in Hl.
        split.
        { intros rid' Hne. rewrite rooms_get_delete_neq by exact Hne.
          now apply rooms_get_set_neq. }
        split; [intros [H|H]; [congruence | contradiction]|].
        intros _ _. apply rooms_get_delete_eq.
    + cbn [fst].
      split; [intros rid' Hne; now apply rooms_get_set_neq|].
      split; [intros _; apply rooms_get_set_eq|]. intros H. discriminate H.
Qed.

(** X22. An INPUT frame that decodes, received on the connection of a
    player of a registered room, is appended to the end of that player's
    queue of pending inputs: the handler returns, sends nothing, leaves the
    connection data, every other player and every other room as they were,
    and applies no input before the next tick. *)
Theorem input_message_is_queued :
  forall (E : Env) (cfg : CONFIG.t) (rooms : Server.t) (ws : nat) (data : SocketData)
         (e : Eff) (msg : list Byte.byte) (rid : RoomId) (room : Room.t)
         (p : Player.t) (input : InputData.t),
    Protocol.getMessageType msg = Some ClientMessageType.INPUT ->
    playerId data <> 0%Z ->
    roomId data = Some rid ->
    Server.rooms_get rooms rid = Some room ->
    Room.get (Room.players room) (playerId data) = Some p ->
    Protocol.decodeInput E msg = Protocol.Ok input ->
    exists rooms' room',
      Server.message E cfg rooms ws data e msg true = Server.Returned rooms' data e /\
      Server.rooms_get rooms' rid = Some room' /\
      (forall rid', rid' <> rid ->
         Server.rooms_get rooms' rid' = Server.rooms_get rooms rid') /\
      Room.get (Room.players room') (playerId data)
      = Some (Player.set_pendingInputs p (Player.pendingInputs p ++ [input])) /\
      (forall v, v <> playerId data ->
         Room.get (Room.players room') v = Room.get (Room.players room) v) /\
      map Player.id (Room.players room') = map Player.id (Room.players room) /\
      Room.set_players room' (Room.players room) = room.
Proof.
  intros E cfg rooms ws data e msg rid room p input Hty Hpid Hrid Hget Hp Hdec.
  exists (Server.rooms_set rooms rid (Room.processInput room (playerId data) input)),
         (Room.processInput room (playerId data) input).
  split.
  { unfold Server.message. cbn [negb]. rewrite Hty.
    unfold ClientMessageType.INPUT, ClientMessageType.JOIN. cbn [Z.eqb Pos.eqb].
    apply Z.eqb_neq in Hpid. now rewrite Hpid, Hrid, Hdec, Hget. }
  split; [apply rooms_get_set_eq|].
  split; [intros rid' Hne; now apply rooms_get_set_neq|].
  unfold Room.processInput. rewrite Hp.
  pose proof (get_id _ _ _ Hp) as Hid.
  set (p' := Player.set_pendingInputs p (Player.pendingInputs p ++ [input])).
  assert (Hid' : Player.id p' = playerId data) by exact Hid.
  cbn [Room.players Room.set_players].
  split.
  { rewrite <- Hid'. apply get_put_eq with (q := p). now rewrite Hid'. }
  split.
  { intros v Hv. apply get_put_neq. rewrite Hid'. congruence. }
  split; [apply map_id_put|].
  destruct room; reflexivity.
Qed.

(** A 23-byte INPUT frame with sequence number 6 and the forward flag. *)
Definition frame6 : list Byte.byte :=
  [Byte.x02; Byte.x06; Byte.x00; Byte.x00; Byte.x00; Byte.x01; Byte.x00]
  ++ repeat Byte.x00 16.

Definition input6 : InputData.t :=
  InputData.mk 6 true false false false false false false false 0 0 0 0.

Lemma input_message_is_queued_witness :
  Protocol.decodeInput E0 frame6 = Protocol.Ok input6 /\
  exists rooms' room',
    Server.message E0 CONFIG.default server_alice 7 conn_alice e0 frame6 true
    = Server.Returned rooms' conn_alice e0 /\
    Server.rooms_get rooms' lobby = Some room' /\
    Room.get (Room.players room') 1
    = Some (Player.set_pendingInputs alice [input6]).
Proof.
  assert (Hdec : Protocol.decodeInput E0 frame6 = Protocol.Ok input6) by reflexivity.
  split; [exact Hdec|].
  destruct (input_message_is_queued E0 CONFIG.default server_alice 7 conn_alice e0
              frame6 lobby room_alice alice input6)
    as (rooms' & room' & Hm & Hr & _ & Hq & _).
  - reflexivity.
  - cbn. discriminate.
  - reflexivity.
  - reflexivity.
  - reflexivity.
  - exact Hdec.
  - exists rooms', room'. split; [exact Hm|]. split; [exact Hr|]. exact Hq.
Defined.

(** * Respawning across the two clock readings of a tick *)

Section Respawn.
Variable E : Env.

Lemma respawnOne_clk (now : R) (obstacles : list Obstacle.t) (p : Player.t) (e : Eff) :
  clk (snd (Room.respawnOne E now obstacles p e)) = clk e.
Proof.
  unfold Room.respawnOne.
  destruct (Player.isDead p && (Player.respawnTime p >? 0) && (now >=? Player.respawnTime p));
    reflexivity.
Qed.

Lemma respawnAll_clk (now : R) (obstacles : list Obstacle.t) (ps : list Player.t) :
  forall e, clk (snd (Room.respawnAll E now obstacles ps e)) = clk e.
Proof.
  induction ps as [|q tl IH]; intros e; [reflexivity|].
  cbn [Room.respawnAll].
  pose proof (respawnOne_clk now obstacles q e) as Hq.
  destruct (Room.respawnOne E now obstacles q e) as [q' e'].
  pose proof (IH e') as Htl.
  destruct (Room.respawnAll E now obstacles tl e') as [tl' e''].
  cbn [snd] in *. congruence.
Qed.

End Respawn.

(** X23. A respawn can be lost.  [processRespawns] and the game mode's
    [tick] read the clock one after the other; when the respawn time of a
    dead player falls between the two readings, [processRespawns] leaves
    the player dead and [tick] then clears [respawnTime].  A dead player
    with [respawnTime = 0] is never respawned by [processRespawns], at any
    later time. *)
Theorem respawn_can_be_lost :
  forall (E : Env) (r : Room.t) (e : Eff) (dt : R) (pid : Z) (p : Player.t),
    Room.get (Room.players r) pid = Some p ->
    Player.isDead p = true ->
    now_at E (clk e) < Player.respawnTime p ->
    Player.respawnTime p <= now_at E (S (clk e)) ->
    0 < Player.respawnTime p ->
    let stuck := Player.set_respawnTime p 0 in
    let (r1, e1) := Room.processRespawns E r e in
    Room.get (fst (FreeForAllMode.tick E (Room.players r1) dt e1)) pid = Some stuck /\
    Player.isDead stuck = true /\
    forall (E' : Env) (r' : Room.t) (e' : Eff),
      Room.get (Room.players r') pid = Some stuck ->
      Room.get (Room.players (fst (Room.processRespawns E' r' e'))) pid = Some stuck.
Proof.
  intros E r e dt pid p Hget Hdead Hearly Hlate Hpos stuck.
  assert (Hnever : forall E' now obstacles e',
             Room.respawnOne E' now obstacles stuck e' = (stuck, e')).
  { intros E' now obstacles e'. unfold Room.respawnOne, stuck.
    cbn [Player.isDead Player.respawnTime Player.set_respawnTime]. rewrite Hdead.
    replace (0 >? 0) with false by (symmetry; apply Rltb_false; lra).
    reflexivity. }
  assert (Hkeep : forall e1, Room.respawnOne E (now_at E (clk e)) (Room.obstacles r) p e1
                             = (p, e1)).
  { intros e1. unfold Room.respawnOne. rewrite Hdead.
    replace (now_at E (clk e) >=? Player.respawnTime p) with false
      by (symmetry; apply Rleb_false; lra).
    now rewrite andb_false_r. }
  unfold Room.processRespawns, dateNow.
  destruct (respawnAll_get E (now_at E (clk e)) (Room.obstacles r) (Room.players r) pid p
              Hget (mkEff (S (clk e)) (rng e) (out e) (calls e))) as [e1 H1].
  pose proof (respawnAll_clk E (now_at E (clk e)) (Room.obstacles r) (Room.players r)
                (mkEff (S (clk e)) (rng e) (out e) (calls e))) as Hclk.
  destruct (Room.respawnAll E (now_at E (clk e)) (Room.obstacles r) (Room.players r)
              (mkEff (S (clk e)) (rng e) (out e) (calls e))) as [ps' e'].
  cbn [fst snd clk Room.players Room.set_players] in *.
  rewrite Hkeep in H1. cbn [fst] in H1.
  split; [|split].
  - unfold FreeForAllMode.tick, dateNow. cbn [fst]. rewrite Hclk.
    rewrite get_map.
    + rewrite H1. cbn [option_map]. rewrite Hdead.
      replace (Player.respawnTime p >? 0) with true by (symmetry; apply Rltb_true; lra).
      replace (now_at E (S (clk e)) >=? Player.respawnTime p) with true
        by (symmetry; apply Rleb_true; lra).
      reflexivity.
    + intros q. destruct (_ && _ && _); reflexivity.
  - exact Hdead.
  - intros E' r' e0' Hget'. unfold Room.processRespawns, dateNow.
    destruct (respawnAll_get E' (now_at E' (clk e0')) (Room.obstacles r') (Room.players r')
                pid stuck Hget' (mkEff (S (clk e0')) (rng e0') (out e0') (calls e0')))
      as [e2 H2].
    destruct (Room.respawnAll E' (now_at E' (clk e0')) (Room.obstacles r') (Room.players r')
                (mkEff (S (clk e0')) (rng e0') (out e0') (calls e0'))) as [ps2 e2'].
    cbn [fst Room.players Room.set_players] in *. rewrite H2, Hnever. reflexivity.
Qed.

(** A clock that reads 11999 ms and then 12000 ms. *)
Definition E_edge : Env :=
  mkEnv (fun k => match k with O => 11999 | _ => 12000 end)
        (fun _ => 0.5) (fun v => v) (fun _ => 0) (fun _ => 0).

Lemma respawn_can_be_lost_witness :
  Room.get (Room.players room_bob) 2 = Some bob /\
  Room.get
    (fst (FreeForAllMode.tick E_edge
            (Room.players (fst (Room.processRespawns E_edge room_bob e0))) (1 / 60)
            (snd (Room.processRespawns E_edge room_bob e0)))) 2
  = Some (Player.set_respawnTime bob 0) /\
  Room.get
    (Room.players
       (fst (Room.processRespawns E0
               (Room.set_players room_bob [Player.set_respawnTime bob 0]) e0))) 2
  = Some (Player.set_respawnTime bob 0).
Proof.
  assert (H1 : now_at E_edge (clk e0) < Player.respawnTime bob) by (cbn; lra).
  assert (H2 : Player.respawnTime bob <= now_at E_edge (S (clk e0))) by (cbn; lra).
  assert (H3 : 0 < Player.respawnTime bob) by (cbn; lra).
  pose proof (respawn_can_be_lost E_edge room_bob e0 (1 / 60) 2 bob
                eq_refl eq_refl H1 H2 H3) as H.
  cbv zeta in H.
  destruct (Room.processRespawns E_edge room_bob e0) as [r1 e1].
  destruct H as (Ha & _ & Hb).
  split; [reflexivity|]. split; [exact Ha|].
  apply Hb. reflexivity.
Defined.

(** ** Replaying the unacknowledged inputs *)

Section Replay.



Definition distSq (a b : Vec3.t) : R :=
  (Vec3.x a - Vec3.x b) * (Vec3.x a - Vec3.x b)
  + (Vec3.y a - Vec3.y b) * (Vec3.y a - Vec3.y b)
  + (Vec3.z a - Vec3.z b) * (Vec3.z a - Vec3.z b).




Lemma splitAt_None (ack : Z) (history : list PlayerController.HistoryEntry) :
  (forall b, In b history -> PlayerController.seq b <> ack) ->
  PlayerController.splitAt ack history = None.
Proof.
  induction history as [|b tl IH]; intros Hb; [reflexivity|].
  cbn [PlayerController.splitAt].
  replace (PlayerController.seq b =? ack)%Z with false
    by (symmetry; apply Z.eqb_neq, Hb; now left).
  rewrite IH; [reflexivity|]. intros b' Hin. apply Hb. now right.
Qed.

End Replay.





(** ** Choosing a room for a JOIN *)

Section RoomChoice.

Lemma rooms_get_In (rooms : Server.t) (rid : RoomId) (room : Room.t) :
  Server.rooms_get rooms rid = Some room -> exists k, In (k, room) rooms.
Proof.
  unfold Server.rooms_get. intros H.
  destruct (find (fun kv => RoomId_eqb (fst kv) rid) rooms) as [[k r]|] eqn:Hf;
    [|discriminate].
  cbn in H. injection H as ->. exists k. now apply find_some in Hf.
Qed.

Lemma rooms_set_same (rooms : Server.t) (rid rid' : RoomId) (room : Room.t) :
  Server.rooms_get rooms rid = Some room ->
  Server.rooms_get (Server.rooms_set rooms rid room) rid' = Server.rooms_get rooms rid'.
Proof.
  intros Hget. destruct (RoomId_eqb rid' rid) eqn:Heq.
  - apply RoomId_eqb_eq in Heq. subst rid'. now rewrite rooms_get_set_eq.
  - apply RoomId_eqb_neq in Heq. now apply rooms_get_set_neq.
Qed.

Lemma length_rooms_set_new (rooms : Server.t) (rid : RoomId) (room : Room.t) :
  Server.rooms_get rooms rid = None ->
  Server.rooms_set rooms rid room = rooms ++ [(rid, room)].
Proof.
  unfold Server.rooms_get. induction rooms as [|kv tl IH]; intros H; [reflexivity|].
  cbn [find Server.rooms_set app] in *.
  destruct (RoomId_eqb (fst kv) rid); [discriminate|].
  now rewrite IH.
Qed.

End RoomChoice.

(** X25. Which room a JOIN goes to.  [findAvailableRoom] returns the first
    room of the registry that is not full.  When every room is full it
    takes the id [room_(size + 1)]: if no room has that id, a new empty
    room is registered at the end, whatever [MAX_ROOMS] says; if a room has
    that id already (rooms have been removed since), that full room is
    returned, and the JOIN is answered by closing the connection, with the
    registry and the connection data as they were. *)
Theorem join_room_choice :
  forall (E : Env) (cfg : CONFIG.t) (rooms : Server.t) (e : Eff),
    let newId := room_ (length rooms + 1) in
    (forall before rid room after,
       rooms = before ++ (rid, room) :: after ->
       Room.isFull room = false ->
       (forall kv, In kv before -> Room.isFull (snd kv) = true) ->
       Server.findAvailableRoom E cfg rooms e = (rooms, room, e)) /\
    ((forall kv, In kv rooms -> Room.isFull (snd kv) = true) ->
     Server.rooms_get rooms newId = None ->
     exists room e',
       Server.findAvailableRoom E cfg rooms e = (rooms ++ [(newId, room)], room, e') /\
       Room.id room = newId /\ Room.players room = [] /\
       Room.maxPlayers room = CONFIG.MAX_PLAYERS_PER_ROOM cfg /\
       Room.nextPlayerId room = 1%Z /\ out e' = out e) /\
    (forall room ws data msg,
       (forall kv, In kv rooms -> Room.isFull (snd kv) = true) ->
       Server.rooms_get rooms newId = Some room ->
       Room.id room = newId ->
       Protocol.getMessageType msg = Some ClientMessageType.JOIN ->
       exists rooms',
         Server.message E cfg rooms ws data e msg true
         = Server.Returned rooms' data (emit (Close ws) e) /\
         forall rid, Server.rooms_get rooms' rid = Server.rooms_get rooms rid).
Proof.
  intros E cfg rooms e newId. split; [|split].
  - intros before rid room after -> Hfree Hfull. unfold Server.findAvailableRoom.
    assert (Hfind : find (fun kv => negb (Room.isFull (snd kv)))
                      (before ++ (rid, room) :: after) = Some (rid, room)).
    { induction before as [|b tl IH]; cbn [app find snd].
      - now rewrite Hfree.
      - rewrite (Hfull b (or_introl eq_refl)). cbn [negb]. apply IH.
        intros kv Hin. apply Hfull. now right. }
    now rewrite Hfind.
  - intros Hfull Hnew. unfold Server.findAvailableRoom.
    assert (Hfind : find (fun kv => negb (Room.isFull (snd kv))) rooms = None).
    { destruct (find _ rooms) as [kv|] eqn:Hf; [|reflexivity].
      apply find_some in Hf. destruct Hf as [Hin Hf].
      rewrite (Hfull kv Hin) in Hf. discriminate Hf. }
    rewrite Hfind. fold newId. unfold Server.getOrCreateRoom. rewrite Hnew.
    unfold Room.new, FreeForAllMode.new, dateNow.
    rewrite (length_rooms_set_new _ _ _ Hnew).
    eexists. eexists. split; [reflexivity|]. repeat split.
  - intros room ws data msg Hfull Hget Hid Hty.
    assert (Hfind : find (fun kv => negb (Room.isFull (snd kv))) rooms = None).
    { destruct (find _ rooms) as [kv|] eqn:Hf; [|reflexivity].
      apply find_some in Hf. destruct Hf as [Hin Hf].
      rewrite (Hfull kv Hin) in Hf. discriminate Hf. }
    assert (Hroom : Room.isFull room = true).
    { destruct (rooms_get_In _ _ _ Hget) as [k Hin]. apply (Hfull _ Hin). }
    exists (Server.rooms_set rooms newId room). split.
    + unfold Server.message. cbn [negb]. rewrite Hty, Z.eqb_refl.
      unfold Server.findAvailableRoom. rewrite Hfind. fold newId.
      unfold Server.getOrCreateRoom. rewrite Hget.
      unfold Room.addPlayer. unfold Room.isFull in Hroom. rewrite Hroom, Hid.
      reflexivity.
    + intros rid. now apply rooms_set_same.
Qed.

(** Rooms for one player each: the lobby and [room_ 3] are full, [room_ 2]
    has been removed. *)
Definition room_one (rid : RoomId) : Room.t :=
  Room.mk rid 1 [alice] (FreeForAllMode.mk 0 0 0) [] 0 true [] 60 2.

Definition server_gap : Server.t := [(lobby, room_one lobby); (room_ 3, room_one (room_ 3))].

Lemma join_room_choice_witness :
  exists rooms',
    Server.message E0 CONFIG.default server_gap 9 fresh e0 [Byte.x01; Byte.x00] true
    = Server.Returned rooms' fresh (emit (Close 9) e0) /\
    forall rid, Server.rooms_get rooms' rid = Server.rooms_get server_gap rid.
Proof.
  pose proof (join_room_choice E0 CONFIG.default server_gap e0) as (_ & _ & H).
  apply (H (room_one (room_ 3)) 9%nat fresh [Byte.x01; Byte.x00]).
  - intros kv [<-|[<-|[]]]; reflexivity.
  - reflexivity.
  - reflexivity.
  - reflexivity.
Defined.

(** ** The direction of a bullet *)

Section Direction.

Definition normSq (v : Vec3.t) : R :=
  Vec3.x v * Vec3.x v + Vec3.y v * Vec3.y v + Vec3.z v * Vec3.z v.

Lemma lookDirection_unit (p : Player.t) : normSq (Player.getLookDirection p) = 1.
Proof.
  unfold normSq, Player.getLookDirection. cbn [Vec3.x Vec3.y Vec3.z].
  pose proof (sin2_cos2 (Player.yaw p)) as Hy.
  pose proof (sin2_cos2 (Player.pitch p)) as Hp.
  unfold Rsqr in Hy, Hp.
  set (sy := sin (Player.yaw p)) in *. set (cy := cos (Player.yaw p)) in *.
  set (sp := sin (Player.pitch p)) in *. set (cp := cos (Player.pitch p)) in *.
  replace (sy * cp * (sy * cp) + - sp * - sp + cy * cp * (cy * cp))
    with ((sy * sy + cy * cy) * (cp * cp) + sp * sp) by ring.
  rewrite Hy. lra.
Qed.

Lemma perturbed_nonzero (a b c u v w s : R) :
  a * a + b * b + c * c = 1 ->
  0 <= s <= 0.15 ->
  - (s / 2) <= u <= s / 2 -> - (s / 2) <= v <= s / 2 -> - (s / 2) <= w <= s / 2 ->
  0 < (a + u) * (a + u) + (b + v) * (b + v) + (c + w) * (c + w).
Proof.
  intros Hn Hs Hu Hv Hw.
  assert (Ha : -1 <= a <= 1) by nra.
  assert (Hb : -1 <= b <= 1) by nra.
  assert (Hc : -1 <= c <= 1) by nra.
  assert (Hau : - 0.075 <= a * u) by nra.
  assert (Hbv : - 0.075 <= b * v) by nra.
  assert (Hcw : - 0.075 <= c * w) by nra.
  nra.
Qed.

Lemma normalised_unit (x y z : R) :
  0 < x * x + y * y + z * z ->
  let len := sqrt (x * x + y * y + z * z) in
  x / len * (x / len) + y / len * (y / len) + z / len * (z / len) = 1.
Proof.
  intros Hpos len.
  assert (Hlen : 0 < len) by (apply sqrt_lt_R0; exact Hpos).
  assert (Hsq : len * len = x * x + y * y + z * z) by (apply sqrt_sqrt; lra).
  replace (x / len * (x / len) + y / len * (y / len) + z / len * (z / len))
    with ((x * x + y * y + z * z) / (len * len)) by (field; lra).
  rewrite Hsq. field. lra.
Qed.

End Direction.

(** For a shooter whose yaw and pitch are numbers, the direction a bullet
    is traced along has length 1, before and after the spread. *)
Lemma direction_unit :
  forall (E : Env) (weapon : Weapon.t) (shooter : Player.t) (e : Eff),
    In weapon GAME_CONSTANTS.WEAPONS ->
    (forall k, 0 <= rnd_at E k < 1) ->
    let (direction, e') := Room.applySpread E weapon (Player.getLookDirection shooter) e in
    normSq (Player.getLookDirection shooter) = 1 /\
    normSq direction = 1 /\
    rng e' = (rng e + 3)%nat /\ clk e' = clk e /\ out e' = out e.
Proof.
  intros E weapon shooter e Hw Hrnd.
  pose proof (lookDirection_unit shooter) as Hunit.
  assert (Hs : 0 < Weapon.spread weapon <= 0.15).
  { cbn in Hw. destruct Hw as [<-|[<-|[<-|[<-|[]]]]]; cbn; lra. }
  unfold Room.applySpread.
  replace (Weapon.spread weapon >? 0) with true by (symmetry; apply Rltb_true; lra).
  unfold random. cbn [rng clk out calls fst snd].
  split; [exact Hunit|]. split.
  - unfold normSq in *. cbn [Vec3.x Vec3.y Vec3.z] in *.
    apply normalised_unit.
    pose proof (Hrnd (rng e)) as H1. pose proof (Hrnd (S (rng e))) as H2.
    pose proof (Hrnd (S (S (rng e)))) as H3.
    apply perturbed_nonzero with (s := Weapon.spread weapon); try assumption; try lra; nra.
  - split; [lia|]. split; reflexivity.
Qed.

(** * Values that are not numbers

    [getFloat32] and [getFloat64] return whatever the bytes of a frame
    encode, and [decodeInput] checks nothing: the yaw, the pitch and the
    timestamp of an input can be NaN or an infinity.  The functions these
    values reach are embedded here a second time, over every value a
    JavaScript number can take; on numbers they are the functions of the
    first part. *)

Module JsNumber.

(** A double: a number (a real, as before without rounding and without
    the sign of zero), NaN, or one of the two infinities. *)
Inductive t :=
| Finite (v : R)
| NaN
| PosInfinity
| NegInfinity.

Definition isFinite (a : t) : bool :=
  match a with Finite _ => true | _ => false end.

(** Unary minus. *)
Definition opp (a : t) : t :=
  match a with
  | Finite v => Finite (- v)
  | NaN => NaN
  | PosInfinity => NegInfinity
  | NegInfinity => PosInfinity
  end.

(** [a + b]. *)
Definition add (a b : t) : t :=
  match a with
  | NaN => NaN
  | Finite x =>
      match b with
      | Finite y => Finite (x + y)
      | _ => b
      end
  | PosInfinity =>
      match b with
      | NaN | NegInfinity => NaN
      | _ => PosInfinity
      end
  | NegInfinity =>
      match b with
      | NaN | PosInfinity => NaN
      | _ => NegInfinity
      end
  end.

(** [a - b]. *)
Definition sub (a b : t) : t :=
  match a with
  | NaN => NaN
  | Finite x =>
      match b with
      | Finite y => Finite (x - y)
      | _ => opp b
      end
  | PosInfinity =>
      match b with
      | NaN | PosInfinity => NaN
      | _ => PosInfinity
      end
  | NegInfinity =>
      match b with
      | NaN | NegInfinity => NaN
      | _ => NegInfinity
      end
  end.

(** An infinity times the number [x]. *)
Definition scaled (positive : bool) (x : R) : t :=
  if x >? 0 then (if positive then PosInfinity else NegInfinity)
  else if x <? 0 then (if positive then NegInfinity else PosInfinity)
  else NaN.

(** [a * b]. *)
Definition mul (a b : t) : t :=
  match a with
  | NaN => NaN
  | Finite x =>
      match b with
      | Finite y => Finite (x * y)
      | NaN => NaN
      | PosInfinity => scaled true x
      | NegInfinity => scaled false x
      end
  | PosInfinity =>
      match b with
      | Finite y => scaled true y
      | NaN => NaN
      | PosInfinity => PosInfinity
      | NegInfinity => NegInfinity
      end
  | NegInfinity =>
      match b with
      | Finite y => scaled false y
      | NaN => NaN
      | PosInfinity => NegInfinity
      | NegInfinity => PosInfinity
      end
  end.

(** [Math.sin] and [Math.cos]: NaN outside the numbers. *)
Definition sin (a : t) : t :=
  match a with Finite v => Finite (Rtrigo_def.sin v) | _ => NaN end.
Definition cos (a : t) : t :=
  match a with Finite v => Finite (Rtrigo_def.cos v) | _ => NaN end.

(** [a < b] and [a <= b]: false as soon as one side is NaN. *)
Definition ltb (a b : t) : bool :=
  match a with
  | NaN => false
  | Finite x =>
      match b with
      | Finite y => x <? y
      | PosInfinity => true
      | _ => false
      end
  | PosInfinity => false
  | NegInfinity =>
      match b with
      | Finite _ | PosInfinity => true
      | _ => false
      end
  end.

Definition leb (a b : t) : bool :=
  match a with
  | NaN => false
  | Finite x =>
      match b with
      | Finite y => x <=? y
      | PosInfinity => true
      | _ => false
      end
  | PosInfinity =>
      match b with
      | PosInfinity => true
      | _ => false
      end
  | NegInfinity =>
      match b with
      | NaN => false
      | _ => true
      end
  end.

(** [a > b] and [a >= b]. *)
Definition gtb (a b : t) : bool := ltb b a.
Definition geb (a b : t) : bool := leb b a.

(** [Math.max(a, b)] and [Math.min(a, b)]: NaN as soon as one argument
    is. *)
Definition max (a b : t) : t :=
  match a with
  | NaN => NaN
  | Finite x =>
      match b with
      | Finite y => Finite (Rmax x y)
      | NaN => NaN
      | PosInfinity => PosInfinity
      | NegInfinity => a
      end
  | PosInfinity =>
      match b with
      | NaN => NaN
      | _ => PosInfinity
      end
  | NegInfinity => b
  end.

Definition min (a b : t) : t :=
  match a with
  | NaN => NaN
  | Finite x =>
      match b with
      | Finite y => Finite (Rmin x y)
      | NaN => NaN
      | PosInfinity => a
      | NegInfinity => NegInfinity
      end
  | PosInfinity => b
  | NegInfinity =>
      match b with
      | NaN => NaN
      | _ => NegInfinity
      end
  end.

End JsNumber.

Module JsVec3.
Record t := mk { x : JsNumber.t; y : JsNumber.t; z : JsNumber.t }.
Definition of_vec3 (v : Vec3.t) : t :=
  mk (JsNumber.Finite (Vec3.x v)) (JsNumber.Finite (Vec3.y v))
     (JsNumber.Finite (Vec3.z v)).
End JsVec3.

(** ** The physics kernel over every value.  The fields of an obstacle and
    the constants are numbers, and arithmetic on them alone stays in [R];
    [radius] and [height] are [PLAYER_RADIUS] and [PLAYER_HEIGHT] at every
    call. *)

Module JsPhysics.
Import GAME_CONSTANTS JsNumber.

Definition checkObstacleCollision (x y z : JsNumber.t) (radius height : R)
    (obstacle : Obstacle.t) : bool :=
  let halfW := Obstacle.width obstacle / 2 in
  let halfD := Obstacle.depth obstacle / 2 in
  let closestX :=
    max (Finite (Obstacle.x obstacle - halfW))
        (min x (Finite (Obstacle.x obstacle + halfW))) in
  let closestZ :=
    max (Finite (Obstacle.z obstacle - halfD))
        (min z (Finite (Obstacle.z obstacle + halfD))) in
  let distX := sub x closestX in
  let distZ := sub z closestZ in
  let distSq := add (mul distX distX) (mul distZ distZ) in
  if ltb distSq (Finite (radius * radius)) then
    if ltb y (Finite (Obstacle.height obstacle))
       && gtb (add y (Finite height)) (Finite 0)
    then true else false
  else false.

Definition checkCollision (x y z : JsNumber.t) (radius height : R)
    (obstacles : list Obstacle.t) : bool :=
  existsb (checkObstacleCollision x y z radius height) obstacles.

Definition getGroundHeight (x z : JsNumber.t) (obstacles : list Obstacle.t) : JsNumber.t :=
  Finite 0.

Record PhysicsResult := mkPhysicsResult {
  position : JsVec3.t;
  velocity : JsVec3.t;
  grounded : bool
}.

Definition of_result (res : Physics.PhysicsResult) : PhysicsResult :=
  mkPhysicsResult (JsVec3.of_vec3 (Physics.position res))
    (JsVec3.of_vec3 (Physics.velocity res)) (Physics.grounded res).

Definition applyPhysics (position velocity : JsVec3.t) (deltaTime : JsNumber.t)
    (obstacles : list Obstacle.t) : PhysicsResult :=
  let radius := PLAYER_RADIUS in
  let height := PLAYER_HEIGHT in
  let vy := sub (JsVec3.y velocity) (mul (Finite GRAVITY) deltaTime) in
  let newX := add (JsVec3.x position) (mul (JsVec3.x velocity) deltaTime) in
  let newY := add (JsVec3.y position) (mul vy deltaTime) in
  let newZ := add (JsVec3.z position) (mul (JsVec3.z velocity) deltaTime) in
  let '(newX, vx) :=
    if checkCollision newX (JsVec3.y position) (JsVec3.z position) radius height obstacles
    then (JsVec3.x position, Finite 0) else (newX, JsVec3.x velocity) in
  let '(newZ, vz) :=
    if checkCollision newX (JsVec3.y position) newZ radius height obstacles
    then (JsVec3.z position, Finite 0) else (newZ, JsVec3.z velocity) in
  let groundY := getGroundHeight newX newZ obstacles in
  let '(newY, vy, grounded) :=
    if leb newY groundY then (groundY, Finite 0, true)
    else if checkCollision newX newY newZ radius height obstacles
         then (JsVec3.y position, Finite 0, false)
         else (newY, vy, false) in
  let halfMap := MAP_SIZE / 2 - radius in
  let newX := max (Finite (- halfMap)) (min (Finite halfMap) newX) in
  let newZ := max (Finite (- halfMap)) (min (Finite halfMap) newZ) in
  mkPhysicsResult (JsVec3.mk newX newY newZ) (JsVec3.mk vx vy vz) grounded.

End JsPhysics.

(** ** An input as [decodeInput] can return it. *)

Module JsInputData.
Record t := mk {
  seq : Z;
  forward : bool; backward : bool; left : bool; right : bool;
  jump : bool; sprint : bool; sneak : bool; shoot : bool;
  weapon : Z;
  yaw : JsNumber.t; pitch : JsNumber.t;
  timestamp : JsNumber.t
}.

(** An input whose three decoded floats are numbers. *)
Definition of_input (i : InputData.t) : t :=
  mk (InputData.seq i) (InputData.forward i) (InputData.backward i) (InputData.left i)
     (InputData.right i) (InputData.jump i) (InputData.sprint i) (InputData.sneak i)
     (InputData.shoot i) (InputData.weapon i)
     (JsNumber.Finite (InputData.yaw i)) (JsNumber.Finite (InputData.pitch i))
     (JsNumber.Finite (InputData.timestamp i)).

(** The same input with another yaw, pitch and timestamp. *)
Definition with_floats (i : InputData.t) (yaw pitch timestamp : JsNumber.t) : t :=
  mk (InputData.seq i) (InputData.forward i) (InputData.backward i) (InputData.left i)
     (InputData.right i) (InputData.jump i) (InputData.sprint i) (InputData.sneak i)
     (InputData.shoot i) (InputData.weapon i) yaw pitch timestamp.
End JsInputData.

(** ** The fields of a player that [processInput] reads or writes. *)

Module JsPlayer.
Import GAME_CONSTANTS JsNumber.

Record t := mk {
  isDead : bool;
  x : JsNumber.t; y : JsNumber.t; z : JsNumber.t;
  vx : JsNumber.t; vy : JsNumber.t; vz : JsNumber.t;
  yaw : JsNumber.t; pitch : JsNumber.t;
  weapon : Z;
  isShooting : bool;
  grounded : bool;
  lastProcessedInput : Z
}.

(** A player all of whose coordinates and angles are numbers. *)
Definition of_player (p : Player.t) : t :=
  mk (Player.isDead p)
     (Finite (Player.x p)) (Finite (Player.y p)) (Finite (Player.z p))
     (Finite (Player.vx p)) (Finite (Player.vy p)) (Finite (Player.vz p))
     (Finite (Player.yaw p)) (Finite (Player.pitch p))
     (Player.weapon p) (Player.isShooting p) (Player.grounded p)
     (Player.lastProcessedInput p).

Definition processInput (p : t) (input : JsInputData.t) (deltaTime : JsNumber.t)
    (obstacles : list Obstacle.t) : t :=
  if isDead p then p else
  let yaw' := JsInputData.yaw input in
  let pitch' := JsInputData.pitch input in
  let weapon' := JsInputData.weapon input in
  let isShooting' := JsInputData.shoot input in
  let speed :=
    if JsInputData.sprint input then MOVE_SPEED * SPRINT_MULTIPLIER
    else if JsInputData.sneak input then MOVE_SPEED * SNEAK_MULTIPLIER
    else MOVE_SPEED in
  let dx := 0 in
  let dz := 0 in
  let dz := if JsInputData.forward input then dz + 1 else dz in
  let dz := if JsInputData.backward input then dz - 1 else dz in
  let dx := if JsInputData.left input then dx - 1 else dx in
  let dx := if JsInputData.right input then dx + 1 else dx in
  let moving := Player.Rneqb dx 0 || Player.Rneqb dz 0 in
  let len := sqrt (dx * dx + dz * dz) in
  let dx := if moving then dx / len else dx in
  let dz := if moving then dz / len else dz in
  let sin := JsNumber.sin yaw' in
  let cos := JsNumber.cos yaw' in
  let moveX := mul (add (mul (Finite dx) cos) (mul (Finite dz) sin)) (Finite speed) in
  let moveZ := mul (add (mul (Finite (- dx)) sin) (mul (Finite dz) cos)) (Finite speed) in
  let jumping := JsInputData.jump input && grounded p in
  let vy' := if jumping then Finite JUMP_FORCE else vy p in
  let currentPos := JsVec3.mk (x p) (y p) (z p) in
  let currentVel := JsVec3.mk moveX vy' moveZ in
  let result := JsPhysics.applyPhysics currentPos currentVel deltaTime obstacles in
  {| isDead := isDead p;
     x := JsVec3.x (JsPhysics.position result);
     y := JsVec3.y (JsPhysics.position result);
     z := JsVec3.z (JsPhysics.position result);
     vx := JsVec3.x (JsPhysics.velocity result);
     vy := JsVec3.y (JsPhysics.velocity result);
     vz := JsVec3.z (JsPhysics.velocity result);
     yaw := yaw'; pitch := pitch';
     weapon := weapon'; isShooting := isShooting';
     grounded := JsPhysics.grounded result;
     lastProcessedInput := JsInputData.seq input |}.

Definition getLookDirection (p : t) : JsVec3.t :=
  JsVec3.mk (mul (sin (yaw p)) (cos (pitch p)))
            (opp (sin (pitch p)))
            (mul (cos (yaw p)) (cos (pitch p))).

End JsPlayer.

(** ** The lines of [gameTick] that fix the rewind time of a shot. *)

Module JsRoom.
Import JsNumber.

Definition clampShootTime (now : R) (timestamp : JsNumber.t) : JsNumber.t :=
  let maxLag := CONFIG.MAX_LAG_COMPENSATION in
  let shootTime := timestamp in
  let shootTime :=
    if ltb shootTime (Finite (now - maxLag)) then Finite (now - maxLag) else shootTime in
  let shootTime := if gtb shootTime (Finite now) then Finite now else shootTime in
  shootTime.

End JsRoom.

(** ** On numbers the two embeddings agree *)

Section OnNumbers.
Import JsNumber.

Lemma checkObstacleCollision_finite (x y z radius height : R) (obstacle : Obstacle.t) :
  JsPhysics.checkObstacleCollision (Finite x) (Finite y) (Finite z) radius height obstacle
  = Physics.checkObstacleCollision x y z radius height obstacle.
Proof. reflexivity. Qed.

Lemma checkCollision_finite (x y z radius height : R) (obstacles : list Obstacle.t) :
  JsPhysics.checkCollision (Finite x) (Finite y) (Finite z) radius height obstacles
  = Physics.checkCollision x y z radius height obstacles.
Proof.
  unfold JsPhysics.checkCollision, Physics.checkCollision.
  induction obstacles as [|o tl IH]; [reflexivity|].
  cbn [existsb]. now rewrite IH, checkObstacleCollision_finite.
Qed.

Lemma applyPhysics_finite (a b c d e f dt : R) (obstacles : list Obstacle.t) :
  JsPhysics.applyPhysics (JsVec3.mk (Finite a) (Finite b) (Finite c))
    (JsVec3.mk (Finite d) (Finite e) (Finite f)) (Finite dt) obstacles
  = JsPhysics.of_result
      (Physics.applyPhysics (Vec3.mk a b c) (Vec3.mk d e f) dt obstacles).
Proof.
  unfold JsPhysics.applyPhysics, Physics.applyPhysics, JsPhysics.of_result,
    JsPhysics.getGroundHeight, Physics.getGroundHeight.
  cbn [JsVec3.x JsVec3.y JsVec3.z Vec3.x Vec3.y Vec3.z add sub mul].
  rewrite !checkCollision_finite.
  destruct (Physics.checkCollision (a + d * dt) b c _ _ obstacles);
    cbn [add sub mul]; rewrite !checkCollision_finite;
    (match goal with
     | |- context [Physics.checkCollision ?u ?v (?w + ?g * ?h) ?r ?k ?o] =>
         destruct (Physics.checkCollision u v (w + g * h) r k o)
     end);
    cbn [leb]; rewrite ?checkCollision_finite;
    (match goal with
     | |- context [Rleb ?u 0] => destruct (Rleb u 0)
     end);
    try reflexivity;
    (match goal with
     | |- context [Physics.checkCollision ?u ?v ?w ?r ?k ?o] =>
         destruct (Physics.checkCollision u v w r k o)
     end);
    reflexivity.
Qed.

Lemma processInput_finite (p : Player.t) (input : InputData.t) (dt : R)
    (obstacles : list Obstacle.t) :
  JsPlayer.processInput (JsPlayer.of_player p) (JsInputData.of_input input) (Finite dt)
    obstacles
  = JsPlayer.of_player (Player.processInput p input dt obstacles).
Proof.
  unfold JsPlayer.processInput, Player.processInput.
  cbn [JsPlayer.isDead JsPlayer.of_player].
  destruct (Player.isDead p) eqn:Hd; [reflexivity|].
  cbv zeta.
  cbn [JsInputData.of_input JsInputData.yaw JsInputData.pitch JsInputData.weapon
       JsInputData.shoot JsInputData.sprint JsInputData.sneak JsInputData.forward
       JsInputData.backward JsInputData.left JsInputData.right JsInputData.jump
       JsInputData.seq JsPlayer.of_player JsPlayer.x JsPlayer.y JsPlayer.z JsPlayer.vy
       JsPlayer.grounded
       JsNumber.sin JsNumber.cos add mul].
  destruct (InputData.jump input && Player.grounded p);
    rewrite applyPhysics_finite; unfold JsPlayer.of_player;
    cbn [Player.isDead Player.x Player.y Player.z Player.vx Player.vy Player.vz
         Player.yaw Player.pitch Player.weapon Player.isShooting Player.grounded
         Player.lastProcessedInput JsPhysics.of_result JsPhysics.position
         JsPhysics.velocity JsPhysics.grounded JsVec3.of_vec3 JsVec3.x JsVec3.y JsVec3.z];
    reflexivity.
Qed.

Lemma getLookDirection_finite (p : Player.t) :
  JsPlayer.getLookDirection (JsPlayer.of_player p)
  = JsVec3.of_vec3 (Player.getLookDirection p).
Proof. reflexivity. Qed.

End OnNumbers.

(** ** NaN goes through *)

Section NotANumber.
Import JsNumber.

Lemma add_NaN_r (a : t) : add a NaN = NaN.
Proof. destruct a; reflexivity. Qed.

Lemma mul_NaN_r (a : t) : mul a NaN = NaN.
Proof. destruct a; reflexivity. Qed.

Lemma sin_not_finite (a : t) : isFinite a = false -> sin a = NaN.
Proof. destruct a; [discriminate | reflexivity..]. Qed.

Lemma cos_not_finite (a : t) : isFinite a = false -> cos a = NaN.
Proof. destruct a; [discriminate | reflexivity..]. Qed.

Lemma checkCollision_NaN_x (y z : t) (radius height : R) (obstacles : list Obstacle.t) :
  JsPhysics.checkCollision NaN y z radius height obstacles = false.
Proof.
  unfold JsPhysics.checkCollision.
  induction obstacles as [|o tl IH]; [reflexivity|].
  cbn [existsb]. rewrite IH. reflexivity.
Qed.

Lemma checkCollision_NaN_z (x y : t) (radius height : R) (obstacles : list Obstacle.t) :
  JsPhysics.checkCollision x y NaN radius height obstacles = false.
Proof.
  unfold JsPhysics.checkCollision.
  induction obstacles as [|o tl IH]; [reflexivity|].
  cbn [existsb]. rewrite IH. unfold JsPhysics.checkObstacleCollision.
  cbn [min max sub mul]. now rewrite add_NaN_r.
Qed.

Lemma applyPhysics_NaN_x (position velocity : JsVec3.t) (deltaTime : t)
    (obstacles : list Obstacle.t) :
  JsVec3.x position = NaN \/ JsVec3.x velocity = NaN ->
  JsVec3.x (JsPhysics.position (JsPhysics.applyPhysics position velocity deltaTime obstacles))
  = NaN.
Proof.
  intros H.
  assert (Hx : add (JsVec3.x position) (mul (JsVec3.x velocity) deltaTime) = NaN).
  { destruct H as [H|H]; rewrite H; [reflexivity|]. cbn [mul]. apply add_NaN_r. }
  unfold JsPhysics.applyPhysics. rewrite Hx, !checkCollision_NaN_x.
  repeat match goal with
         | |- context [if ?b then _ else _] => destruct b
         end; reflexivity.
Qed.

Lemma applyPhysics_NaN_z (position velocity : JsVec3.t) (deltaTime : t)
    (obstacles : list Obstacle.t) :
  JsVec3.z position = NaN \/ JsVec3.z velocity = NaN ->
  JsVec3.z (JsPhysics.position (JsPhysics.applyPhysics position velocity deltaTime obstacles))
  = NaN.
Proof.
  intros H.
  assert (Hz : add (JsVec3.z position) (mul (JsVec3.z velocity) deltaTime) = NaN).
  { destruct H as [H|H]; rewrite H; [reflexivity|]. cbn [mul]. apply add_NaN_r. }
  unfold JsPhysics.applyPhysics. rewrite Hz.
  destruct (JsPhysics.checkCollision _ (JsVec3.y position) (JsVec3.z position) _ _ obstacles);
    rewrite !checkCollision_NaN_z;
    repeat match goal with
           | |- context [if ?b then _ else _] => destruct b
           end; reflexivity.
Qed.

Lemma applyPhysics_NaN_velocity (position velocity : JsVec3.t) (deltaTime : t)
    (obstacles : list Obstacle.t) :
  (JsVec3.x velocity = NaN ->
   JsVec3.x (JsPhysics.velocity (JsPhysics.applyPhysics position velocity deltaTime obstacles))
   = NaN) /\
  (JsVec3.z velocity = NaN ->
   JsVec3.z (JsPhysics.velocity (JsPhysics.applyPhysics position velocity deltaTime obstacles))
   = NaN).
Proof.
  split; intros H.
  - assert (Hx : add (JsVec3.x position) (mul (JsVec3.x velocity) deltaTime) = NaN).
    { rewrite H. cbn [mul]. apply add_NaN_r. }
    unfold JsPhysics.applyPhysics. rewrite Hx, !checkCollision_NaN_x.
    repeat match goal with
           | |- context [if ?b then _ else _] => destruct b
           end; exact H.
  - assert (Hz : add (JsVec3.z position) (mul (JsVec3.z velocity) deltaTime) = NaN).
    { rewrite H. cbn [mul]. apply add_NaN_r. }
    unfold JsPhysics.applyPhysics. rewrite Hz.
    destruct (JsPhysics.checkCollision _ (JsVec3.y position) (JsVec3.z position) _ _
                obstacles);
      rewrite !checkCollision_NaN_z;
      repeat match goal with
             | |- context [if ?b then _ else _] => destruct b
             end; exact H.
Qed.

End NotANumber.

(** ** What holds of every value, and what only of numbers *)

(** X2. One physics step on a position, a velocity and a time step that
    are numbers is the step of the first part, and leaves the player inside
    the map square [|x|, |z| <= MAP_SIZE/2 - PLAYER_RADIUS], whatever the
    obstacles; it never takes a player standing at or above the ground
    below it; [grounded] is reported exactly when the candidate height
    [y + (vy - GRAVITY * dt) * dt] is at or below the ground, and then the
    player is on the ground with no vertical velocity.  A coordinate that
    is NaN is not brought back: when [x] (or [z]) of the position or of the
    velocity is NaN, the collision tests answer false, the final
    [Math.max]/[Math.min] returns NaN, and the step ends with that
    coordinate NaN. *)
Theorem applyPhysics_stays_in_bounds :
  forall (position velocity : Vec3.t) (deltaTime : R) (obstacles : list Obstacle.t),
    let res := Physics.applyPhysics position velocity deltaTime obstacles in
    let halfMap := GAME_CONSTANTS.MAP_SIZE / 2 - GAME_CONSTANTS.PLAYER_RADIUS in
    JsPhysics.applyPhysics (JsVec3.of_vec3 position) (JsVec3.of_vec3 velocity)
      (JsNumber.Finite deltaTime) obstacles
    = JsPhysics.of_result res /\
    - halfMap <= Vec3.x (Physics.position res) <= halfMap /\
    - halfMap <= Vec3.z (Physics.position res) <= halfMap /\
    (0 <= Vec3.y position -> 0 <= Vec3.y (Physics.position res)) /\
    (Physics.grounded res = true <->
     Vec3.y position
     + (Vec3.y velocity - GAME_CONSTANTS.GRAVITY * deltaTime) * deltaTime <= 0) /\
    (Physics.grounded res = true ->
     Vec3.y (Physics.position res) = 0 /\ Vec3.y (Physics.velocity res) = 0) /\
    (forall (jposition jvelocity : JsVec3.t) (jdt : JsNumber.t),
       let jres := JsPhysics.applyPhysics jposition jvelocity jdt obstacles in
       (JsVec3.x jposition = JsNumber.NaN \/ JsVec3.x jvelocity = JsNumber.NaN ->
        JsVec3.x (JsPhysics.position jres) = JsNumber.NaN) /\
       (JsVec3.z jposition = JsNumber.NaN \/ JsVec3.z jvelocity = JsNumber.NaN ->
        JsVec3.z (JsPhysics.position jres) = JsNumber.NaN)).
Proof.
  intros position velocity deltaTime obstacles res halfMap.
  split.
  { destruct position, velocity. apply applyPhysics_finite. }
  pose proof (applyPhysics_bounds position velocity deltaTime obstacles) as H.
  cbv zeta in H. destruct H as (H1 & H2 & H3 & H4 & H5).
  repeat (split; [assumption|]).
  intros jposition jvelocity jdt jres. split.
  - apply applyPhysics_NaN_x.
  - apply applyPhysics_NaN_z.
Qed.

(** X4. The rewind time handed to [handleShoot] for an input with the
    shoot flag.  For a timestamp that is a number it is the timestamp
    clamped to [[now - MAX_LAG_COMPENSATION, now]], [now] being the server
    clock read for that input: the timestamp itself inside the window,
    [now - 400] when it is older, [now] when it is in the future; the
    infinities are clamped likewise.  A NaN timestamp is not clamped: both
    comparisons are false and NaN is what [handleShoot] receives. *)
Theorem shoot_time_is_clamped :
  forall (E : Env) (dt : R) (pid : Z) (r : Room.t) (e : Eff) (input : InputData.t)
         (player : Player.t),
    Room.get (Room.players r) pid = Some player ->
    InputData.shoot input = true ->
    let now := now_at E (clk e) in
    let ts := InputData.timestamp input in
    (exists shootTime,
       JsRoom.clampShootTime now (JsNumber.Finite ts) = JsNumber.Finite shootTime /\
       now - CONFIG.MAX_LAG_COMPENSATION <= shootTime <= now /\
       (now - CONFIG.MAX_LAG_COMPENSATION <= ts <= now -> shootTime = ts) /\
       (ts < now - CONFIG.MAX_LAG_COMPENSATION ->
        shootTime = now - CONFIG.MAX_LAG_COMPENSATION) /\
       (now < ts -> shootTime = now) /\
       Room.applyInput E dt pid (r, e) input
       = Room.handleShoot E
           (Room.set_players r
              (Room.put (Room.players r)
                 (Player.processInput player input dt (Room.obstacles r))))
           (snd (dateNow E e)) pid shootTime) /\
    JsRoom.clampShootTime now JsNumber.NaN = JsNumber.NaN /\
    JsRoom.clampShootTime now JsNumber.PosInfinity = JsNumber.Finite now /\
    JsRoom.clampShootTime now JsNumber.NegInfinity
    = JsNumber.Finite (now - CONFIG.MAX_LAG_COMPENSATION).
Proof.
  intros E dt pid r e input player Hget Hshoot now ts.
  split.
  - destruct (applyInput_shoot_time E dt pid r e input player Hget Hshoot)
      as (t & Hw & Hin & Hold & Hnew & Heq).
    fold now ts in Hw, Hin, Hold, Hnew.
    exists t. split; [|repeat (split; [assumption|]); exact Heq].
    unfold JsRoom.clampShootTime. cbv zeta. unfold CONFIG.MAX_LAG_COMPENSATION in *.
    cbn [JsNumber.ltb].
    destruct (Rlt_dec ts (now - 400)) as [Ho|Ho].
    + replace (ts <? now - 400) with true by (symmetry; apply Rltb_true; exact Ho).
      unfold JsNumber.gtb. cbn [JsNumber.ltb].
      replace (now <? now - 400) with false by (symmetry; apply Rltb_false; lra).
      now rewrite (Hold Ho).
    + replace (ts <? now - 400) with false by (symmetry; apply Rltb_false; lra).
      unfold JsNumber.gtb. cbn [JsNumber.ltb].
      destruct (Rlt_dec now ts) as [Hn|Hn].
      * replace (now <? ts) with true by (symmetry; apply Rltb_true; exact Hn).
        now rewrite (Hnew Hn).
      * replace (now <? ts) with false by (symmetry; apply Rltb_false; lra).
        rewrite Hin; [reflexivity | lra].
  - split; [reflexivity|]. split; [reflexivity|].
    unfold JsRoom.clampShootTime, JsNumber.gtb, CONFIG.MAX_LAG_COMPENSATION.
    cbn [JsNumber.ltb].
    replace (now <? now - 400) with false by (symmetry; apply Rltb_false; lra).
    reflexivity.
Qed.

Lemma shoot_time_is_clamped_witness :
  Room.get (Room.players room_alice) 1 = Some alice /\
  InputData.shoot shot5 = true /\
  JsRoom.clampShootTime (now_at E0 (clk e0)) (JsNumber.Finite (InputData.timestamp shot5))
  = JsNumber.Finite 9900 /\
  Room.applyInput E0 (1 / 60) 1 (room_alice, e0) shot5
  = Room.handleShoot E0
      (Room.set_players room_alice
         (Room.put (Room.players room_alice)
            (Player.processInput alice shot5 (1 / 60) (Room.obstacles room_alice))))
      (snd (dateNow E0 e0)) 1 9900 /\
  JsRoom.clampShootTime (now_at E0 (clk e0)) JsNumber.NaN = JsNumber.NaN.
Proof.
  destruct (shoot_time_is_clamped E0 (1 / 60) 1 room_alice e0 shot5 alice
              eq_refl eq_refl) as ((t & Hc & _ & Hin & _ & _ & Heq) & Hnan & _).
  assert (Ht : t = 9900).
  { apply Hin. unfold CONFIG.MAX_LAG_COMPENSATION.
    cbn [now_at E0 clk e0 InputData.timestamp shot5]. lra. }
  subst t.
  split; [reflexivity|]. split; [reflexivity|]. split; [exact Hc|].
  split; [exact Heq | exact Hnan].
Defined.

(** X16. For an input whose yaw is a number, whatever the flags, a living
    player leaves [processInput] with a horizontal speed of at most
    [MOVE_SPEED * SPRINT_MULTIPLIER] (8 units per second), and of at most
    [MOVE_SPEED] when the sprint flag is not set; a player inside the map
    bounds is moved horizontally by no more than that speed times the time
    step.  For an input whose yaw is NaN or an infinity there is no bound:
    whatever the flags, [vx], [vz], [x] and [z] all become NaN; and a
    player whose [x] is NaN keeps it on every later input. *)
Theorem movement_speed_is_bounded :
  forall (p : Player.t) (input : InputData.t) (dt : R) (obstacles : list Obstacle.t),
    Player.isDead p = false ->
    let p' := Player.processInput p input dt obstacles in
    let top := GAME_CONSTANTS.MOVE_SPEED * GAME_CONSTANTS.SPRINT_MULTIPLIER in
    let h := GAME_CONSTANTS.MAP_SIZE / 2 - GAME_CONSTANTS.PLAYER_RADIUS in
    JsPlayer.processInput (JsPlayer.of_player p) (JsInputData.of_input input)
      (JsNumber.Finite dt) obstacles
    = JsPlayer.of_player p' /\
    Player.vx p' * Player.vx p' + Player.vz p' * Player.vz p' <= top * top /\
    (InputData.sprint input = false ->
     Player.vx p' * Player.vx p' + Player.vz p' * Player.vz p'
     <= GAME_CONSTANTS.MOVE_SPEED * GAME_CONSTANTS.MOVE_SPEED) /\
    (- h <= Player.x p <= h -> - h <= Player.z p <= h ->
     (Player.x p' - Player.x p) * (Player.x p' - Player.x p)
     + (Player.z p' - Player.z p) * (Player.z p' - Player.z p)
     <= top * dt * (top * dt)) /\
    (forall yaw pitch timestamp : JsNumber.t,
       JsNumber.isFinite yaw = false ->
       let q := JsPlayer.processInput (JsPlayer.of_player p)
                  (JsInputData.with_floats input yaw pitch timestamp)
                  (JsNumber.Finite dt) obstacles in
       JsPlayer.vx q = JsNumber.NaN /\ JsPlayer.vz q = JsNumber.NaN /\
       JsPlayer.x q = JsNumber.NaN /\ JsPlayer.z q = JsNumber.NaN /\
       JsPlayer.yaw q = yaw) /\
    (forall (q : JsPlayer.t) (next : JsInputData.t) (jdt : JsNumber.t),
       JsPlayer.x q = JsNumber.NaN ->
       JsPlayer.x (JsPlayer.processInput q next jdt obstacles) = JsNumber.NaN).
Proof.
  intros p input dt obstacles Halive p' top h.
  split; [apply processInput_finite|].
  pose proof (processInput_speed p input dt obstacles Halive) as H.
  cbv zeta in H. destruct H as (H1 & H2 & H3).
  split; [exact H1|]. split; [exact H2|]. split; [exact H3|]. split.
  - intros yaw pitch timestamp Hyaw q. subst q.
    unfold JsPlayer.processInput.
    cbn [JsPlayer.isDead JsPlayer.of_player]. rewrite Halive. cbv zeta.
    cbn [JsInputData.with_floats JsInputData.yaw JsInputData.pitch].
    rewrite (sin_not_finite yaw Hyaw), (cos_not_finite yaw Hyaw).
    cbn [JsNumber.mul JsNumber.add JsPlayer.vx JsPlayer.vz JsPlayer.x JsPlayer.z
         JsPlayer.yaw].
    match goal with
    | |- context [JsPhysics.applyPhysics ?a ?b ?c ?d] =>
        pose proof (applyPhysics_NaN_x a b c d (or_intror eq_refl)) as Hx;
        pose proof (applyPhysics_NaN_z a b c d (or_intror eq_refl)) as Hz;
        destruct (applyPhysics_NaN_velocity a b c d) as [Hvx Hvz];
        specialize (Hvx eq_refl); specialize (Hvz eq_refl)
    end.
    repeat split; assumption.
  - intros q next jdt Hx. unfold JsPlayer.processInput.
    destruct (JsPlayer.isDead q); [exact Hx|].
    cbv zeta. cbn [JsPlayer.x].
    apply applyPhysics_NaN_x. left. exact Hx.
Qed.

Lemma movement_speed_is_bounded_witness :
  let p' := Player.processInput alice shot5 (1 / 60) [] in
  Player.vx p' * Player.vx p' + Player.vz p' * Player.vz p' <= 8 * 8 /\
  JsPlayer.x
    (JsPlayer.processInput (JsPlayer.of_player alice)
       (JsInputData.with_floats shot5 JsNumber.NaN (JsNumber.Finite 0)
          (JsNumber.Finite 9900))
       (JsNumber.Finite (1 / 60)) [])
  = JsNumber.NaN.
Proof.
  cbv zeta.
  pose proof (movement_speed_is_bounded alice shot5 (1 / 60) [] eq_refl) as H.
  cbv zeta in H. destruct H as (_ & H & _ & _ & Hnan & _).
  split.
  - unfold GAME_CONSTANTS.MOVE_SPEED, GAME_CONSTANTS.SPRINT_MULTIPLIER in H. lra.
  - destruct (Hnan JsNumber.NaN (JsNumber.Finite 0) (JsNumber.Finite 9900) eq_refl)
      as (_ & _ & Hx & _).
    exact Hx.
Defined.

(** X26. For a shooter whose yaw and pitch are numbers, the direction a
    bullet is traced along has length 1: the look direction has, and for
    every weapon of the table, with draws of [Math.random()] in [[0, 1)],
    so has the direction after the spread, which takes three draws; so
    distances along the ray are distances in the world.  When the yaw is
    NaN or an infinity the look direction has NaN for [x] and [z], and
    when the pitch is, all three components are NaN. *)
Theorem bullet_direction_is_unit :
  forall (E : Env) (weapon : Weapon.t) (shooter : Player.t) (e : Eff),
    In weapon GAME_CONSTANTS.WEAPONS ->
    (forall k, 0 <= rnd_at E k < 1) ->
    JsPlayer.getLookDirection (JsPlayer.of_player shooter)
    = JsVec3.of_vec3 (Player.getLookDirection shooter) /\
    normSq (Player.getLookDirection shooter) = 1 /\
    normSq (fst (Room.applySpread E weapon (Player.getLookDirection shooter) e)) = 1 /\
    rng (snd (Room.applySpread E weapon (Player.getLookDirection shooter) e))
    = (rng e + 3)%nat /\
    (forall q : JsPlayer.t,
       JsNumber.isFinite (JsPlayer.yaw q) = false ->
       JsVec3.x (JsPlayer.getLookDirection q) = JsNumber.NaN /\
       JsVec3.z (JsPlayer.getLookDirection q) = JsNumber.NaN) /\
    (forall q : JsPlayer.t,
       JsNumber.isFinite (JsPlayer.pitch q) = false ->
       JsVec3.x (JsPlayer.getLookDirection q) = JsNumber.NaN /\
       JsVec3.y (JsPlayer.getLookDirection q) = JsNumber.NaN /\
       JsVec3.z (JsPlayer.getLookDirection q) = JsNumber.NaN).
Proof.
  intros E weapon shooter e Hw Hrnd.
  split; [apply getLookDirection_finite|].
  pose proof (direction_unit E weapon shooter e Hw Hrnd) as H.
  destruct (Room.applySpread E weapon (Player.getLookDirection shooter) e) as [d e'].
  destruct H as (H1 & H2 & H3 & _).
  split; [exact H1|]. split; [exact H2|]. split; [exact H3|]. split.
  - intros q Hyaw. unfold JsPlayer.getLookDirection. cbn [JsVec3.x JsVec3.z].
    rewrite (sin_not_finite _ Hyaw), (cos_not_finite _ Hyaw). split; reflexivity.
  - intros q Hpitch. unfold JsPlayer.getLookDirection. cbn [JsVec3.x JsVec3.y JsVec3.z].
    rewrite (sin_not_finite _ Hpitch), (cos_not_finite _ Hpitch).
    rewrite !mul_NaN_r. repeat split; reflexivity.
Qed.

Lemma bullet_direction_is_unit_witness :
  normSq (fst (Room.applySpread E0 GAME_CONSTANTS.Shotgun
                 (Player.getLookDirection alice) e0)) = 1 /\
  JsVec3.x (JsPlayer.getLookDirection
              (JsPlayer.processInput (JsPlayer.of_player alice)
                 (JsInputData.with_floats shot5 JsNumber.NaN (JsNumber.Finite 0)
                    (JsNumber.Finite 9900))
                 (JsNumber.Finite (1 / 60)) []))
  = JsNumber.NaN.
Proof.
  assert (Hw : In GAME_CONSTANTS.Shotgun GAME_CONSTANTS.WEAPONS) by (cbn; tauto).
  assert (Hr : forall k, 0 <= rnd_at E0 k < 1) by (intros k; cbn; lra).
  pose proof (bullet_direction_is_unit E0 GAME_CONSTANTS.Shotgun alice e0 Hw Hr)
    as (_ & _ & H & _ & Hyaw & _).
  split; [exact H|].
  apply Hyaw. reflexivity.
Defined.
